(** * InfiniTrain: job model, status machine, job store, worker and executor

    A shallow embedding of the Go packages [pkg/job], [internal/scheduler]
    (the in-memory store) and [internal/worker] (worker and executor),
    followed by the properties of the design document that are stated
    about them.

    Conventions of the embedding:
    - Go [string] is [string] (a sequence of bytes), Go [int] and
      [time.Duration] are [Z]; the code only compares and copies them.
    - [JobType] and [JobStatus] are Go string types, so they are strings
      here too: a job can carry a status that is none of the seven constants.
    - A [*Job] is an address into a heap of structs; a [[]string] is a slice
      header over a backing array in the heap; a [map[string]string] is a
      reference to a map object in the heap.  Copying a struct copies the
      header and the reference, not the array and the map object.
    - A function that writes through its receiver returns the new value of
      the receiver next to its Go result.
    - The clock, the random source, [time.ParseDuration], the four execution
      strategies and the worker's executor are inputs of the functions that
      use them. *)

From Stdlib Require Import ZArith String Ascii Strings.Byte List Bool Lia.
From Stdlib Require Import DecimalString DecimalZ.
From stdpp Require Import gmap strings list fin_maps.

Set Warnings "-register-all".
Local Open Scope string_scope.

(** ** Runtime values shared by the packages *)

(** Heap addresses. *)
Definition loc := positive.

(** [time.Time]: the instant ([Before]/[After] compare it) and the rest of
    the representation (monotonic reading, location), which [==] also sees. *)
Record Time := mkTime { unixNano : Z; timeRepr : Z }.

Definition Time_eqb (a b : Time) : bool :=
  (unixNano a =? unixNano b)%Z && (timeRepr a =? timeRepr b)%Z.

Definition Before (a b : Time) : bool := (unixNano a <? unixNano b)%Z.
Definition After (a b : Time) : bool := (unixNano b <? unixNano a)%Z.

(** [time.Duration], in nanoseconds. *)
Definition Duration := Z.
Definition Minute : Duration := 60000000000%Z.

(** A slice header [[]string]: the backing array (none for a nil slice) and
    the length.  The code never reslices or appends to a job's tags. *)
Record slice := mkSlice { sl_array : option loc; sl_len : nat }.

(** A dynamic value held in an [interface{}]: nil, an [int], a [string], a
    [time.Time], a [[]interface{}], or a value of any other type (a bool, a
    float64, a [[]string], ...), of which only the fact that it is none of
    the former matters to the code. *)
Inductive value :=
| VNil
| VInt (n : Z)
| VString (s : string)
| VTime (t : Time)
| VSlice (vs : list value)
| VOther (tag : string).

(** * Package job *)
Module job.

Definition JobType := string.
Definition JobTypeCommand : JobType := "command".
Definition JobTypeScript : JobType := "script".
Definition JobTypeHTTP : JobType := "http".
Definition JobTypeFile : JobType := "file".

Definition JobStatus := string.
Definition JobStatusPending : JobStatus := "pending".
Definition JobStatusQueued : JobStatus := "queued".
Definition JobStatusRunning : JobStatus := "running".
Definition JobStatusCompleted : JobStatus := "completed".
Definition JobStatusFailed : JobStatus := "failed".
Definition JobStatusCancelled : JobStatus := "cancelled".
Definition JobStatusRetrying : JobStatus := "retrying".

(** The error values of utils.go that the modelled code builds, an error
    made by [fmt.Errorf], and an error of a library type (as returned by
    [os/exec], [net/http], [os]). *)
Inductive error :=
| ValidationError (Message : string)
| JobNotFoundError (JobID : string)
| errorString (s : string)
| libraryError (s : string).

(** The [Error()] method. *)
Definition Error (e : error) : string :=
  match e with
  | ValidationError m => m
  | JobNotFoundError id => "job not found: " ++ id
  | errorString s => s
  | libraryError s => s
  end.

Definition NewValidationError (message : string) : error := ValidationError message.
Definition NewJobNotFoundError (jobID : string) : error := JobNotFoundError jobID.

Definition IsValidationError (err : error) : bool :=
  match err with ValidationError _ => true | _ => false end.

Definition IsJobNotFoundError (err : error) : bool :=
  match err with JobNotFoundError _ => true | _ => false end.

Record Job := mkJob {
  ID : string;
  Type_ : JobType;
  Command : string;
  Script : string;
  URL : string;
  Method : string;
  FilePath : string;
  Timeout : Duration;
  Retries : Z;
  Priority : Z;
  Tags : slice;
  Environment : option loc;
  WorkerID : string;
  Status : JobStatus;
  CreatedAt : Time;
  StartedAt : option Time;
  CompletedAt : option Time;
  Output : string;
  Error_ : string;
  ExitCode : Z
}.

Record JobResult := mkJobResult {
  res_JobID : string;
  res_Status : JobStatus;
  res_Output : string;
  res_Error : string;
  res_ExitCode : Z;
  res_StartedAt : Time;
  res_CompletedAt : Time;
  res_Duration : Duration
}.

Record JobRequest := mkJobRequest {
  req_Type : JobType;
  req_Command : string;
  req_Script : string;
  req_URL : string;
  req_Method : string;
  req_FilePath : string;
  req_Timeout : string;
  req_Retries : Z;
  req_Priority : Z;
  req_Tags : slice;
  req_Environment : option loc
}.

(** [Filter] of interfaces.go; [Value] is an [interface{}]. *)
Record Filter := mkFilter {
  Field : string;
  Operator : string;
  Value : value
}.

(** Field assignments [j.F = v]. *)
Definition set_Status (v : JobStatus) (j : Job) : Job :=
  mkJob (ID j) (Type_ j) (Command j) (Script j) (URL j) (Method j) (FilePath j)
    (Timeout j) (Retries j) (Priority j) (Tags j) (Environment j) (WorkerID j)
    v (CreatedAt j) (StartedAt j) (CompletedAt j) (Output j) (Error_ j) (ExitCode j).

Definition set_StartedAt (v : option Time) (j : Job) : Job :=
  mkJob (ID j) (Type_ j) (Command j) (Script j) (URL j) (Method j) (FilePath j)
    (Timeout j) (Retries j) (Priority j) (Tags j) (Environment j) (WorkerID j)
    (Status j) (CreatedAt j) v (CompletedAt j) (Output j) (Error_ j) (ExitCode j).

Definition set_CompletedAt (v : option Time) (j : Job) : Job :=
  mkJob (ID j) (Type_ j) (Command j) (Script j) (URL j) (Method j) (FilePath j)
    (Timeout j) (Retries j) (Priority j) (Tags j) (Environment j) (WorkerID j)
    (Status j) (CreatedAt j) (StartedAt j) v (Output j) (Error_ j) (ExitCode j).

Definition set_WorkerID (v : string) (j : Job) : Job :=
  mkJob (ID j) (Type_ j) (Command j) (Script j) (URL j) (Method j) (FilePath j)
    (Timeout j) (Retries j) (Priority j) (Tags j) (Environment j) v
    (Status j) (CreatedAt j) (StartedAt j) (CompletedAt j) (Output j) (Error_ j)
    (ExitCode j).

Definition set_Timeout (v : Duration) (j : Job) : Job :=
  mkJob (ID j) (Type_ j) (Command j) (Script j) (URL j) (Method j) (FilePath j)
    v (Retries j) (Priority j) (Tags j) (Environment j) (WorkerID j)
    (Status j) (CreatedAt j) (StartedAt j) (CompletedAt j) (Output j) (Error_ j)
    (ExitCode j).

Definition set_Priority (v : Z) (j : Job) : Job :=
  mkJob (ID j) (Type_ j) (Command j) (Script j) (URL j) (Method j) (FilePath j)
    (Timeout j) (Retries j) v (Tags j) (Environment j) (WorkerID j)
    (Status j) (CreatedAt j) (StartedAt j) (CompletedAt j) (Output j) (Error_ j)
    (ExitCode j).

Definition set_req_Method (v : string) (jr : JobRequest) : JobRequest :=
  mkJobRequest (req_Type jr) (req_Command jr) (req_Script jr) (req_URL jr) v
    (req_FilePath jr) (req_Timeout jr) (req_Retries jr) (req_Priority jr)
    (req_Tags jr) (req_Environment jr).

(** *** utils.go: status transitions *)

Definition CanTransitionTo (j : Job) (newStatus : JobStatus) : bool :=
  if String.eqb (Status j) JobStatusPending then
    String.eqb newStatus JobStatusQueued || String.eqb newStatus JobStatusCancelled
  else if String.eqb (Status j) JobStatusQueued then
    String.eqb newStatus JobStatusRunning || String.eqb newStatus JobStatusCancelled
  else if String.eqb (Status j) JobStatusRunning then
    String.eqb newStatus JobStatusCompleted || String.eqb newStatus JobStatusFailed
    || String.eqb newStatus JobStatusCancelled || String.eqb newStatus JobStatusRetrying
  else if String.eqb (Status j) JobStatusRetrying then
    String.eqb newStatus JobStatusQueued || String.eqb newStatus JobStatusFailed
    || String.eqb newStatus JobStatusCancelled
  else if String.eqb (Status j) JobStatusCompleted
          || String.eqb (Status j) JobStatusFailed
          || String.eqb (Status j) JobStatusCancelled then
    false
  else
    false.

(** [UpdateStatus] writes through its receiver: the result is the job after
    the call and the returned error ([None] for nil).  [now] is the reading
    of [time.Now()]. *)
Definition UpdateStatus (now : Time) (j : Job) (newStatus : JobStatus)
  : Job * option error :=
  if negb (CanTransitionTo j newStatus) then
    (j, Some (NewValidationError
                ("cannot transition from " ++ Status j ++ " to " ++ newStatus)))
  else
    let j1 := set_Status newStatus j in
    let j2 :=
      if String.eqb newStatus JobStatusRunning then
        match StartedAt j1 with
        | None => set_StartedAt (Some now) j1
        | Some _ => j1
        end
      else if String.eqb newStatus JobStatusCompleted
              || String.eqb newStatus JobStatusFailed
              || String.eqb newStatus JobStatusCancelled then
        match CompletedAt j1 with
        | None => set_CompletedAt (Some now) j1
        | Some _ => j1
        end
      else j1 in
    (j2, None).

Definition IsTerminal (j : Job) : bool :=
  String.eqb (Status j) JobStatusCompleted || String.eqb (Status j) JobStatusFailed
  || String.eqb (Status j) JobStatusCancelled.

Definition IsRunning (j : Job) : bool := String.eqb (Status j) JobStatusRunning.

Definition IsPending (j : Job) : bool :=
  String.eqb (Status j) JobStatusPending || String.eqb (Status j) JobStatusQueued.

(** *** utils.go: job identifiers *)

Definition hexDigit (n : N) : ascii :=
  match String.get (N.to_nat n) "0123456789abcdef" with
  | Some c => c
  | None => "0"%char
  end.

(** [hex.EncodeToString]: two lower-case digits per byte. *)
Fixpoint EncodeToString (bs : list byte) : string :=
  match bs with
  | [] => ""
  | b :: bs' =>
      String (hexDigit (Byte.to_N b / 16)) (String (hexDigit (Byte.to_N b mod 16))
        (EncodeToString bs'))
  end.

(** The verb [%d] of [fmt] on a signed integer. *)
Definition formatInt (z : Z) : string := NilZero.string_of_int (Z.to_int z).

(** [GenerateJobID]: [timestamp] is [time.Now().Unix()], [randomBytes] the
    four bytes the buffer holds after [rand.Read]. *)
Definition GenerateJobID (timestamp : Z) (randomBytes : byte * byte * byte * byte)
  : string :=
  let '(b0, b1, b2, b3) := randomBytes in
  let randomHex := EncodeToString [b0; b1; b2; b3] in
  "job-" ++ formatInt timestamp ++ "-" ++ randomHex.

(** *** types.go: requests *)

(** [Validate] may write the default method into the request: the result is
    the request after the call and the returned error. *)
Definition Validate (jr : JobRequest) : JobRequest * option error :=
  if String.eqb (req_Type jr) "" then
    (jr, Some (NewValidationError "job type is required"))
  else if String.eqb (req_Type jr) JobTypeCommand then
    if String.eqb (req_Command jr) "" then
      (jr, Some (NewValidationError "command is required for command jobs"))
    else (jr, None)
  else if String.eqb (req_Type jr) JobTypeScript then
    if String.eqb (req_Script jr) "" then
      (jr, Some (NewValidationError "script is required for script jobs"))
    else (jr, None)
  else if String.eqb (req_Type jr) JobTypeHTTP then
    if String.eqb (req_URL jr) "" then
      (jr, Some (NewValidationError "url is required for HTTP jobs"))
    else if String.eqb (req_Method jr) "" then
      (set_req_Method "GET" jr, None)
    else (jr, None)
  else if String.eqb (req_Type jr) JobTypeFile then
    if String.eqb (req_FilePath jr) "" then
      (jr, Some (NewValidationError "file_path is required for file jobs"))
    else (jr, None)
  else
    (jr, Some (NewValidationError ("unsupported job type: " ++ req_Type jr))).

Section ToJob.

(** [time.ParseDuration] of the Go library: [None] when it returns an error. *)
Variable ParseDuration : string -> option Duration.

(** [ToJob]: [timestamp] and [randomBytes] feed [GenerateJobID], [now] is the
    reading of [time.Now()] for [CreatedAt].  The result is the request after
    the call, and the new job or the error. *)
Definition ToJob (timestamp : Z) (randomBytes : byte * byte * byte * byte)
    (now : Time) (jr : JobRequest) : JobRequest * (Job + error) :=
  match Validate jr with
  | (jr1, Some err) => (jr1, inr err)
  | (jr1, None) =>
      let job :=
        {| ID := GenerateJobID timestamp randomBytes;
           Type_ := req_Type jr1;
           Command := req_Command jr1;
           Script := req_Script jr1;
           URL := req_URL jr1;
           Method := req_Method jr1;
           FilePath := req_FilePath jr1;
           Timeout := 0%Z;
           Retries := req_Retries jr1;
           Priority := req_Priority jr1;
           Tags := req_Tags jr1;
           Environment := req_Environment jr1;
           WorkerID := "";
           Status := JobStatusPending;
           CreatedAt := now;
           StartedAt := None;
           CompletedAt := None;
           Output := "";
           Error_ := "";
           ExitCode := 0%Z |} in
      let parsed :=
        if negb (String.eqb (req_Timeout jr1) "") then
          match ParseDuration (req_Timeout jr1) with
          | None =>
              inr (NewValidationError
                     ("invalid timeout format: " ++ req_Timeout jr1))
          | Some timeout => inl (set_Timeout timeout job)
          end
        else inl (set_Timeout (5 * Minute)%Z job) in
      match parsed with
      | inr err => (jr1, inr err)
      | inl job1 =>
          let job2 :=
            if (Priority job1 =? 0)%Z then set_Priority 1%Z job1 else job1 in
          (jr1, inl job2)
      end
  end.

End ToJob.

End job.

(** * The heap: structs, backing arrays and map objects *)
Module heap.

Record Heap := mkHeap {
  structs : gmap loc job.Job;
  arrays : gmap loc (list string);
  maps : gmap loc (gmap string string)
}.

(** [&v] for a fresh variable holding [v]: a new struct at an unused address. *)
Definition new (h : Heap) (v : job.Job) : loc * Heap :=
  let p := fresh (dom (structs h)) in
  (p, mkHeap (<[p := v]> (structs h)) (arrays h) (maps h)).

(** [*p = v]. *)
Definition write (h : Heap) (p : loc) (v : job.Job) : Heap :=
  mkHeap (<[p := v]> (structs h)) (arrays h) (maps h).

(** Statements of a caller that holds the job pointer [j].  [None] is a
    run-time panic (nil dereference, entry of a nil map, index out of range). *)

(** [j.Environment[k] = v]. *)
Definition assignEnvironment (h : Heap) (j : loc) (k v : string) : option Heap :=
  match structs h !! j with
  | None => None
  | Some jv =>
      match job.Environment jv with
      | None => None
      | Some m =>
          match maps h !! m with
          | None => None
          | Some mv => Some (mkHeap (structs h) (arrays h) (<[m := <[k := v]> mv]> (maps h)))
          end
      end
  end.

(** [j.Tags[i] = v]. *)
Definition assignTag (h : Heap) (j : loc) (i : nat) (v : string) : option Heap :=
  match structs h !! j with
  | None => None
  | Some jv =>
      if negb (i <? sl_len (job.Tags jv))%nat then None
      else
        match sl_array (job.Tags jv) with
        | None => None
        | Some a =>
            match arrays h !! a with
            | None => None
            | Some av => Some (mkHeap (structs h) (<[a := <[i := v]> av]> (arrays h)) (maps h))
            end
        end
  end.

(** [j.WorkerID = v], a write to a field of the caller's own struct. *)
Definition assignWorkerID (h : Heap) (j : loc) (v : string) : option Heap :=
  match structs h !! j with
  | None => None
  | Some jv => Some (write h j (job.set_WorkerID v jv))
  end.

(** What a reader of the job at [j] sees: the struct, the elements of its
    tags and the entries of its environment. *)
Definition tagsOf (h : Heap) (jv : job.Job) : list string :=
  match sl_array (job.Tags jv) with
  | None => []
  | Some a => take (sl_len (job.Tags jv)) (default [] (arrays h !! a))
  end.

Definition environmentOf (h : Heap) (jv : job.Job) : gmap string string :=
  match job.Environment jv with
  | None => ∅
  | Some m => default ∅ (maps h !! m)
  end.

Definition observe (h : Heap) (j : loc)
  : option (job.Job * list string * gmap string string) :=
  match structs h !! j with
  | None => None
  | Some jv => Some (jv, tagsOf h jv, environmentOf h jv)
  end.

End heap.

(** * Package scheduler: the in-memory store *)
Module scheduler.

(** The map of the store; every method runs under the store's lock, so a
    method is one step on the heap and the map. *)
Record MemoryStore := mkMemoryStore {
  jobs : gmap string loc
}.

Definition NewMemoryStore : MemoryStore := mkMemoryStore ∅.

(** The methods return [None] when they panic (a nil or dangling pointer),
    and else the heap and store after the call with the Go results. *)

Definition Create (h : heap.Heap) (s : MemoryStore) (j : loc)
  : option (heap.Heap * MemoryStore * option job.error) :=
  match heap.structs h !! j with
  | None => None
  | Some jv =>
      match jobs s !! job.ID jv with
      | Some _ =>
          Some (h, s, Some (job.NewValidationError ("job already exists: " ++ job.ID jv)))
      | None =>
          let '(jobCopy, h1) := heap.new h jv in
          Some (h1, mkMemoryStore (<[job.ID jv := jobCopy]> (jobs s)), None)
      end
  end.

Definition Get (h : heap.Heap) (s : MemoryStore) (jobID : string)
  : option (heap.Heap * option loc * option job.error) :=
  match jobs s !! jobID with
  | None => Some (h, None, Some (job.NewJobNotFoundError jobID))
  | Some j =>
      match heap.structs h !! j with
      | None => None
      | Some jv =>
          let '(jobCopy, h1) := heap.new h jv in
          Some (h1, Some jobCopy, None)
      end
  end.

Definition Update (h : heap.Heap) (s : MemoryStore) (j : loc)
  : option (heap.Heap * MemoryStore * option job.error) :=
  match heap.structs h !! j with
  | None => None
  | Some jv =>
      match jobs s !! job.ID jv with
      | None => Some (h, s, Some (job.NewJobNotFoundError (job.ID jv)))
      | Some _ =>
          let '(jobCopy, h1) := heap.new h jv in
          Some (h1, mkMemoryStore (<[job.ID jv := jobCopy]> (jobs s)), None)
      end
  end.

Definition Delete (s : MemoryStore) (jobID : string)
  : MemoryStore * option job.error :=
  match jobs s !! jobID with
  | None => (s, Some (job.NewJobNotFoundError jobID))
  | Some _ => (mkMemoryStore (delete jobID (jobs s)), None)
  end.

Definition UpdateStatus (now : Time) (h : heap.Heap) (s : MemoryStore)
    (jobID : string) (status : job.JobStatus)
  : option (heap.Heap * option job.error) :=
  match jobs s !! jobID with
  | None => Some (h, Some (job.NewJobNotFoundError jobID))
  | Some j =>
      match heap.structs h !! j with
      | None => None
      | Some jv =>
          match job.UpdateStatus now jv status with
          | (jv', Some err) => Some (heap.write h j jv', Some err)
          | (jv', None) => Some (heap.write h j jv', None)
          end
      end
  end.

(** [a == b] on interface values, for a field value [a] (nil, an int, a
    string or a time): equal dynamic types and equal values. *)
Definition ifaceEq (a b : value) : bool :=
  match a, b with
  | VNil, VNil => true
  | VInt x, VInt y => (x =? y)%Z
  | VString x, VString y => String.eqb x y
  | VTime x, VTime y => Time_eqb x y
  | _, _ => false
  end.

(** [toLowerCase]: the byte arithmetic wraps at 256. *)
Definition toLowerCase (b : ascii) : ascii :=
  let n := N_of_ascii b in
  if (65 <=? n)%N && (n <=? 90)%N then ascii_of_N ((n + 32) mod 256) else b.

(** [s[i]]; the loops of [findSubstring] index below [len(s)] only. *)
Definition byteAt (s : string) (i : nat) : ascii :=
  default zero (String.get i s).

(** The inner loop of [findSubstring] from index [j], with [n] iterations
    left: the final value of [match]. *)
Fixpoint matchLoop (str substr : string) (i j n : nat) : bool :=
  match n with
  | O => true
  | S n' =>
      if negb (Ascii.eqb (toLowerCase (byteAt str (i + j)))
                         (toLowerCase (byteAt substr j)))
      then false
      else matchLoop str substr i (S j) n'
  end.

(** The outer loop of [findSubstring] from index [i], with [n] iterations
    left. *)
Fixpoint searchLoop (str substr : string) (i n : nat) : bool :=
  match n with
  | O => false
  | S n' =>
      if matchLoop str substr i 0 (String.length substr) then true
      else searchLoop str substr (S i) n'
  end.

(** [findSubstring]: [i] runs from 0 to [len(str)-len(substr)], a signed
    difference, so the loop does not run when it is negative. *)
Definition findSubstring (str substr : string) : bool :=
  let last := (Z.of_nat (String.length str) - Z.of_nat (String.length substr))%Z in
  searchLoop str substr 0 (Z.to_nat (last + 1)).

(** The same loops with the bounds check of every [s[i]] written out:
    [None] is an index out of range. *)
Fixpoint matchLoopChecked (str substr : string) (i j n : nat) : option bool :=
  match n with
  | O => Some true
  | S n' =>
      match String.get (i + j) str, String.get j substr with
      | Some a, Some b =>
          if negb (Ascii.eqb (toLowerCase a) (toLowerCase b)) then Some false
          else matchLoopChecked str substr i (S j) n'
      | _, _ => None
      end
  end.

Fixpoint searchLoopChecked (str substr : string) (i n : nat) : option bool :=
  match n with
  | O => Some false
  | S n' =>
      match matchLoopChecked str substr i 0 (String.length substr) with
      | None => None
      | Some true => Some true
      | Some false => searchLoopChecked str substr (S i) n'
      end
  end.

Definition findSubstringChecked (str substr : string) : option bool :=
  let last := (Z.of_nat (String.length str) - Z.of_nat (String.length substr))%Z in
  searchLoopChecked str substr 0 (Z.to_nat (last + 1)).

Definition contains (str substr : string) : bool :=
  (String.length substr <=? String.length str)%nat
  && (String.eqb str substr
      || ((0 <? String.length substr)%nat && findSubstring str substr)).

Definition compareValues (a b : value) : Z :=
  match a with
  | VInt va =>
      match b with
      | VInt vb => if (va <? vb)%Z then (-1)%Z else if (vb <? va)%Z then 1%Z else 0%Z
      | _ => 0%Z
      end
  | VString va =>
      match b with
      | VString vb =>
          if String.ltb va vb then (-1)%Z else if String.ltb vb va then 1%Z else 0%Z
      | _ => 0%Z
      end
  | VTime va =>
      match b with
      | VTime vb => if Before va vb then (-1)%Z else if After va vb then 1%Z else 0%Z
      | _ => 0%Z
      end
  | _ => 0%Z
  end.

(** The first switch of [matchesFilter]: the value of the named field, or
    [None] for an unknown field. *)
Definition fieldValue (j : job.Job) (field : string) : option value :=
  if String.eqb field "id" then Some (VString (job.ID j))
  else if String.eqb field "type" then Some (VString (job.Type_ j))
  else if String.eqb field "status" then Some (VString (job.Status j))
  else if String.eqb field "worker_id" then Some (VString (job.WorkerID j))
  else if String.eqb field "priority" then Some (VInt (job.Priority j))
  else if String.eqb field "created_at" then Some (VTime (job.CreatedAt j))
  else if String.eqb field "started_at" then
    match job.StartedAt j with
    | Some t => Some (VTime t)
    | None => Some VNil
    end
  else if String.eqb field "completed_at" then
    match job.CompletedAt j with
    | Some t => Some (VTime t)
    | None => Some VNil
    end
  else None.

Definition matchesFilter (j : job.Job) (filter : job.Filter) : bool :=
  match fieldValue j (job.Field filter) with
  | None => false
  | Some fieldValue =>
      let op := job.Operator filter in
      if String.eqb op "eq" then ifaceEq fieldValue (job.Value filter)
      else if String.eqb op "ne" then negb (ifaceEq fieldValue (job.Value filter))
      else if String.eqb op "gt" then
        (0 <? compareValues fieldValue (job.Value filter))%Z
      else if String.eqb op "lt" then
        (compareValues fieldValue (job.Value filter) <? 0)%Z
      else if String.eqb op "gte" then
        (0 <=? compareValues fieldValue (job.Value filter))%Z
      else if String.eqb op "lte" then
        (compareValues fieldValue (job.Value filter) <=? 0)%Z
      else if String.eqb op "in" then
        match job.Value filter with
        | VSlice slice => existsb (ifaceEq fieldValue) slice
        | _ => false
        end
      else if String.eqb op "contains" then
        match fieldValue with
        | VString str =>
            match job.Value filter with
            | VString substr => contains str substr
            | _ => false
            end
        | _ => false
        end
      else false
  end.

Fixpoint matchesFilters (j : job.Job) (filters : list job.Filter) : bool :=
  match filters with
  | [] => true
  | filter :: rest =>
      if negb (matchesFilter j filter) then false else matchesFilters j rest
  end.

(** The loop of [List] over the remaining map entries. *)
Fixpoint listLoop (h : heap.Heap) (entries : list (string * loc))
    (filters : list job.Filter) (result : list loc)
  : option (heap.Heap * list loc) :=
  match entries with
  | [] => Some (h, result)
  | (_, j) :: rest =>
      match heap.structs h !! j with
      | None => None
      | Some jv =>
          if matchesFilters jv filters then
            let '(jobCopy, h1) := heap.new h jv in
            listLoop h1 rest filters (result ++ [jobCopy])
          else listLoop h rest filters result
      end
  end.

(** [List]: Go ranges over the map in an unspecified order; the model takes
    the entries in the order of [map_to_list]. *)
Definition List (h : heap.Heap) (s : MemoryStore) (filters : list job.Filter)
  : option (heap.Heap * list loc * option job.error) :=
  match listLoop h (map_to_list (jobs s)) filters [] with
  | None => None
  | Some (h1, result) => Some (h1, result, None)
  end.

(** The struct the store holds under [jobID], if any. *)
Definition storedJob (h : heap.Heap) (s : MemoryStore) (jobID : string)
  : option job.Job :=
  match jobs s !! jobID with
  | None => None
  | Some j => heap.structs h !! j
  end.

(** Every pointer in the map points to a struct.  It holds of the empty
    store and every method keeps it. *)
Definition wellFormed (h : heap.Heap) (s : MemoryStore) : Prop :=
  forall (jobID : string) (j : loc), jobs s !! jobID = Some j ->
    is_Some (heap.structs h !! j).

(** The structs behind a list of map entries, and those of them that satisfy
    every filter: what [List] is to return, up to order. *)
Definition structsOf (h : heap.Heap) (entries : list (string * loc)) : list job.Job :=
  omap (fun e => heap.structs h !! e.2) entries.

Definition matchingJobs (h : heap.Heap) (entries : list (string * loc))
    (filters : list job.Filter) : list job.Job :=
  List.filter (fun jv => matchesFilters jv filters) (structsOf h entries).

(** [GetJobsByStatus] and [GetJobsByWorker]. *)
Definition GetJobsByStatus (h : heap.Heap) (s : MemoryStore) (status : job.JobStatus)
  : option (heap.Heap * list loc * option job.error) :=
  List h s [ job.mkFilter "status" "eq" (VString status) ].

Definition GetJobsByWorker (h : heap.Heap) (s : MemoryStore) (workerID : string)
  : option (heap.Heap * list loc * option job.error) :=
  List h s [ job.mkFilter "worker_id" "eq" (VString workerID) ].

(** [Count]: the length of the map. *)
Definition Count (s : MemoryStore) : Z := Z.of_nat (size (jobs s)).

(** [Clear]: the store with a new, empty map. *)
Definition Clear (s : MemoryStore) : MemoryStore := mkMemoryStore ∅.

(** Every job of the store is filed under its own ID. *)
Definition filedUnderOwnID (h : heap.Heap) (s : MemoryStore) : Prop :=
  forall (jobID : string) (j : loc), jobs s !! jobID = Some j ->
    exists jv, heap.structs h !! j = Some jv /\ job.ID jv = jobID.

End scheduler.

(** * Package worker: the executor and the worker *)
Module worker.

(** [time.Duration] is an int64; [Time.Sub] saturates at its bounds. *)
Definition maxDuration : Duration := (2 ^ 63 - 1)%Z.
Definition minDuration : Duration := (- 2 ^ 63)%Z.

Definition Sub (t u : Time) : Duration :=
  let d := (unixNano t - unixNano u)%Z in
  if (maxDuration <? d)%Z then maxDuration
  else if (d <? minDuration)%Z then minDuration
  else d.

Section JobExecutor.

(** What the four strategies return for a job: output, exit code and error.
    They run a process, an HTTP request or a file operation under the
    job's deadline; the executor only looks at what they return. *)
Variables executeCommand executeScript executeHTTP executeFile
  : job.Job -> string * Z * option job.error.

(** [Execute]: [startTime] and [endTime] are the two readings of the clock.
    The result is the [*JobResult] (nil as [None]) and the error. *)
Definition Execute (startTime endTime : Time) (j : job.Job)
  : option job.JobResult * option job.error :=
  let ran :=
    if String.eqb (job.Type_ j) job.JobTypeCommand then Some (executeCommand j)
    else if String.eqb (job.Type_ j) job.JobTypeScript then Some (executeScript j)
    else if String.eqb (job.Type_ j) job.JobTypeHTTP then Some (executeHTTP j)
    else if String.eqb (job.Type_ j) job.JobTypeFile then Some (executeFile j)
    else None in
  match ran with
  | None => (None, Some (job.errorString ("unsupported job type: " ++ job.Type_ j)))
  | Some (output, exitCode, err) =>
      let duration := Sub endTime startTime in
      let '(status, errorMessage, exitCode) :=
        match err with
        | Some e =>
            (job.JobStatusFailed, job.Error e,
             if (exitCode =? 0)%Z then 1%Z else exitCode)
        | None => (job.JobStatusCompleted, "", exitCode)
        end in
      (Some {| job.res_JobID := job.ID j;
               job.res_Status := status;
               job.res_Output := output;
               job.res_Error := errorMessage;
               job.res_ExitCode := exitCode;
               job.res_StartedAt := startTime;
               job.res_CompletedAt := endTime;
               job.res_Duration := duration |},
       None)
  end.

End JobExecutor.

Definition CanExecute (jobType : job.JobType) : bool :=
  String.eqb jobType job.JobTypeCommand || String.eqb jobType job.JobTypeScript
  || String.eqb jobType job.JobTypeHTTP || String.eqb jobType job.JobTypeFile.

Definition Name : string := "default-executor".

(** [config.WorkerConfig]. *)
Record WorkerConfig := mkWorkerConfig {
  cfg_ID : string;
  SchedulerURL : string;
  MaxConcurrentJobs : Z;
  HeartbeatInterval : Duration;
  JobPollInterval : Duration;
  WorkingDirectory : string;
  LogLevel : string
}.

(** The worker.  [executor] is the [job.Executor] it was built with, as the
    function from the job it is handed to what [Execute] returns; like
    [JobExecutor], it does not write to the job or to the worker.
    [currentJobs] holds the callers' pointers. *)
Record Worker := mkWorker {
  id : string;
  config : WorkerConfig;
  executor : job.Job -> option job.JobResult * option job.error;
  currentJobs : gmap string loc;
  isRunning : bool;
  isHealthy : bool;
  lastHeartbeat : Time
}.

Definition NewWorker (now : Time) (cfg : WorkerConfig)
    (executor : job.Job -> option job.JobResult * option job.error) : Worker :=
  {| id := cfg_ID cfg; config := cfg; executor := executor; currentJobs := ∅;
     isRunning := false; isHealthy := true; lastHeartbeat := now |}.

Definition set_currentJobs (m : gmap string loc) (w : Worker) : Worker :=
  mkWorker (id w) (config w) (executor w) m (isRunning w) (isHealthy w)
    (lastHeartbeat w).

Definition IsHealthy (w : Worker) : bool := isHealthy w && isRunning w.

Definition GetCapacity (w : Worker) : Z := MaxConcurrentJobs (config w).

Definition GetCurrentLoad (w : Worker) : Z := Z.of_nat (size (currentJobs w)).

Definition CanAcceptJob (w : Worker) : bool :=
  IsHealthy w && (GetCurrentLoad w <? GetCapacity w)%Z.

Definition SetHealthy (healthy : bool) (w : Worker) : Worker :=
  mkWorker (id w) (config w) (executor w) (currentJobs w) (isRunning w) healthy
    (lastHeartbeat w).

(** How a call of [ExecuteJob] ends: it returns a result and an error, or it
    panics (a nil job, or a nil result without an error from the executor). *)
Inductive outcome :=
| Returns (result : option job.JobResult) (err : option job.error)
| Panics.

(** [ExecuteJob]: the heap and the worker after the call, the jobs handed to
    the executor, and the outcome.  The deferred function has run in every
    branch after the registration.  Writes to standard output are left out. *)
Definition ExecuteJob (now : Time) (h : heap.Heap) (w : Worker) (j : loc)
  : heap.Heap * Worker * list job.Job * outcome :=
  if negb (CanAcceptJob w) then
    (h, w, [],
     Returns None
       (Some (job.errorString
                ("worker " ++ id w ++ " cannot accept job: at capacity or unhealthy"))))
  else
    match heap.structs h !! j with
    | None => (h, w, [], Panics)
    | Some jv =>
        let w1 := set_currentJobs (<[job.ID jv := j]> (currentJobs w)) w in
        let deferred (w' : Worker) (jv' : job.Job) : Worker :=
          set_currentJobs (delete (job.ID jv') (currentJobs w')) w' in
        let jv1 := job.set_WorkerID (id w) jv in
        match job.UpdateStatus now jv1 job.JobStatusRunning with
        | (jv2, Some err) =>
            (heap.write h j jv2, deferred w1 jv2, [],
             Returns None
               (Some (job.errorString
                        ("failed to update job status: " ++ job.Error err))))
        | (jv2, None) =>
            let h2 := heap.write h j jv2 in
            match executor w jv2 with
            | (result, Some err) =>
                (h2, deferred w1 jv2, [jv2], Returns result (Some err))
            | (Some result, None) =>
                (h2, deferred w1 jv2, [jv2], Returns (Some result) None)
            | (None, None) =>
                (h2, deferred w1 jv2, [jv2], Panics)
            end
        end
    end.

Definition set_isRunning (b : bool) (w : Worker) : Worker :=
  mkWorker (id w) (config w) (executor w) (currentJobs w) b (isHealthy w)
    (lastHeartbeat w).

Section FileSystem.

(** What the file system answers: [filepath.Clean], and the errors of
    [os.Stat] and [os.MkdirAll] on a path ([None] for nil). *)
Variable Clean : string -> string.
Variables Stat MkdirAll : string -> option job.error.

(** [ensureDirectory]. *)
Definition ensureDirectory (dir : string) : option job.error :=
  if String.eqb dir "" then None
  else
    let dir := Clean dir in
    match Stat dir with
    | None => None
    | Some _ => MkdirAll dir
    end.

(** [Start]: the worker after the call and the error.  The two loops it
    launches run beside the caller and are left out. *)
Definition Start (w : Worker) : Worker * option job.error :=
  let w := set_isRunning true w in
  match ensureDirectory (WorkingDirectory (config w)) with
  | Some err =>
      (w, Some (job.errorString
                  ("failed to create working directory: " ++ job.Error err)))
  | None => (w, None)
  end.

End FileSystem.

(** *** The strategies of the executor that are not network calls *)

(** The line feed of the Go string literals. *)
Definition LF : string := String (ascii_of_nat 10) EmptyString.

(** How [cmd.Run] can fail: the process ran and exited with a code (an
    [*exec.ExitError]), or another failure (not found, not started, ...). *)
Inductive runError :=
| ExitError (code : Z) (msg : string)
| RunFailure (msg : string).

Definition runErrorValue (e : runError) : job.error :=
  match e with
  | ExitError _ msg => job.libraryError msg
  | RunFailure msg => job.libraryError msg
  end.

Section Strategies.

(** The executor's working directory. *)
Variable workingDir : string.

(** Library functions: [strings.Fields], [filepath.IsAbs], [filepath.Join]. *)
Variable Fields : string -> list string.
Variable IsAbs : string -> bool.
Variable Join : string -> string -> string.

(** The operating system: [os.Environ()]; a run of a program with its
    arguments, directory and environment, giving what it wrote to stdout
    and stderr and the error of [cmd.Run]; [os.WriteFile] and [os.ReadFile];
    and the two file operations whose output is formatted from file
    metadata. *)
Variable Environ : list string.
Variable Run : string -> list string -> string -> list string
               -> string * string * option runError.
Variable WriteFile : string -> string -> option job.error.
Variable ReadFile : string -> string + job.error.
Variables statFile listDirectory : string -> string * Z * option job.error.

(** The job's environment entries as [key=value], in the order Go ranges
    over the map (here: the order of [map_to_list]). *)
Definition jobEnv (h : heap.Heap) (j : job.Job) : list string :=
  (fun kv : string * string => kv.1 ++ "=" ++ kv.2)
    <$> map_to_list (heap.environmentOf h j).

Definition executeCommand (h : heap.Heap) (j : job.Job)
  : string * Z * option job.error :=
  match Fields (job.Command j) with
  | [] => ("", 1%Z, Some (job.errorString "empty command"))
  | name :: args =>
      let '(stdout, stderr, err) :=
        Run name args workingDir (Environ ++ jobEnv h j)%list in
      let output := stdout in
      let output :=
        if (0 <? String.length stderr)%nat then
          (if negb (String.eqb output "")
           then output ++ LF ++ "---STDERR---" ++ LF else output) ++ stderr
        else output in
      let exitCode :=
        match err with
        | None => 0%Z
        | Some (ExitError code _) => code
        | Some (RunFailure _) => 1%Z
        end in
      (output, exitCode, runErrorValue <$> err)
  end.

(** [executeScript]; the deferred removal of the script file changes nothing
    of what is returned and is left out. *)
Definition executeScript (h : heap.Heap) (j : job.Job)
  : string * Z * option job.error :=
  let scriptFile := Join workingDir ("script_" ++ job.ID j ++ ".sh") in
  match WriteFile scriptFile (job.Script j) with
  | Some err =>
      ("", 1%Z, Some (job.errorString ("failed to write script file: " ++ job.Error err)))
  | None =>
      let '(stdout, stderr, err) :=
        Run "/bin/bash" [scriptFile] workingDir (Environ ++ jobEnv h j)%list in
      let output := stdout in
      let output :=
        if (0 <? String.length stderr)%nat then
          (if negb (String.eqb output "")
           then output ++ LF ++ "---STDERR---" ++ LF else output) ++ stderr
        else output in
      let exitCode :=
        match err with
        | None => 0%Z
        | Some (ExitError code _) => code
        | Some (RunFailure _) => 1%Z
        end in
      (output, exitCode, runErrorValue <$> err)
  end.

Definition readFile (filePath : string) : string * Z * option job.error :=
  match ReadFile filePath with
  | inr err => ("", 1%Z, Some (job.errorString ("failed to read file: " ++ job.Error err)))
  | inl content =>
      ("File: " ++ filePath ++ LF ++ "Size: "
         ++ job.formatInt (Z.of_nat (String.length content)) ++ " bytes" ++ LF
         ++ "Content:" ++ LF ++ content,
       0%Z, None)
  end.

Definition executeFile (h : heap.Heap) (j : job.Job)
  : string * Z * option job.error :=
  let operation :=
    match heap.environmentOf h j !! "FILE_OPERATION" with
    | Some op => op
    | None => "read"
    end in
  let filePath :=
    if negb (IsAbs (job.FilePath j)) then Join workingDir (job.FilePath j)
    else job.FilePath j in
  if String.eqb operation "read" then readFile filePath
  else if String.eqb operation "stat" then statFile filePath
  else if String.eqb operation "list" then listDirectory filePath
  else ("", 1%Z,
        Some (job.errorString ("unsupported file operation: " ++ operation))).

End Strategies.

(** What the [select] of [Stop] can receive: the 30 second timeout, a tick
    of the ticker with the load that [GetCurrentLoad] reads at that tick, or
    the cancellation of the context with its error. *)
Inductive stopEvent :=
| StopTimeout
| StopTick (load : Z)
| StopDone (err : job.error).

(** The loop of [Stop] over the events it receives: the error it returns,
    or [None] when it is still waiting after the last event. *)
Fixpoint stopLoop (events : list stopEvent) : option (option job.error) :=
  match events with
  | [] => None
  | StopTimeout :: _ => Some None
  | StopTick load :: rest => if (load =? 0)%Z then Some None else stopLoop rest
  | StopDone err :: _ => Some (Some err)
  end.

(** [Stop]: the worker after the call and what the loop returns. *)
Definition Stop (events : list stopEvent) (w : Worker)
  : Worker * option (option job.error) :=
  (set_isRunning false w, stopLoop events).

End worker.

(** * Package job, continued: functions that read the clock *)
Module jobclock.

(** [GetDuration]: [now] is the reading of [time.Now()]. *)
Definition GetDuration (now : Time) (j : job.Job) : Duration :=
  match job.StartedAt j with
  | None => 0%Z
  | Some startedAt =>
      let endTime :=
        match job.CompletedAt j with
        | Some completedAt => completedAt
        | None => now
        end in
      worker.Sub endTime startedAt
  end.

(** A caller that makes the calls [j.UpdateStatus(status)] of [calls] in
    order, at the clock readings given with them, and ignores the errors. *)
Fixpoint updateAll (calls : list (Time * job.JobStatus)) (j : job.Job) : job.Job :=
  match calls with
  | [] => j
  | (now, status) :: rest => updateAll rest (job.UpdateStatus now j status).1
  end.

(** The clock does not go back: the readings of [calls] are at or after [t]
    and in order. *)
Fixpoint clockFrom (t : Z) (calls : list (Time * job.JobStatus)) : Prop :=
  match calls with
  | [] => True
  | (now, _) :: rest => (t <= unixNano now)%Z /\ clockFrom (unixNano now) rest
  end.

(** The instant of the last call of [calls], [t] when there is none. *)
Fixpoint lastReading (t : Z) (calls : list (Time * job.JobStatus)) : Z :=
  match calls with
  | [] => t
  | (now, _) :: rest => lastReading (unixNano now) rest
  end.

(** What holds of a job throughout its life: its status is one of the seven,
    [CompletedAt] is set exactly in the terminal statuses, [StartedAt] is set
    in every status that lies behind running and unset in pending. *)
Definition lifeInvariant (j : job.Job) : Prop :=
  (job.Status j = job.JobStatusPending \/ job.Status j = job.JobStatusQueued
   \/ job.Status j = job.JobStatusRunning \/ job.Status j = job.JobStatusCompleted
   \/ job.Status j = job.JobStatusFailed \/ job.Status j = job.JobStatusCancelled
   \/ job.Status j = job.JobStatusRetrying)
  /\ (job.CompletedAt j <> None <->
      job.Status j = job.JobStatusCompleted \/ job.Status j = job.JobStatusFailed
      \/ job.Status j = job.JobStatusCancelled)
  /\ (job.Status j = job.JobStatusRunning \/ job.Status j = job.JobStatusRetrying
      \/ job.Status j = job.JobStatusCompleted \/ job.Status j = job.JobStatusFailed ->
      job.StartedAt j <> None)
  /\ (job.Status j = job.JobStatusPending -> job.StartedAt j = None).

(** The timestamps that are set lie at or before [t], and in order. *)
Definition timesBefore (t : Z) (j : job.Job) : Prop :=
  (forall s, job.StartedAt j = Some s -> (unixNano s <= t)%Z)
  /\ (forall c, job.CompletedAt j = Some c -> (unixNano c <= t)%Z)
  /\ (forall s c, job.StartedAt j = Some s -> job.CompletedAt j = Some c ->
                  (unixNano s <= unixNano c)%Z).

(** The seven statuses of types.go. *)
Definition statuses : list job.JobStatus :=
  [ job.JobStatusPending; job.JobStatusQueued; job.JobStatusRunning;
    job.JobStatusCompleted; job.JobStatusFailed; job.JobStatusCancelled;
    job.JobStatusRetrying ].

End jobclock.

(** ** config: the configuration and its environment *)
Module config.

Definition Second : Duration := 1000000000%Z.

Record SchedulerConfig := mkSchedulerConfig {
  Port : Z;
  Host : string;
  RedisURL : string;
  MaxConcurrentJobs : Z;
  JobTimeout : Duration;
  WorkerTimeout : Duration;
  HealthCheckInterval : Duration
}.

Record LoggingConfig := mkLoggingConfig {
  Level : string;
  Format : string;
  Output : string
}.

Record RedisConfig := mkRedisConfig {
  URL : string;
  Password : string;
  DB : Z;
  PoolSize : Z
}.

Record Config := mkConfig {
  Scheduler : SchedulerConfig;
  Worker : worker.WorkerConfig;
  Logging : LoggingConfig;
  Redis : RedisConfig
}.

(** [Validate]: the first check that fails gives the error. *)
Definition Validate (c : Config) : option job.error :=
  if (Port (Scheduler c) <=? 0)%Z || (65535 <? Port (Scheduler c))%Z then
    Some (job.errorString
            ("invalid scheduler port: " ++ job.formatInt (Port (Scheduler c))))
  else if String.eqb (RedisURL (Scheduler c)) "" then
    Some (job.errorString "redis URL cannot be empty")
  else if String.eqb (worker.SchedulerURL (Worker c)) "" then
    Some (job.errorString "scheduler URL cannot be empty")
  else if (worker.MaxConcurrentJobs (Worker c) <=? 0)%Z then
    Some (job.errorString "worker max concurrent jobs must be positive")
  else if (MaxConcurrentJobs (Scheduler c) <=? 0)%Z then
    Some (job.errorString "scheduler max concurrent jobs must be positive")
  else None.

Definition GetSchedulerAddress (c : Config) : string :=
  Host (Scheduler c) ++ ":" ++ job.formatInt (Port (Scheduler c)).

Section Environment.

(** [os.Getenv] (the empty string for a variable that is not set),
    [strconv.Atoi] and [time.ParseDuration] ([None] when they return an
    error), [os.Hostname] ([None] when it returns an error) and the reading
    of [time.Now().Unix()]. *)
Variable Getenv : string -> string.
Variable Atoi : string -> option Z.
Variable ParseDuration : string -> option Duration.
Variable Hostname : option string.
Variable unix : Z.

Definition getEnvString (key defaultValue : string) : string :=
  let value := Getenv key in
  if negb (String.eqb value "") then value else defaultValue.

Definition getEnvInt (key : string) (defaultValue : Z) : Z :=
  let value := Getenv key in
  if negb (String.eqb value "") then
    match Atoi value with
    | Some i => i
    | None => defaultValue
    end
  else defaultValue.

Definition getEnvDuration (key : string) (defaultValue : Duration) : Duration :=
  let value := Getenv key in
  if negb (String.eqb value "") then
    match ParseDuration value with
    | Some d => d
    | None => defaultValue
    end
  else defaultValue.

Definition generateWorkerID : string :=
  let hostname := match Hostname with
                  | Some name => name
                  | None => "unknown"
                  end in
  "worker-" ++ hostname ++ "-" ++ job.formatInt unix.

Definition LoadConfig : Config :=
  {| Scheduler :=
       {| Port := getEnvInt "SCHEDULER_PORT" 8080;
          Host := getEnvString "SCHEDULER_HOST" "0.0.0.0";
          RedisURL := getEnvString "REDIS_URL" "redis://localhost:6379";
          MaxConcurrentJobs := getEnvInt "SCHEDULER_MAX_CONCURRENT_JOBS" 100;
          JobTimeout := getEnvDuration "SCHEDULER_JOB_TIMEOUT" (30 * Minute)%Z;
          WorkerTimeout := getEnvDuration "SCHEDULER_WORKER_TIMEOUT" (60 * Second)%Z;
          HealthCheckInterval :=
            getEnvDuration "SCHEDULER_HEALTH_CHECK_INTERVAL" (30 * Second)%Z |};
     Worker :=
       {| worker.cfg_ID := getEnvString "WORKER_ID" generateWorkerID;
          worker.SchedulerURL := getEnvString "SCHEDULER_URL" "http://localhost:8080";
          worker.MaxConcurrentJobs := getEnvInt "WORKER_MAX_CONCURRENT_JOBS" 5;
          worker.HeartbeatInterval :=
            getEnvDuration "WORKER_HEARTBEAT_INTERVAL" (30 * Second)%Z;
          worker.JobPollInterval :=
            getEnvDuration "WORKER_JOB_POLL_INTERVAL" (5 * Second)%Z;
          worker.WorkingDirectory :=
            getEnvString "WORKER_WORKING_DIRECTORY" "/tmp/infinitrain";
          worker.LogLevel := getEnvString "WORKER_LOG_LEVEL" "info" |};
     Logging :=
       {| Level := getEnvString "LOG_LEVEL" "info";
          Format := getEnvString "LOG_FORMAT" "json";
          Output := getEnvString "LOG_OUTPUT" "stdout" |};
     Redis :=
       {| URL := getEnvString "REDIS_URL" "redis://localhost:6379";
          Password := getEnvString "REDIS_PASSWORD" "";
          DB := getEnvInt "REDIS_DB" 0;
          PoolSize := getEnvInt "REDIS_POOL_SIZE" 10 |} |}.

Definition IsProduction : bool :=
  String.eqb (getEnvString "ENVIRONMENT" "development") "production".

Definition IsDevelopment : bool := negb IsProduction.

End Environment.

End config.

(** ** api: the handlers that list and count jobs *)
Module api.

(** What a handler writes: [writeJSON] with a status and the jobs and their
    count, or [writeError] with a status and a message. *)
Inductive response :=
| writeJSON (status : Z) (jobs : list loc) (count : Z)
| writeError (status : Z) (message : string).

Section handleListJobs.

(** [r.URL.Query().Get] (the empty string for a parameter that is absent),
    [strconv.Atoi], and [ListJobs] of the manager the server was built
    with. *)
Variable query : string -> string.
Variable Atoi : string -> option Z.
Variable ListJobs : list job.Filter -> list loc * option job.error.

Definition listFilters : list job.Filter :=
  let filters := [] in
  let filters :=
    if negb (String.eqb (query "status") "") then
      (filters ++ [ job.mkFilter "status" "eq" (VString (query "status")) ])%list
    else filters in
  let filters :=
    if negb (String.eqb (query "worker_id") "") then
      (filters ++ [ job.mkFilter "worker_id" "eq" (VString (query "worker_id")) ])%list
    else filters in
  filters.

Definition listLimit : Z :=
  let l := query "limit" in
  if negb (String.eqb l "") then
    match Atoi l with
    | Some parsed => if (0 <? parsed)%Z then parsed else 100%Z
    | None => 100%Z
    end
  else 100%Z.

Definition handleListJobs : response :=
  let filters := listFilters in
  let limit := listLimit in
  match ListJobs filters with
  | (_, Some err) => writeError 500 ("failed to list jobs: " ++ job.Error err)
  | (jobs, None) =>
      let jobs := if (limit <? Z.of_nat (length jobs))%Z
                  then take (Z.to_nat limit) jobs else jobs in
      writeJSON 200 jobs (Z.of_nat (length jobs))
  end.

End handleListJobs.

(** The statuses [handleMetrics] counts. *)
Definition statuses : list job.JobStatus :=
  [ job.JobStatusPending; job.JobStatusQueued; job.JobStatusRunning;
    job.JobStatusCompleted; job.JobStatusFailed; job.JobStatusCancelled ].

(** The loop of [handleMetrics] over the statuses, with the memory store as
    the server's store: the heap after the queries, [jobCounts] and
    [totalJobs]. *)
Fixpoint countLoop (h : heap.Heap) (s : scheduler.MemoryStore)
    (statuses : list job.JobStatus) (jobCounts : gmap string Z) (totalJobs : Z)
  : option (heap.Heap * gmap string Z * Z) :=
  match statuses with
  | [] => Some (h, jobCounts, totalJobs)
  | status :: rest =>
      match scheduler.List h s [ job.mkFilter "status" "eq" (VString status) ] with
      | None => None
      | Some (h1, jobs, None) =>
          let count := Z.of_nat (length jobs) in
          countLoop h1 s rest (<[ status := count ]> jobCounts) (totalJobs + count)%Z
      | Some (h1, _, Some _) => countLoop h1 s rest jobCounts totalJobs
      end
  end.

Definition jobMetrics (h : heap.Heap) (s : scheduler.MemoryStore)
  : option (heap.Heap * gmap string Z * Z) :=
  countLoop h s statuses ∅ 0%Z.

(** The number of stored jobs that satisfy [p]. *)
Definition stored (h : heap.Heap) (s : scheduler.MemoryStore) (p : job.Job -> bool)
  : Z :=
  Z.of_nat (length (List.filter p
                      (scheduler.structsOf h (map_to_list (scheduler.jobs s))))).

End api.

(** * The vocabulary of the design document

    Definitions that follow the words of the design document; the code is
    compared with them below. *)
Module design.

(** The transition table (section 4.1), as the list of its edges. *)
Definition transitionTable : list (job.JobStatus * job.JobStatus) :=
  [ (job.JobStatusPending, job.JobStatusQueued);
    (job.JobStatusPending, job.JobStatusCancelled);
    (job.JobStatusQueued, job.JobStatusRunning);
    (job.JobStatusQueued, job.JobStatusCancelled);
    (job.JobStatusRunning, job.JobStatusCompleted);
    (job.JobStatusRunning, job.JobStatusFailed);
    (job.JobStatusRunning, job.JobStatusCancelled);
    (job.JobStatusRunning, job.JobStatusRetrying);
    (job.JobStatusRetrying, job.JobStatusQueued);
    (job.JobStatusRetrying, job.JobStatusFailed);
    (job.JobStatusRetrying, job.JobStatusCancelled) ].

(** The terminal statuses. *)
Definition terminalStatus (s : job.JobStatus) : Prop :=
  s = job.JobStatusCompleted \/ s = job.JobStatusFailed
  \/ s = job.JobStatusCancelled.

(** The four supported job types, and a request that lacks the payload
    field its type requires (section 4.2). *)
Definition knownType (t : job.JobType) : Prop :=
  t = job.JobTypeCommand \/ t = job.JobTypeScript \/ t = job.JobTypeHTTP
  \/ t = job.JobTypeFile.

Definition missingRequiredField (jr : job.JobRequest) : Prop :=
  (job.req_Type jr = job.JobTypeCommand /\ job.req_Command jr = "")
  \/ (job.req_Type jr = job.JobTypeScript /\ job.req_Script jr = "")
  \/ (job.req_Type jr = job.JobTypeHTTP /\ job.req_URL jr = "")
  \/ (job.req_Type jr = job.JobTypeFile /\ job.req_FilePath jr = "").

(** The timeout of the job made from a request with timeout string [s]:
    five minutes when [s] is empty, the parsed duration otherwise; [None]
    when [s] is malformed. *)
Definition requestedTimeout (ParseDuration : string -> option Duration)
    (s : string) : option Duration :=
  if String.eqb s "" then Some (5 * Minute)%Z else ParseDuration s.

(** Case folding of ASCII letters. *)
Definition lowerASCII (c : ascii) : ascii :=
  let n := nat_of_ascii c in
  if (65 <=? n)%nat && (n <=? 90)%nat then ascii_of_nat (n + 32) else c.

Fixpoint foldCase (s : string) : string :=
  match s with
  | EmptyString => EmptyString
  | String c s' => String (lowerASCII c) (foldCase s')
  end.

(** [substr] occurs in [str] as a substring up to the case of the ASCII
    letters: at some position, the substring of [str] of the length of
    [substr] equals [substr] once A-Z are folded to a-z in both. *)
Definition occursIgnoringCase (substr str : string) : Prop :=
  exists i : nat,
    (i + String.length substr <= String.length str)%nat
    /\ foldCase (String.substring i (String.length substr) str) = foldCase substr.

(** The fields a filter can name (section 4.3). *)
Definition knownFields : list string :=
  ["id"; "type"; "status"; "worker_id"; "priority"; "created_at";
   "started_at"; "completed_at"].

(** The operators of a filter (interfaces.go). *)
Definition knownOperators : list string :=
  ["eq"; "ne"; "gt"; "lt"; "gte"; "lte"; "in"; "contains"].

(** Comparably-typed operands: two ints, two strings or two timestamps. *)
Definition comparablyTyped (a b : value) : Prop :=
  match a, b with
  | VInt _, VInt _ | VString _, VString _ | VTime _, VTime _ => True
  | _, _ => False
  end.

(** The four ordering operators and the relation each one stands for, on
    comparably-typed operands. *)
Definition ordered (op : string) (a b : value) : Prop :=
  match a, b with
  | VInt x, VInt y =>
      (op = "gt" /\ (x > y)%Z) \/ (op = "lt" /\ (x < y)%Z)
      \/ (op = "gte" /\ (x >= y)%Z) \/ (op = "lte" /\ (x <= y)%Z)
  | VString x, VString y =>
      (op = "gt" /\ String.ltb y x = true) \/ (op = "lt" /\ String.ltb x y = true)
      \/ (op = "gte" /\ String.leb y x = true) \/ (op = "lte" /\ String.leb x y = true)
  | VTime x, VTime y =>
      (op = "gt" /\ (unixNano x > unixNano y)%Z)
      \/ (op = "lt" /\ (unixNano x < unixNano y)%Z)
      \/ (op = "gte" /\ (unixNano x >= unixNano y)%Z)
      \/ (op = "lte" /\ (unixNano x <= unixNano y)%Z)
  | _, _ => False
  end.

(** How the executor reports what a strategy returned (section 4.5): a run
    without error as completed with the strategy's exit code; an error as
    failed, with the error's message and a nonzero exit code, the strategy's
    or 1 when the strategy gave 0. *)
Definition reportedAs (j : job.Job) (ran : string * Z * option job.error)
    (r : job.JobResult) : Prop :=
  let '(output, exitCode, err) := ran in
  job.res_JobID r = job.ID j
  /\ job.res_Output r = output
  /\ match err with
     | None =>
         job.res_Status r = job.JobStatusCompleted
         /\ job.res_ExitCode r = exitCode /\ job.res_Error r = ""
     | Some e =>
         job.res_Status r = job.JobStatusFailed
         /\ job.res_ExitCode r <> 0%Z
         /\ job.res_ExitCode r = (if (exitCode =? 0)%Z then 1%Z else exitCode)
         /\ job.res_Error r = job.Error e
     end.

End design.

(** * Concrete jobs and states used in the examples below *)
Module examples.

Definition epoch : Time := mkTime 0 0.

(** A queued command job with the given ID and priority 5, whose tags are in
    the array at address 3 and whose environment is the map at address 2. *)
Definition queuedJob (id : string) : job.Job :=
  {| job.ID := id; job.Type_ := job.JobTypeCommand; job.Command := "echo hi";
     job.Script := ""; job.URL := ""; job.Method := ""; job.FilePath := "";
     job.Timeout := (5 * Minute)%Z; job.Retries := 0%Z; job.Priority := 5%Z;
     job.Tags := mkSlice (Some 3%positive) 1;
     job.Environment := Some 2%positive;
     job.WorkerID := ""; job.Status := job.JobStatusQueued;
     job.CreatedAt := epoch; job.StartedAt := None; job.CompletedAt := None;
     job.Output := ""; job.Error_ := ""; job.ExitCode := 0%Z |}.

(** The same job while it runs on worker "w1", and once it has completed. *)
Definition runningJob (id : string) : job.Job :=
  job.set_StartedAt (Some epoch)
    (job.set_Status job.JobStatusRunning (job.set_WorkerID "w1" (queuedJob id))).

Definition completedJob (id : string) : job.Job :=
  job.set_CompletedAt (Some epoch)
    (job.set_Status job.JobStatusCompleted (runningJob id)).

(** The job "a" before it is queued, and the calls of a run to completion:
    queued at 10, running at 20, completed at 50. *)
Definition pendingJob (id : string) : job.Job :=
  job.set_Status job.JobStatusPending (queuedJob id).

Definition runToCompletion : list (Time * job.JobStatus) :=
  [ (mkTime 10 0, job.JobStatusQueued); (mkTime 20 0, job.JobStatusRunning);
    (mkTime 50 0, job.JobStatusCompleted) ].

(** A file job on "data.txt" whose environment is the map at address 2, and
    heaps in which that map sets FILE_OPERATION to "delete", to the empty
    string, and not at all. *)
Definition fileJob : job.Job :=
  {| job.ID := "f"; job.Type_ := job.JobTypeFile; job.Command := "";
     job.Script := ""; job.URL := ""; job.Method := ""; job.FilePath := "data.txt";
     job.Timeout := (5 * Minute)%Z; job.Retries := 0%Z; job.Priority := 1%Z;
     job.Tags := mkSlice None 0; job.Environment := Some 2%positive;
     job.WorkerID := ""; job.Status := job.JobStatusRunning;
     job.CreatedAt := epoch; job.StartedAt := Some epoch; job.CompletedAt := None;
     job.Output := ""; job.Error_ := ""; job.ExitCode := 0%Z |}.

Definition heapWithOperation (op : option string) : heap.Heap :=
  heap.mkHeap ∅ ∅
    {[ 2%positive := match op with
                     | Some o => {[ "FILE_OPERATION" := o ]}
                     | None => ∅
                     end ]}.

(** A file system without the file, and a process that prints to both
    streams and exits with code 3. *)
Definition noSuchFile (path : string) : string + job.error :=
  inr (job.libraryError "no such file or directory").

Definition noSuchPath (path : string) : string * Z * option job.error :=
  ("", 1%Z, Some (job.errorString "no such file or directory")).

Definition exitsWith3 (name : string) (args : list string) (dir : string)
    (env : list string) : string * string * option worker.runError :=
  ("out", "err", Some (worker.ExitError 3 "exit status 3")).

(** A strategy that fails with exit code 0, and an http request with a URL
    and no method. *)
Definition failingStrategy (j : job.Job) : string * Z * option job.error :=
  ("", 0%Z, Some (job.libraryError "connection refused")).

Definition httpRequest : job.JobRequest :=
  {| job.req_Type := job.JobTypeHTTP; job.req_Command := ""; job.req_Script := "";
     job.req_URL := "http://example.com/health"; job.req_Method := "";
     job.req_FilePath := ""; job.req_Timeout := ""; job.req_Retries := 0%Z;
     job.req_Priority := 0%Z; job.req_Tags := mkSlice None 0;
     job.req_Environment := None |}.

(** A command request, and two readings of the clock within the second
    1700000000. *)
Definition commandRequest : job.JobRequest :=
  {| job.req_Type := job.JobTypeCommand; job.req_Command := "echo hi";
     job.req_Script := ""; job.req_URL := ""; job.req_Method := "";
     job.req_FilePath := ""; job.req_Timeout := ""; job.req_Retries := 0%Z;
     job.req_Priority := 0%Z; job.req_Tags := mkSlice None 0;
     job.req_Environment := None |}.

Definition earlyInSecond : Time := mkTime 1700000000100000000 0.
Definition lateInSecond : Time := mkTime 1700000000900000000 0.

(** The words WORKER and worker with an O umlaut for the O, in UTF-8: the
    capital letter is the bytes 195 150, the small letter the bytes
    195 182. *)
Definition upperUmlautWord : string :=
  String "W" (String "195"%char (String "150"%char "RKER")).

Definition lowerUmlautWord : string :=
  String "w" (String "195"%char (String "182"%char "rker")).

(** An executor whose strategies all print "hi" and succeed. *)
Definition hiExecutor (j : job.Job) : option job.JobResult * option job.error :=
  let hi := fun _ : job.Job => ("hi", 0%Z, @None job.error) in
  worker.Execute hi hi hi hi epoch epoch j.

Definition twoSlots : worker.WorkerConfig :=
  worker.mkWorkerConfig "w1" "http://scheduler" 2%Z 1000000000%Z 1000000000%Z
    "/tmp/work" "info".

(** A healthy, running worker of capacity 2 with nothing in flight, and the
    same worker while the job "a" at address 1 is in flight. *)
Definition idleWorker : worker.Worker :=
  worker.mkWorker "w1" twoSlots hiExecutor ∅ true true epoch.

Definition busyWorker : worker.Worker :=
  worker.mkWorker "w1" twoSlots hiExecutor {[ "a" := 1%positive ]} true true epoch.

(** Heaps where the job "a" at address 1 is running, and has completed. *)
Definition runningHeap : heap.Heap :=
  heap.mkHeap {[ 1%positive := runningJob "a" ]}
    {[ 3%positive := ["nightly"] ]}
    {[ 2%positive := {[ "MODE" := "fast" ]} ]}.

Definition completedHeap : heap.Heap :=
  heap.mkHeap {[ 1%positive := completedJob "a" ]}
    {[ 3%positive := ["nightly"] ]}
    {[ 2%positive := {[ "MODE" := "fast" ]} ]}.

(** A heap where the caller holds, at address 1, the queued job "a", with
    one tag and one environment entry. *)
Definition callerHeap : heap.Heap :=
  heap.mkHeap {[ 1%positive := queuedJob "a" ]}
    {[ 3%positive := ["nightly"] ]}
    {[ 2%positive := {[ "MODE" := "fast" ]} ]}.

(** The same heap with a second job "b" at address 5, which the store holds. *)
Definition storeHeap : heap.Heap :=
  heap.mkHeap {[ 1%positive := queuedJob "a"; 5%positive := queuedJob "b" ]}
    {[ 3%positive := ["nightly"] ]}
    {[ 2%positive := {[ "MODE" := "fast" ]} ]}.

Definition storeWithB : scheduler.MemoryStore :=
  scheduler.mkMemoryStore {[ "b" := 5%positive ]}.

(** A store that holds the queued job "b" and the job "r", which waits for
    a retry. *)
Definition retryingJob (id : string) : job.Job :=
  job.set_Status job.JobStatusRetrying (runningJob id).

Definition retryHeap : heap.Heap :=
  heap.mkHeap {[ 5%positive := queuedJob "b"; 6%positive := retryingJob "r" ]}
    {[ 3%positive := ["nightly"] ]}
    {[ 2%positive := {[ "MODE" := "fast" ]} ]}.

Definition storeWithRetry : scheduler.MemoryStore :=
  scheduler.mkMemoryStore {[ "b" := 5%positive; "r" := 6%positive ]}.

(** An environment that sets SCHEDULER_PORT to "0" and nothing else, with
    the reading of that text as an integer; a query that asks for the
    queued jobs with limit "0", and a manager that finds three jobs. *)
Definition portZero (key : string) : string :=
  if String.eqb key "SCHEDULER_PORT" then "0" else "".

Definition atoiZero (s : string) : option Z :=
  if String.eqb s "0" then Some 0%Z else None.

Definition queuedLimitZero (key : string) : string :=
  if String.eqb key "status" then "queued"
  else if String.eqb key "limit" then "0" else "".

Definition threeJobs (filters : list job.Filter) : list loc * option job.error :=
  ([7%positive; 8%positive; 9%positive], None).

(** Client programs.  Each one creates the job at address 1 in an empty
    store and ends with [Get] of its ID, returning what a reader of the
    returned copy sees. *)

(** [Create], then [Get]. *)
Definition createGet : option (job.Job * list string * gmap string string) :=
  '(h1, s1, _) ← scheduler.Create callerHeap scheduler.NewMemoryStore 1%positive;
  '(h2, got, _) ← scheduler.Get h1 s1 "a";
  q ← got;
  heap.observe h2 q.

(** [Create], then the caller's [j.Environment["MODE"] = "slow"], then [Get]. *)
Definition createWriteEnvironmentGet
  : option (job.Job * list string * gmap string string) :=
  '(h1, s1, _) ← scheduler.Create callerHeap scheduler.NewMemoryStore 1%positive;
  h2 ← heap.assignEnvironment h1 1%positive "MODE" "slow";
  '(h3, got, _) ← scheduler.Get h2 s1 "a";
  q ← got;
  heap.observe h3 q.

(** [Create], then the caller's [j.Tags[0] = "weekly"], then [Get]. *)
Definition createWriteTagGet : option (job.Job * list string * gmap string string) :=
  '(h1, s1, _) ← scheduler.Create callerHeap scheduler.NewMemoryStore 1%positive;
  h2 ← heap.assignTag h1 1%positive 0 "weekly";
  '(h3, got, _) ← scheduler.Get h2 s1 "a";
  q ← got;
  heap.observe h3 q.

(** [Create], [Get], then [got.Environment["MODE"] = "slow"] on the copy
    received from [Get], then [Get] again. *)
Definition getWriteEnvironmentGet
  : option (job.Job * list string * gmap string string) :=
  '(h1, s1, _) ← scheduler.Create callerHeap scheduler.NewMemoryStore 1%positive;
  '(h2, got, _) ← scheduler.Get h1 s1 "a";
  q ← got;
  h3 ← heap.assignEnvironment h2 q "MODE" "slow";
  '(h4, got', _) ← scheduler.Get h3 s1 "a";
  q' ← got';
  heap.observe h4 q'.

(** [Create], then the caller's [j.WorkerID = "w1"], then [Get]. *)
Definition createWriteWorkerIDGet
  : option (job.Job * list string * gmap string string) :=
  '(h1, s1, _) ← scheduler.Create callerHeap scheduler.NewMemoryStore 1%positive;
  h2 ← heap.assignWorkerID h1 1%positive "w1";
  '(h3, got, _) ← scheduler.Get h2 s1 "a";
  q ← got;
  heap.observe h3 q.

End examples.

(** * Properties *)

(** ** The status machine *)

Ltac case_eqb :=
  match goal with
  | |- context [String.eqb ?a ?b] => destruct (String.eqb_spec a b)
  | |- context [Z.eqb ?a ?b] => destruct (Z.eqb_spec a b)
  end.

Ltac unfold_statuses :=
  unfold job.JobStatusPending, job.JobStatusQueued, job.JobStatusRunning,
    job.JobStatusCompleted, job.JobStatusFailed, job.JobStatusCancelled,
    job.JobStatusRetrying in *.

Lemma CanTransitionTo_table (j : job.Job) (new : job.JobStatus) :
  job.CanTransitionTo j new = true <-> (job.Status j, new) ∈ design.transitionTable.
Proof.
  unfold job.CanTransitionTo, design.transitionTable.
  rewrite !elem_of_cons, elem_of_nil.
  unfold_statuses.
  repeat case_eqb; simpl; subst;
    split; intros H; try discriminate; try tauto;
    try (repeat destruct H as [H|H]; try contradiction;
         inversion H; subst; congruence);
    try (rewrite e; tauto).
Qed.

Lemma terminal_no_edge (a b : job.JobStatus) :
  design.terminalStatus a -> (a, b) ∉ design.transitionTable.
Proof.
  unfold design.terminalStatus, design.transitionTable. unfold_statuses.
  rewrite !elem_of_cons, elem_of_nil.
  intros [-> | [-> | ->]] H;
    repeat destruct H as [H|H]; try contradiction; inversion H.
Qed.

(** C1: [UpdateStatus] returns a validation error exactly when the edge
    (current status, new status) is not in the transition table, in
    particular from every terminal status; a rejected call leaves the whole
    job unchanged; an accepted call sets the status, writes [StartedAt]
    exactly when the new status is running and [StartedAt] was unset, and
    writes [CompletedAt] exactly when the new status is terminal and
    [CompletedAt] was unset. *)
Theorem UpdateStatus_follows_table (now : Time) (j : job.Job) (new : job.JobStatus) :
  let '(j', err) := job.UpdateStatus now j new in
  ((exists m, err = Some (job.ValidationError m))
     <-> (job.Status j, new) ∉ design.transitionTable)
  /\ (err = None <-> (job.Status j, new) ∈ design.transitionTable)
  /\ (design.terminalStatus (job.Status j) -> err <> None)
  /\ (err <> None -> j' = j)
  /\ (err = None ->
      job.Status j' = new
      /\ (job.StartedAt j' <> job.StartedAt j ->
          new = job.JobStatusRunning /\ job.StartedAt j = None)
      /\ (new = job.JobStatusRunning -> job.StartedAt j = None ->
          job.StartedAt j' = Some now)
      /\ (job.CompletedAt j' <> job.CompletedAt j ->
          design.terminalStatus new /\ job.CompletedAt j = None)
      /\ (design.terminalStatus new -> job.CompletedAt j = None ->
          job.CompletedAt j' = Some now)).
Proof.
  unfold job.UpdateStatus.
  pose proof (CanTransitionTo_table j new) as Htab.
  pose proof (terminal_no_edge (job.Status j) new) as Hterm.
  destruct (job.CanTransitionTo j new); simpl.
  - assert (Hin : (job.Status j, new) ∈ design.transitionTable)
      by (apply Htab; reflexivity).
    split; [split; [intros [m Hm]; discriminate | tauto] |].
    split; [tauto |].
    split; [tauto |].
    split; [congruence |].
    intros _. clear Htab Hterm Hin.
    unfold design.terminalStatus. unfold_statuses.
    destruct j as [? ? ? ? ? ? ? ? ? ? ? ? ? ? ? started completed ? ? ?].
    unfold job.set_Status; simpl.
    repeat case_eqb; simpl; destruct started, completed; simpl;
      intuition congruence.
  - assert (Hnot : (job.Status j, new) ∉ design.transitionTable).
    { intros Hin. apply Htab in Hin. discriminate. }
    split; [split; eauto |].
    split; [split; [discriminate | tauto] |].
    split; [discriminate |].
    split; [reflexivity | congruence].
Qed.

(** The queued job "a" enters running: the call is accepted and sets
    [StartedAt]; a second attempt is rejected and changes nothing. *)
Lemma UpdateStatus_follows_table_witness :
  (job.UpdateStatus examples.epoch (examples.queuedJob "a") job.JobStatusRunning).2
  = None
  /\ job.StartedAt
       (job.UpdateStatus examples.epoch (examples.queuedJob "a")
          job.JobStatusRunning).1 = Some examples.epoch
  /\ (job.UpdateStatus (mkTime 7 0) (examples.runningJob "a")
        job.JobStatusRunning).1 = examples.runningJob "a".
Proof.
  pose proof (UpdateStatus_follows_table examples.epoch (examples.queuedJob "a")
                job.JobStatusRunning) as H1.
  pose proof (UpdateStatus_follows_table (mkTime 7 0) (examples.runningJob "a")
                job.JobStatusRunning) as H2.
  destruct (job.UpdateStatus examples.epoch (examples.queuedJob "a")
              job.JobStatusRunning) as [j1 e1].
  destruct (job.UpdateStatus (mkTime 7 0) (examples.runningJob "a")
              job.JobStatusRunning) as [j2 e2].
  destruct H1 as (_ & Hacc & _ & _ & Hok).
  destruct H2 as (Hrej & _ & _ & Hsame & _).
  assert (He1 : e1 = None).
  { apply Hacc. apply CanTransitionTo_table. reflexivity. }
  destruct (Hok He1) as (_ & _ & Hstart & _).
  split; [exact He1 |]. split; [apply Hstart; reflexivity |].
  apply Hsame. destruct Hrej as [_ Hrej].
  destruct Hrej as [m Hm]; [| congruence].
  intros Hin. apply CanTransitionTo_table in Hin. discriminate.
Defined.

(** ** Request validation and conversion *)

Ltac unfold_types :=
  unfold design.knownType, design.missingRequiredField, job.JobTypeCommand,
    job.JobTypeScript, job.JobTypeHTTP, job.JobTypeFile in *.

(** C8: [Validate] fails, with a validation error, exactly when the type is
    empty or not one of the four known types, or the field the type requires
    is empty; a request of type http with a URL and an empty method succeeds
    and has its method set to GET; every other call leaves the request as it
    was. *)
Theorem Validate_spec (jr : job.JobRequest) :
  let '(jr', err) := job.Validate jr in
  (err <> None <->
     job.req_Type jr = "" \/ ~ design.knownType (job.req_Type jr)
     \/ design.missingRequiredField jr)
  /\ (err = None \/ exists m, err = Some (job.ValidationError m))
  /\ (job.req_Type jr = job.JobTypeHTTP -> job.req_URL jr <> "" ->
      job.req_Method jr = "" ->
      err = None /\ jr' = job.set_req_Method "GET" jr
      /\ job.req_Method jr' = "GET")
  /\ (~ (job.req_Type jr = job.JobTypeHTTP /\ job.req_URL jr <> ""
         /\ job.req_Method jr = "") -> jr' = jr).
Proof.
  unfold job.Validate, job.NewValidationError. unfold_types.
  destruct jr as [ty cmd scr url meth fp tmo rt pr tg env]; simpl.
  repeat case_eqb; subst; simpl;
    (split; [split; [intros H; try congruence; intuition congruence
                    | intros H; try discriminate; intuition congruence]
            | split; [eauto | split; intuition congruence]]).
Qed.

(** An http request with a URL and no method is valid and gets GET. *)
Lemma Validate_spec_witness :
  (job.Validate examples.httpRequest).2 = None
  /\ job.req_Method (job.Validate examples.httpRequest).1 = "GET".
Proof.
  pose proof (Validate_spec examples.httpRequest) as H.
  destruct (job.Validate examples.httpRequest) as [jr' err].
  destruct H as (_ & _ & Hhttp & _).
  destruct Hhttp as (Herr & _ & Hm);
    [reflexivity | discriminate | reflexivity |].
  split; assumption.
Defined.

(** ** Job identifiers: the ID determines the second and the bytes *)

Lemma string_length_app (a b : string) :
  String.length (a ++ b) = (String.length a + String.length b)%nat.
Proof. induction a as [| c a IH]; simpl; [reflexivity | now rewrite IH]. Qed.

Lemma string_app_inj_length (a a' b b' : string) :
  String.length a = String.length a' -> a ++ b = a' ++ b' -> a = a' /\ b = b'.
Proof.
  revert a'. induction a as [| c a IH]; intros [| c' a'] Hlen H;
    simpl in *; try discriminate.
  - split; [reflexivity | exact H].
  - injection H as -> H. injection Hlen as Hlen.
    destruct (IH a' Hlen H) as [-> ->]. split; reflexivity.
Qed.

Lemma formatInt_parses (z : Z) :
  NilZero.int_of_string (job.formatInt z) = Some (Z.to_int z).
Proof.
  unfold job.formatInt. apply NilZero.isi; intros H;
    pose proof (f_equal Z.of_int H) as H'; rewrite DecimalZ.of_to in H';
    simpl in H'; subst z; discriminate H.
Qed.

Lemma formatInt_inj (z z' : Z) : job.formatInt z = job.formatInt z' -> z = z'.
Proof.
  intros H. apply (f_equal NilZero.int_of_string) in H.
  rewrite !formatInt_parses in H. injection H as H.
  rewrite <- (DecimalZ.of_to z), <- (DecimalZ.of_to z'), H. reflexivity.
Qed.

Lemma formatInt_nonempty (z : Z) : (1 <= String.length (job.formatInt z))%nat.
Proof.
  pose proof (formatInt_parses z) as H.
  destruct (job.formatInt z); [discriminate | simpl; lia].
Qed.

Lemma hexDigit_inj (n m : N) :
  (n < 16)%N -> (m < 16)%N -> job.hexDigit n = job.hexDigit m -> n = m.
Proof.
  intros Hn Hm. unfold job.hexDigit.
  assert (Hn' : (N.to_nat n < 16)%nat) by lia.
  assert (Hm' : (N.to_nat m < 16)%nat) by lia.
  intros H. apply N2Nat.inj.
  revert Hn' Hm' H. generalize (N.to_nat n) (N.to_nat m). clear.
  intros i j Hi Hj.
  do 16 (destruct i as [| i]; [do 16 (destruct j as [| j];
         [simpl; intros; (reflexivity || discriminate) |]); lia |]).
  lia.
Qed.

Lemma encodeByte_inj (b b' : byte) :
  job.hexDigit (Byte.to_N b / 16) = job.hexDigit (Byte.to_N b' / 16) ->
  job.hexDigit (Byte.to_N b mod 16) = job.hexDigit (Byte.to_N b' mod 16) ->
  b = b'.
Proof.
  intros Hhi Hlo.
  pose proof (Byte.to_N_bounded b). pose proof (Byte.to_N_bounded b').
  apply hexDigit_inj in Hhi;
    [| apply N.Div0.div_lt_upper_bound; lia | apply N.Div0.div_lt_upper_bound; lia].
  apply hexDigit_inj in Hlo; [| apply N.mod_lt; lia | apply N.mod_lt; lia].
  assert (Heq : Byte.to_N b = Byte.to_N b').
  { rewrite (N.div_mod (Byte.to_N b) 16), (N.div_mod (Byte.to_N b') 16) by lia.
    rewrite Hhi, Hlo. reflexivity. }
  pose proof (Byte.of_to_N b) as Hb. rewrite Heq, Byte.of_to_N in Hb.
  congruence.
Qed.

Lemma GenerateJobID_inj (timestamp timestamp' : Z)
    (randomBytes randomBytes' : byte * byte * byte * byte) :
  job.GenerateJobID timestamp randomBytes = job.GenerateJobID timestamp' randomBytes' ->
  timestamp = timestamp' /\ randomBytes = randomBytes'.
Proof.
  destruct randomBytes as [[[b0 b1] b2] b3], randomBytes' as [[[c0 c1] c2] c3].
  unfold job.GenerateJobID. intros H.
  apply (string_app_inj_length "job-" "job-" _ _ eq_refl) in H as [_ H].
  assert (Hlen : String.length (job.formatInt timestamp)
                 = String.length (job.formatInt timestamp')).
  { apply (f_equal String.length) in H.
    rewrite !string_length_app in H. simpl in H. lia. }
  destruct (string_app_inj_length _ _ _ _ Hlen H) as [Hts Hrest].
  apply formatInt_inj in Hts.
  injection Hrest as H0 H0' H1 H1' H2 H2' H3 H3'.
  rewrite (encodeByte_inj b0 c0 H0 H0'), (encodeByte_inj b1 c1 H1 H1'),
    (encodeByte_inj b2 c2 H2 H2'), (encodeByte_inj b3 c3 H3 H3').
  split; [exact Hts | reflexivity].
Qed.

Lemma GenerateJobID_nonempty (timestamp : Z) (randomBytes : byte * byte * byte * byte) :
  job.GenerateJobID timestamp randomBytes <> "".
Proof.
  unfold job.GenerateJobID. destruct randomBytes as [[[b0 b1] b2] b3].
  simpl. discriminate.
Qed.

Section ToJob_properties.

Variable ParseDuration : string -> option Duration.

Lemma ToJob_ID (timestamp : Z) (randomBytes : byte * byte * byte * byte)
    (now : Time) (jr : job.JobRequest) (j : job.Job) :
  (job.ToJob ParseDuration timestamp randomBytes now jr).2 = inl j ->
  job.ID j = job.GenerateJobID timestamp randomBytes.
Proof.
  unfold job.ToJob.
  destruct (job.Validate jr) as [jr1 [e|]]; simpl; [discriminate |].
  destruct (negb _); simpl.
  - destruct (ParseDuration _); simpl; [| discriminate].
    destruct (_ =? 0)%Z; intros [= <-]; reflexivity.
  - destruct (_ =? 0)%Z; intros [= <-]; reflexivity.
Qed.

(** C4: [ToJob] returns the error of [Validate] when validation fails.
    Otherwise it returns a validation error when the timeout string is not
    empty and does not parse, and else a job in status pending whose ID is
    the generated one, whose payload fields are those of the request as
    [Validate] left it, whose timeout is the parsed duration, or five
    minutes for an empty string, and whose priority is that of the request
    with 0 replaced by 1.  The ID is not empty, and it is fresh in this
    sense: the job of any call of [ToJob] has the same ID exactly when that
    call read the same second and drew the same four random bytes. *)
Theorem ToJob_spec (timestamp : Z) (randomBytes : byte * byte * byte * byte)
    (now : Time) (jr : job.JobRequest) :
  let '(jr1, verr) := job.Validate jr in
  let '(jr2, res) := job.ToJob ParseDuration timestamp randomBytes now jr in
  jr2 = jr1
  /\ match verr with
     | Some e => res = inr e
     | None =>
         match design.requestedTimeout ParseDuration (job.req_Timeout jr) with
         | None =>
             job.req_Timeout jr <> ""
             /\ exists m, res = inr (job.ValidationError m)
         | Some d =>
             exists j, res = inl j
               /\ job.Status j = job.JobStatusPending
               /\ job.ID j = job.GenerateJobID timestamp randomBytes
               /\ job.ID j <> ""
               /\ (forall timestamp' randomBytes' now' jr' j',
                     (job.ToJob ParseDuration timestamp' randomBytes' now' jr').2
                     = inl j' ->
                     (job.ID j' = job.ID j <->
                      timestamp' = timestamp /\ randomBytes' = randomBytes))
               /\ job.Type_ j = job.req_Type jr
               /\ job.Command j = job.req_Command jr
               /\ job.Script j = job.req_Script jr
               /\ job.URL j = job.req_URL jr
               /\ job.Method j = job.req_Method jr1
               /\ job.FilePath j = job.req_FilePath jr
               /\ job.Retries j = job.req_Retries jr
               /\ job.Tags j = job.req_Tags jr
               /\ job.Environment j = job.req_Environment jr
               /\ job.CreatedAt j = now
               /\ job.Timeout j = d
               /\ job.Priority j =
                    (if (job.req_Priority jr =? 0)%Z then 1%Z
                     else job.req_Priority jr)
         end
     end.
Proof.
  pose proof (GenerateJobID_nonempty timestamp randomBytes) as Hid.
  assert (Hfresh : forall timestamp' randomBytes' now' jr' j',
            (job.ToJob ParseDuration timestamp' randomBytes' now' jr').2 = inl j' ->
            (job.ID j' = job.GenerateJobID timestamp randomBytes <->
             timestamp' = timestamp /\ randomBytes' = randomBytes)).
  { intros timestamp' randomBytes' now' jr' j' Hj'.
    rewrite (ToJob_ID _ _ _ _ _ Hj'). split.
    - apply GenerateJobID_inj.
    - intros [-> ->]. reflexivity. }
  assert (Hsame : forall jr1 verr, job.Validate jr = (jr1, verr) ->
            job.req_Type jr1 = job.req_Type jr
            /\ job.req_Command jr1 = job.req_Command jr
            /\ job.req_Script jr1 = job.req_Script jr
            /\ job.req_URL jr1 = job.req_URL jr
            /\ job.req_FilePath jr1 = job.req_FilePath jr
            /\ job.req_Timeout jr1 = job.req_Timeout jr
            /\ job.req_Retries jr1 = job.req_Retries jr
            /\ job.req_Priority jr1 = job.req_Priority jr
            /\ job.req_Tags jr1 = job.req_Tags jr
            /\ job.req_Environment jr1 = job.req_Environment jr).
  { intros jr1 verr. unfold job.Validate.
    repeat case_eqb; intros [= <- <-]; simpl; repeat split; reflexivity. }
  unfold job.ToJob, design.requestedTimeout.
  destruct (job.Validate jr) as [jr1 [e|]] eqn:Hv.
  - split; reflexivity.
  - destruct (Hsame _ _ eq_refl)
      as (Hty & Hcmd & Hscr & Hurl & Hfp & Htmo & Hrt & Hpr & Htg & Henv).
    rewrite Htmo.
    destruct (String.eqb_spec (job.req_Timeout jr) "") as [Hempty | Hne]; simpl.
    + rewrite <- Hpr.
      destruct (Z.eqb_spec (job.req_Priority jr1) 0) as [Hz | Hz];
        (split; [reflexivity |]); eexists; (split; [reflexivity |]); simpl;
        repeat (match goal with |- _ /\ _ => split end); auto; exact Hfresh.
    + destruct (ParseDuration (job.req_Timeout jr)) as [d|]; simpl.
      * rewrite <- Hpr.
        destruct (Z.eqb_spec (job.req_Priority jr1) 0) as [Hz | Hz];
          (split; [reflexivity |]); eexists; (split; [reflexivity |]); simpl;
          repeat (match goal with |- _ /\ _ => split end); auto; exact Hfresh.
      * split; [reflexivity |]. split; [assumption |]. eexists. reflexivity.
Qed.

End ToJob_properties.

(** C4 as stated fails: the ID is not fresh without condition.  Two calls of
    [ToJob] within one second that draw the same four random bytes, on
    different requests and at different readings of the clock, both succeed
    with different jobs that carry the same ID. *)
Lemma ToJob_same_ID_counterexample :
  exists j1 j2,
    (job.ToJob (fun _ => None) 1700000000 (xab, x12, xcd, x34)%byte
       examples.earlyInSecond examples.httpRequest).2 = inl j1
    /\ (job.ToJob (fun _ => None) 1700000000 (xab, x12, xcd, x34)%byte
          examples.lateInSecond examples.commandRequest).2 = inl j2
    /\ j1 <> j2
    /\ job.ID j1 = "job-1700000000-ab12cd34"
    /\ job.ID j2 = job.ID j1.
Proof.
  eexists _, _. split; [reflexivity |]. split; [reflexivity |].
  split; [discriminate |]. split; reflexivity.
Qed.

(** ** Filters: fields and ordering operators *)

Lemma fieldValue_known (j : job.Job) (field : string) :
  field ∉ design.knownFields -> scheduler.fieldValue j field = None.
Proof.
  unfold design.knownFields, scheduler.fieldValue.
  rewrite !elem_of_cons, elem_of_nil. intros H.
  repeat case_eqb; try reflexivity; exfalso; apply H; tauto.
Qed.

(** A filter on a field outside the fixed set matches no job. *)
Lemma unknown_field_never_matches (j : job.Job) (filter : job.Filter) :
  job.Field filter ∉ design.knownFields -> scheduler.matchesFilter j filter = false.
Proof.
  intros H. unfold scheduler.matchesFilter.
  rewrite (fieldValue_known j _ H). reflexivity.
Qed.

(** The strict operators gt and lt match only comparably-typed operands in
    the stated order. *)
Lemma strict_order_filters_sound (j : job.Job) (field op : string) (v : value) :
  op = "gt" \/ op = "lt" ->
  scheduler.matchesFilter j (job.mkFilter field op v) = true ->
  exists fv, scheduler.fieldValue j field = Some fv
    /\ design.comparablyTyped fv v /\ design.ordered op fv v.
Proof.
  unfold scheduler.matchesFilter; simpl.
  destruct (scheduler.fieldValue j field) as [fv|]; [| intros _ [=]].
  intros [-> | ->]; simpl; intros H; exists fv; (split; [reflexivity |]);
    destruct fv, v; simpl in *; try discriminate;
    unfold Before, After in *;
    repeat match goal with
    | H : context [if ?c then _ else _] |- _ => destruct c eqn:?; simpl in H
    end; try discriminate; split; try exact I;
    rewrite ?Z.ltb_lt in *; intuition (try lia; try congruence).
Qed.

(** C3 (the code departs from it): a filter with operator gte or lte matches
    when the operands are not comparably typed, here an int field against a
    string and an unset timestamp against a timestamp, because
    [compareValues] answers 0 both for equal and for incomparable operands;
    gt and lt on the same operands do not match. *)
Theorem gte_lte_match_incomparable_operands :
  let j := examples.queuedJob "job-5" in
  scheduler.matchesFilter j (job.mkFilter "priority" "gte" (VString "high")) = true
  /\ scheduler.matchesFilter j (job.mkFilter "priority" "lte" (VString "high")) = true
  /\ scheduler.matchesFilter j (job.mkFilter "started_at" "gte" (VTime examples.epoch)) = true
  /\ scheduler.matchesFilter j (job.mkFilter "priority" "gt" (VString "high")) = false
  /\ scheduler.matchesFilter j (job.mkFilter "priority" "lt" (VString "high")) = false
  /\ scheduler.fieldValue j "priority" = Some (VInt 5)
  /\ ~ design.comparablyTyped (VInt 5) (VString "high")
  /\ scheduler.fieldValue j "started_at" = Some VNil
  /\ ~ design.comparablyTyped VNil (VTime examples.epoch).
Proof.
  cbv. repeat split; auto.
Qed.

(** ** Filters: the contains operator *)

Lemma toLowerCase_lowerASCII (c : ascii) :
  scheduler.toLowerCase c = design.lowerASCII c.
Proof. destruct c as [[] [] [] [] [] [] [] []]; vm_compute; reflexivity. Qed.

Lemma get_None_iff (s : string) (k : nat) :
  String.get k s = None <-> (String.length s <= k)%nat.
Proof.
  revert k. induction s as [| c s IH]; intros k; simpl.
  - split; [lia | reflexivity].
  - destruct k as [| k]; [split; [discriminate | lia] |].
    rewrite IH. lia.
Qed.

Lemma get_Some_lt (s : string) (k : nat) :
  (k < String.length s)%nat -> exists c, String.get k s = Some c.
Proof.
  intros Hk. destruct (String.get k s) as [c|] eqn:Hg; [eauto |].
  apply get_None_iff in Hg. lia.
Qed.

Lemma byteAt_get (s : string) (k : nat) (c : ascii) :
  String.get k s = Some c -> scheduler.byteAt s k = c.
Proof. unfold scheduler.byteAt. intros ->. reflexivity. Qed.

Lemma get_foldCase (s : string) (k : nat) :
  String.get k (design.foldCase s) = option_map design.lowerASCII (String.get k s).
Proof.
  revert k. induction s as [| c s IH]; intros k; simpl; [reflexivity |].
  destruct k; [reflexivity | apply IH].
Qed.

Lemma substring_full (s : string) : String.substring 0 (String.length s) s = s.
Proof. induction s as [| c s IH]; simpl; [reflexivity | now rewrite IH]. Qed.

Lemma matchLoop_spec (str substr : string) (i j n : nat) :
  scheduler.matchLoop str substr i j n = true <->
  forall k, (k < n)%nat ->
    scheduler.toLowerCase (scheduler.byteAt str (i + (j + k)))
    = scheduler.toLowerCase (scheduler.byteAt substr (j + k)).
Proof.
  revert j. induction n as [| n IH]; intros j; simpl.
  - split; [intros _ k Hk; lia | reflexivity].
  - destruct (Ascii.eqb_spec (scheduler.toLowerCase (scheduler.byteAt str (i + j)))
                (scheduler.toLowerCase (scheduler.byteAt substr j))) as [Heq | Hne];
      simpl.
    + rewrite IH. split.
      * intros H k Hk. destruct k as [| k].
        -- rewrite !Nat.add_0_r. exact Heq.
        -- specialize (H k ltac:(lia)).
           replace (j + S k)%nat with (S j + k)%nat by lia. exact H.
      * intros H k Hk. specialize (H (S k) ltac:(lia)).
        replace (S j + k)%nat with (j + S k)%nat by lia. exact H.
    + split; [discriminate |]. intros H. exfalso. apply Hne.
      specialize (H 0%nat ltac:(lia)). rewrite !Nat.add_0_r in H. exact H.
Qed.

Lemma searchLoop_spec (str substr : string) (i n : nat) :
  scheduler.searchLoop str substr i n = true <->
  exists k, (k < n)%nat
    /\ scheduler.matchLoop str substr (i + k) 0 (String.length substr) = true.
Proof.
  revert i. induction n as [| n IH]; intros i; simpl.
  - split; [discriminate | intros (k & Hk & _); lia].
  - destruct (scheduler.matchLoop str substr i 0 (String.length substr)) eqn:Hm.
    + split; [| reflexivity]. intros _. exists 0%nat.
      rewrite Nat.add_0_r. split; [lia | exact Hm].
    + rewrite IH. split.
      * intros (k & Hk & H). exists (S k). split; [lia |].
        replace (i + S k)%nat with (S i + k)%nat by lia. exact H.
      * intros (k & Hk & H). destruct k as [| k].
        -- rewrite Nat.add_0_r in H. congruence.
        -- exists k. split; [lia |].
           replace (S i + k)%nat with (i + S k)%nat by lia. exact H.
Qed.

Lemma matchLoop_substring (str substr : string) (i : nat) :
  (i + String.length substr <= String.length str)%nat ->
  scheduler.matchLoop str substr i 0 (String.length substr) = true <->
  design.foldCase (String.substring i (String.length substr) str)
  = design.foldCase substr.
Proof.
  intros Hlen. rewrite matchLoop_spec. split.
  - intros H. apply String.get_correct. intros k.
    rewrite !get_foldCase.
    destruct (Nat.lt_ge_cases k (String.length substr)) as [Hk | Hk].
    + rewrite String.substring_correct1 by exact Hk.
      destruct (get_Some_lt str (k + i) ltac:(lia)) as [c Hc].
      destruct (get_Some_lt substr k Hk) as [c' Hc'].
      specialize (H k Hk). simpl in H.
      rewrite (byteAt_get _ _ _ Hc') in H.
      replace (i + k)%nat with (k + i)%nat in H by lia.
      rewrite (byteAt_get _ _ _ Hc) in H.
      rewrite !toLowerCase_lowerASCII in H.
      rewrite Hc, Hc'. simpl. congruence.
    + rewrite String.substring_correct2 by exact Hk.
      apply get_None_iff in Hk. rewrite Hk. reflexivity.
  - intros H k Hk. simpl.
    apply (f_equal (String.get k)) in H. rewrite !get_foldCase in H.
    rewrite String.substring_correct1 in H by exact Hk.
    destruct (get_Some_lt str (k + i) ltac:(lia)) as [c Hc].
    destruct (get_Some_lt substr k Hk) as [c' Hc'].
    rewrite Hc, Hc' in H. simpl in H.
    rewrite (byteAt_get _ _ _ Hc').
    replace (i + k)%nat with (k + i)%nat by lia.
    rewrite (byteAt_get _ _ _ Hc).
    rewrite !toLowerCase_lowerASCII. congruence.
Qed.

Lemma matchLoopChecked_in_bounds (str substr : string) (i j n : nat) :
  (i + j + n <= String.length str)%nat -> (j + n <= String.length substr)%nat ->
  scheduler.matchLoopChecked str substr i j n
  = Some (scheduler.matchLoop str substr i j n).
Proof.
  revert j. induction n as [| n IH]; intros j Hs Hb; simpl; [reflexivity |].
  destruct (get_Some_lt str (i + j) ltac:(lia)) as [a Ha].
  destruct (get_Some_lt substr j ltac:(lia)) as [b Hb'].
  rewrite Ha, Hb', (byteAt_get _ _ _ Ha), (byteAt_get _ _ _ Hb').
  destruct (negb _); [reflexivity |]. apply IH; lia.
Qed.

Lemma searchLoopChecked_in_bounds (str substr : string) (i n : nat) :
  (n = 0 \/ i + n + String.length substr <= S (String.length str))%nat ->
  scheduler.searchLoopChecked str substr i n
  = Some (scheduler.searchLoop str substr i n).
Proof.
  revert i. induction n as [| n IH]; intros i Hb; simpl; [reflexivity |].
  rewrite matchLoopChecked_in_bounds by lia.
  destruct (scheduler.matchLoop str substr i 0 (String.length substr));
    [reflexivity |]. apply IH. lia.
Qed.

(** X17: [findSubstring] never indexes a string out of range: with the
    bounds check of every [str[i+j]] and [substr[j]] written out, the loops
    never fail and return what [findSubstring] returns, for all arguments
    (also when [substr] is longer than [str], or empty). *)
Lemma findSubstring_in_bounds (str substr : string) :
  scheduler.findSubstringChecked str substr
  = Some (scheduler.findSubstring str substr).
Proof.
  unfold scheduler.findSubstringChecked, scheduler.findSubstring.
  cbv zeta. apply searchLoopChecked_in_bounds. lia.
Qed.

Lemma findSubstring_spec (str substr : string) :
  scheduler.findSubstring str substr = true <-> design.occursIgnoringCase substr str.
Proof.
  unfold scheduler.findSubstring, design.occursIgnoringCase.
  rewrite searchLoop_spec. simpl. split.
  - intros (k & Hk & H).
    assert (Hle : (k + String.length substr <= String.length str)%nat) by lia.
    exists k. split; [exact Hle |]. apply matchLoop_substring; assumption.
  - intros (i & Hle & H). exists i. split; [lia |].
    apply matchLoop_substring; assumption.
Qed.

Lemma contains_spec (str substr : string) :
  scheduler.contains str substr = true <->
  (substr = "" /\ str = "")
  \/ (substr <> "" /\ design.occursIgnoringCase substr str).
Proof.
  unfold scheduler.contains.
  rewrite andb_true_iff, orb_true_iff, andb_true_iff, findSubstring_spec.
  rewrite Nat.leb_le, Nat.ltb_lt, String.eqb_eq.
  split.
  - intros [Hlen [-> | [Hpos Hocc]]].
    + destruct substr as [| c s]; [left; split; reflexivity | right].
      split; [discriminate |]. exists 0%nat. split; [lia |].
      now rewrite substring_full.
    + right. split; [| exact Hocc]. intros ->. simpl in Hpos. lia.
  - intros [[-> ->] | [Hne Hocc]].
    + simpl. split; [lia | left; reflexivity].
    + pose proof Hocc as (i & Hle & _). split; [lia |]. right.
      split; [| exact Hocc]. destruct substr; [congruence | simpl; lia].
Qed.

(** C9, as the code has it: a contains filter matches exactly when the field
    value and the filter value are both strings and either the filter string
    is not empty and occurs in the field value as a substring once the ASCII
    letters A-Z of both are read as a-z (every other byte, those of letters
    outside ASCII included, is compared as it is), or both strings are
    empty; so it is false when either operand is not a string.  On field id,
    "job-17" matches the id "job-1700000000-ab12cd34" and not the id
    "job-5-ab12cd34". *)
Theorem contains_filter_spec :
  (forall (j : job.Job) (field : string) (v : value),
     scheduler.matchesFilter j (job.mkFilter field "contains" v) = true <->
     exists str substr,
       scheduler.fieldValue j field = Some (VString str) /\ v = VString substr
       /\ ((substr = "" /\ str = "")
           \/ (substr <> "" /\ design.occursIgnoringCase substr str)))
  /\ scheduler.matchesFilter (examples.queuedJob "job-1700000000-ab12cd34")
       (job.mkFilter "id" "contains" (VString "job-17")) = true
  /\ scheduler.matchesFilter (examples.queuedJob "job-5-ab12cd34")
       (job.mkFilter "id" "contains" (VString "job-17")) = false.
Proof.
  split; [| split; vm_compute; reflexivity].
  intros j field v. unfold scheduler.matchesFilter; simpl.
  destruct (scheduler.fieldValue j field) as [fv|].
  - destruct fv as [| n | str | t | vs | tag], v as [| n' | substr | t' | vs' | tag'];
      try (split; [discriminate | intros (? & ? & [=] & [=] & _)]).
    rewrite contains_spec. split.
    + intros H. exists str, substr. auto.
    + intros (str' & substr' & [= <-] & [= <-] & H). exact H.
  - split; [discriminate | intros (? & ? & [=] & _)].
Qed.

(** C9 as stated fails for an empty filter string: the empty string occurs in
    every string, yet the filter does not match a job with a non-empty id.
    And the case that is ignored is that of the ASCII letters only: WORKER
    contains worker, but with an O umlaut for the O the capital word does
    not contain the small one, whose umlaut is another byte sequence. *)
Lemma contains_empty_value_counterexample :
  ~ (scheduler.matchesFilter (examples.queuedJob "job-5")
       (job.mkFilter "id" "contains" (VString "")) = true
     <-> design.occursIgnoringCase "" (job.ID (examples.queuedJob "job-5")))
  /\ scheduler.matchesFilter (examples.queuedJob "WORKER")
       (job.mkFilter "id" "contains" (VString "worker")) = true
  /\ scheduler.matchesFilter (examples.queuedJob examples.upperUmlautWord)
       (job.mkFilter "id" "contains" (VString examples.lowerUmlautWord)) = false.
Proof.
  split; [| split; vm_compute; reflexivity].
  intros [_ H].
  assert (Hocc : design.occursIgnoringCase "" (job.ID (examples.queuedJob "job-5"))).
  { exists 0%nat. split; [simpl; lia | reflexivity]. }
  specialize (H Hocc). vm_compute in H. discriminate.
Qed.

(** ** The in-memory store *)

Lemma new_fresh (h : heap.Heap) (v : job.Job) :
  heap.structs h !! (heap.new h v).1 = None.
Proof.
  unfold heap.new; simpl. apply not_elem_of_dom. apply is_fresh.
Qed.

Lemma new_lookup (h : heap.Heap) (v : job.Job) :
  heap.structs (heap.new h v).2 !! (heap.new h v).1 = Some v.
Proof. unfold heap.new; simpl. apply lookup_insert_eq. Qed.

Lemma new_extends (h : heap.Heap) (v : job.Job) :
  heap.structs h ⊆ heap.structs (heap.new h v).2.
Proof.
  unfold heap.new; simpl. apply insert_subseteq.
  apply not_elem_of_dom. apply is_fresh.
Qed.

Lemma new_keeps (h : heap.Heap) (v : job.Job) (p : loc) (x : job.Job) :
  heap.structs h !! p = Some x -> heap.structs (heap.new h v).2 !! p = Some x.
Proof. intros H. eapply lookup_weaken; [exact H | apply new_extends]. Qed.

Lemma wellFormed_empty (h : heap.Heap) :
  scheduler.wellFormed h scheduler.NewMemoryStore.
Proof. intros id j H. simpl in H. rewrite lookup_empty in H. discriminate. Qed.

Lemma storedJob_extends (h h' : heap.Heap) (s : scheduler.MemoryStore) (id : string) :
  scheduler.wellFormed h s -> heap.structs h ⊆ heap.structs h' ->
  scheduler.storedJob h' s id = scheduler.storedJob h s id.
Proof.
  intros Hwf Hsub. unfold scheduler.storedJob.
  destruct (scheduler.jobs s !! id) as [p|] eqn:Hp; [| reflexivity].
  destruct (Hwf _ _ Hp) as [x Hx]. rewrite Hx.
  eapply lookup_weaken; eassumption.
Qed.

Lemma wellFormed_extends (h h' : heap.Heap) (s : scheduler.MemoryStore) :
  scheduler.wellFormed h s -> heap.structs h ⊆ heap.structs h' ->
  scheduler.wellFormed h' s.
Proof.
  intros Hwf Hsub id p Hp. destruct (Hwf _ _ Hp) as [x Hx].
  exists x. eapply lookup_weaken; eassumption.
Qed.

Lemma wellFormed_insert (h : heap.Heap) (s : scheduler.MemoryStore)
    (id : string) (q : loc) :
  scheduler.wellFormed h s -> is_Some (heap.structs h !! q) ->
  scheduler.wellFormed h (scheduler.mkMemoryStore (<[id := q]> (scheduler.jobs s))).
Proof.
  intros Hwf Hq id' p; simpl. rewrite lookup_insert.
  case_decide; [intros [= <-]; exact Hq | apply Hwf].
Qed.

(** Storing a fresh copy under [job.ID jv], the common end of [Create] and
    [Update]. *)
Lemma store_copy (h : heap.Heap) (s : scheduler.MemoryStore) (jv : job.Job) :
  scheduler.wellFormed h s ->
  let h' := (heap.new h jv).2 in
  let s' := scheduler.mkMemoryStore
              (<[job.ID jv := (heap.new h jv).1]> (scheduler.jobs s)) in
  scheduler.storedJob h' s' (job.ID jv) = Some jv
  /\ (forall id, id <> job.ID jv ->
        scheduler.storedJob h' s' id = scheduler.storedJob h s id)
  /\ scheduler.wellFormed h' s'.
Proof.
  intros Hwf h' s'. split; [| split].
  - unfold scheduler.storedJob; simpl. rewrite lookup_insert_eq. apply new_lookup.
  - intros id Hid.
    transitivity (scheduler.storedJob h' s id).
    + unfold scheduler.storedJob; simpl. now rewrite lookup_insert_ne by congruence.
    + apply storedJob_extends; [exact Hwf | apply new_extends].
  - apply wellFormed_insert.
    + eapply wellFormed_extends; [exact Hwf | apply new_extends].
    + exists jv. apply new_lookup.
Qed.

Lemma Create_spec (h : heap.Heap) (s : scheduler.MemoryStore) (j : loc) (jv : job.Job) :
  scheduler.wellFormed h s ->
  heap.structs h !! j = Some jv ->
  (scheduler.jobs s !! job.ID jv <> None ->
   scheduler.Create h s j
   = Some (h, s, Some (job.ValidationError ("job already exists: " ++ job.ID jv))))
  /\ (scheduler.jobs s !! job.ID jv = None ->
      exists h' s',
        scheduler.Create h s j = Some (h', s', None)
        /\ scheduler.storedJob h' s' (job.ID jv) = Some jv
        /\ (forall id, id <> job.ID jv ->
              scheduler.storedJob h' s' id = scheduler.storedJob h s id)
        /\ scheduler.wellFormed h' s').
Proof.
  intros Hwf Hj. unfold scheduler.Create. rewrite Hj. split.
  - destruct (scheduler.jobs s !! job.ID jv); [reflexivity | congruence].
  - intros Hnone. rewrite Hnone.
    pose proof (store_copy h s jv Hwf) as Hc.
    destruct (heap.new h jv) as [q h1]; simpl in Hc.
    eexists _, _. split; [reflexivity | exact Hc].
Qed.

Lemma Update_spec (h : heap.Heap) (s : scheduler.MemoryStore) (j : loc) (jv : job.Job) :
  scheduler.wellFormed h s ->
  heap.structs h !! j = Some jv ->
  (scheduler.jobs s !! job.ID jv = None ->
   scheduler.Update h s j = Some (h, s, Some (job.JobNotFoundError (job.ID jv))))
  /\ (scheduler.jobs s !! job.ID jv <> None ->
      exists h' s',
        scheduler.Update h s j = Some (h', s', None)
        /\ scheduler.storedJob h' s' (job.ID jv) = Some jv
        /\ (forall id, id <> job.ID jv ->
              scheduler.storedJob h' s' id = scheduler.storedJob h s id)
        /\ scheduler.wellFormed h' s').
Proof.
  intros Hwf Hj. unfold scheduler.Update. rewrite Hj. split.
  - intros ->. reflexivity.
  - intros Hsome.
    destruct (scheduler.jobs s !! job.ID jv) as [p|]; [| congruence].
    pose proof (store_copy h s jv Hwf) as Hc.
    destruct (heap.new h jv) as [q h1]; simpl in Hc.
    eexists _, _. split; [reflexivity | exact Hc].
Qed.

Lemma Get_spec (h : heap.Heap) (s : scheduler.MemoryStore) (jobID : string) :
  scheduler.wellFormed h s ->
  (scheduler.jobs s !! jobID = None ->
   scheduler.Get h s jobID = Some (h, None, Some (job.JobNotFoundError jobID)))
  /\ (scheduler.jobs s !! jobID <> None ->
      exists h' q jv,
        scheduler.Get h s jobID = Some (h', Some q, None)
        /\ scheduler.storedJob h s jobID = Some jv
        /\ heap.structs h' !! q = Some jv
        /\ heap.structs h !! q = None
        /\ heap.structs h ⊆ heap.structs h'
        /\ heap.arrays h' = heap.arrays h /\ heap.maps h' = heap.maps h).
Proof.
  intros Hwf. unfold scheduler.Get, scheduler.storedJob. split.
  - intros ->. reflexivity.
  - intros Hsome.
    destruct (scheduler.jobs s !! jobID) as [p|] eqn:Hp; [| congruence].
    destruct (Hwf _ _ Hp) as [jv Hjv]. rewrite Hjv.
    pose proof (new_lookup h jv). pose proof (new_fresh h jv).
    pose proof (new_extends h jv).
    assert (heap.arrays (heap.new h jv).2 = heap.arrays h) by reflexivity.
    assert (heap.maps (heap.new h jv).2 = heap.maps h) by reflexivity.
    destruct (heap.new h jv) as [q h1]; simpl in *.
    exists h1, q, jv. auto 10.
Qed.

Lemma Delete_spec (s : scheduler.MemoryStore) (jobID : string) :
  (scheduler.jobs s !! jobID = None ->
   scheduler.Delete s jobID = (s, Some (job.JobNotFoundError jobID)))
  /\ (scheduler.jobs s !! jobID <> None ->
      exists s',
        scheduler.Delete s jobID = (s', None)
        /\ scheduler.jobs s' !! jobID = None
        /\ (forall id, id <> jobID -> scheduler.jobs s' !! id = scheduler.jobs s !! id)).
Proof.
  unfold scheduler.Delete. split.
  - intros ->. reflexivity.
  - intros Hsome. destruct (scheduler.jobs s !! jobID); [| congruence].
    eexists. split; [reflexivity |]. simpl. split.
    + apply lookup_delete_eq.
    + intros id Hid. apply lookup_delete_ne. congruence.
Qed.

Lemma UpdateStatus_store_spec (now : Time) (h : heap.Heap) (s : scheduler.MemoryStore)
    (jobID : string) (status : job.JobStatus) :
  scheduler.wellFormed h s ->
  (scheduler.jobs s !! jobID = None ->
   scheduler.UpdateStatus now h s jobID status
   = Some (h, Some (job.JobNotFoundError jobID)))
  /\ (scheduler.jobs s !! jobID <> None ->
      exists h' jv,
        scheduler.storedJob h s jobID = Some jv
        /\ scheduler.UpdateStatus now h s jobID status
           = Some (h', (job.UpdateStatus now jv status).2)
        /\ scheduler.storedJob h' s jobID = Some (job.UpdateStatus now jv status).1
        /\ (forall e, (job.UpdateStatus now jv status).2 = Some e ->
              job.IsJobNotFoundError e = false)).
Proof.
  intros Hwf. unfold scheduler.UpdateStatus, scheduler.storedJob. split.
  - intros ->. reflexivity.
  - intros Hsome.
    destruct (scheduler.jobs s !! jobID) as [p|] eqn:Hp; [| congruence].
    destruct (Hwf _ _ Hp) as [jv Hjv]. rewrite Hjv.
    exists (heap.write h p (job.UpdateStatus now jv status).1), jv.
    split; [reflexivity |]. split; [| split].
    + destruct (job.UpdateStatus now jv status) as [jv' [e|]]; reflexivity.
    + unfold heap.write; simpl. apply lookup_insert_eq.
    + unfold job.UpdateStatus.
      destruct (job.CanTransitionTo jv status); simpl; intros e [=]; subst.
      reflexivity.
Qed.

(** The invariant is kept by the methods that do not go through
    [store_copy]: a heap that only grows, a deleted entry, and a write to a
    struct that is already there. *)
Lemma wellFormed_Delete (h : heap.Heap) (s : scheduler.MemoryStore) (jobID : string) :
  scheduler.wellFormed h s -> scheduler.wellFormed h (scheduler.Delete s jobID).1.
Proof.
  intros Hwf. unfold scheduler.Delete.
  destruct (scheduler.jobs s !! jobID); simpl; [| exact Hwf].
  intros id p Hp. simpl in Hp. apply lookup_delete_Some in Hp as [_ Hp].
  eapply Hwf; exact Hp.
Qed.

Lemma wellFormed_write (h : heap.Heap) (s : scheduler.MemoryStore) (p : loc)
    (v : job.Job) :
  scheduler.wellFormed h s -> scheduler.wellFormed (heap.write h p v) s.
Proof.
  intros Hwf id q Hq. unfold heap.write; simpl. rewrite lookup_insert.
  case_decide; [eauto | eapply Hwf; exact Hq].
Qed.

Lemma wellFormed_UpdateStatus (now : Time) (h h' : heap.Heap)
    (s : scheduler.MemoryStore) (jobID : string) (status : job.JobStatus)
    (err : option job.error) :
  scheduler.wellFormed h s ->
  scheduler.UpdateStatus now h s jobID status = Some (h', err) ->
  scheduler.wellFormed h' s.
Proof.
  intros Hwf. unfold scheduler.UpdateStatus.
  destruct (scheduler.jobs s !! jobID) as [p|]; [| intros [= <- _]; exact Hwf].
  destruct (heap.structs h !! p) as [jv|]; [| discriminate].
  destruct (job.UpdateStatus now jv status) as [jv' [e|]];
    intros [= <- _]; apply wellFormed_write; exact Hwf.
Qed.

Lemma matchesFilters_conjunction (jv : job.Job) (filters : list job.Filter) :
  scheduler.matchesFilters jv filters = true <->
  forall f, f ∈ filters -> scheduler.matchesFilter jv f = true.
Proof.
  induction filters as [| f fs IH]; simpl.
  - split; [intros _ f Hf; inversion Hf | reflexivity].
  - destruct (scheduler.matchesFilter jv f) eqn:Hf; simpl.
    + rewrite IH. split.
      * intros H g Hg. apply elem_of_cons in Hg as [-> | Hg]; auto.
      * intros H g Hg. apply H. apply elem_of_cons. auto.
    + split; [discriminate |]. intros H.
      rewrite <- Hf. apply H. apply elem_of_cons. auto.
Qed.

Lemma structsOf_extends (h h' : heap.Heap) (entries : list (string * loc)) :
  Forall (fun e => is_Some (heap.structs h !! e.2)) entries ->
  heap.structs h ⊆ heap.structs h' ->
  scheduler.structsOf h' entries = scheduler.structsOf h entries.
Proof.
  intros Hall Hsub. induction Hall as [| e es [x Hx] _ IH]; [reflexivity |].
  unfold scheduler.structsOf in *. simpl.
  rewrite Hx, (lookup_weaken _ _ _ _ Hx Hsub). simpl. f_equal. exact IH.
Qed.

Lemma listLoop_cons (h : heap.Heap) (id : string) (p : loc)
    (rest : list (string * loc)) (filters : list job.Filter) (result : list loc)
    (jv : job.Job) :
  heap.structs h !! p = Some jv ->
  scheduler.listLoop h ((id, p) :: rest) filters result
  = if scheduler.matchesFilters jv filters
    then scheduler.listLoop (heap.new h jv).2 rest filters
           (result ++ [(heap.new h jv).1])%list
    else scheduler.listLoop h rest filters result.
Proof. intros H. simpl. rewrite H. reflexivity. Qed.

Lemma matchingJobs_cons (h : heap.Heap) (id : string) (p : loc)
    (rest : list (string * loc)) (filters : list job.Filter) (jv : job.Job) :
  heap.structs h !! p = Some jv ->
  scheduler.matchingJobs h ((id, p) :: rest) filters
  = if scheduler.matchesFilters jv filters
    then jv :: scheduler.matchingJobs h rest filters
    else scheduler.matchingJobs h rest filters.
Proof.
  intros H. unfold scheduler.matchingJobs, scheduler.structsOf. simpl.
  rewrite H. reflexivity.
Qed.

Lemma listLoop_spec (filters : list job.Filter) (entries : list (string * loc)) :
  forall (h : heap.Heap) (result : list loc),
    Forall (fun e => is_Some (heap.structs h !! e.2)) entries ->
    exists h' new,
      scheduler.listLoop h entries filters result = Some (h', (result ++ new)%list)
      /\ heap.structs h ⊆ heap.structs h'
      /\ heap.arrays h' = heap.arrays h /\ heap.maps h' = heap.maps h
      /\ Forall2 (fun q jv => heap.structs h' !! q = Some jv) new
           (scheduler.matchingJobs h entries filters).
Proof.
  induction entries as [| [id p] rest IH]; intros h result Hall.
  - exists h, []. simpl. rewrite app_nil_r. repeat split; auto.
  - inversion Hall as [| ? ? [jv Hjv] Hrest]; subst. simpl in Hjv.
    rewrite (listLoop_cons _ _ _ _ _ _ _ Hjv), (matchingJobs_cons _ _ _ _ _ _ Hjv).
    destruct (scheduler.matchesFilters jv filters) eqn:Hm.
    + pose proof (new_lookup h jv) as Hl. pose proof (new_extends h jv) as He.
      set (q := (heap.new h jv).1) in *. set (h1 := (heap.new h jv).2) in *.
      assert (Hrest1 : Forall (fun e => is_Some (heap.structs h1 !! e.2)) rest).
      { eapply Forall_impl; [exact Hrest |]. intros e [x Hx]. exists x.
        eapply lookup_weaken; eassumption. }
      destruct (IH h1 (result ++ [q])%list Hrest1)
        as (h' & new & Hrun & Hsub & Ha' & Hm' & Hall2).
      exists h', (q :: new). rewrite Hrun, <- app_assoc. simpl.
      split; [reflexivity |]. split; [etransitivity; eassumption |].
      split; [exact Ha' |]. split; [exact Hm' |].
      constructor.
      * eapply lookup_weaken; eassumption.
      * unfold scheduler.matchingJobs in *.
        rewrite (structsOf_extends h h1 rest Hrest He) in Hall2. exact Hall2.
    + destruct (IH h result Hrest) as (h' & new & Hrun & Hsub & Ha' & Hm' & Hall2).
      exists h', new. auto.
Qed.

Lemma elem_of_matchingJobs (h : heap.Heap) (s : scheduler.MemoryStore)
    (filters : list job.Filter) (jv : job.Job) :
  jv ∈ scheduler.matchingJobs h (map_to_list (scheduler.jobs s)) filters <->
  (exists id, scheduler.storedJob h s id = Some jv)
  /\ scheduler.matchesFilters jv filters = true.
Proof.
  unfold scheduler.matchingJobs, scheduler.structsOf, scheduler.storedJob.
  rewrite list_elem_of_In, filter_In, <- list_elem_of_In, list_elem_of_omap.
  split.
  - intros [([id p] & Hin & Hp) Hm]. split; [| exact Hm].
    apply elem_of_map_to_list in Hin. exists id. rewrite Hin. exact Hp.
  - intros [[id Hid] Hm]. split; [| exact Hm].
    destruct (scheduler.jobs s !! id) as [p|] eqn:Hp; [| discriminate].
    exists (id, p). split; [apply elem_of_map_to_list; exact Hp | exact Hid].
Qed.

Lemma List_spec (h : heap.Heap) (s : scheduler.MemoryStore) (filters : list job.Filter) :
  scheduler.wellFormed h s ->
  exists h' result,
    scheduler.List h s filters = Some (h', result, None)
    /\ heap.structs h ⊆ heap.structs h'
    /\ heap.arrays h' = heap.arrays h /\ heap.maps h' = heap.maps h
    /\ Forall2 (fun q jv => heap.structs h' !! q = Some jv) result
         (scheduler.matchingJobs h (map_to_list (scheduler.jobs s)) filters).
Proof.
  intros Hwf. unfold scheduler.List.
  destruct (listLoop_spec filters (map_to_list (scheduler.jobs s)) h [])
    as (h' & new & Hrun & Hrest).
  { apply Forall_forall. intros [id p] Hin.
    apply elem_of_map_to_list in Hin. simpl. eapply Hwf; exact Hin. }
  rewrite Hrun. simpl. exists h', new. split; [reflexivity | exact Hrest].
Qed.

(** C6: in a store whose pointers are valid, [Create] fails with the store
    unchanged when the ID exists and stores the job otherwise; [Get],
    [Update], [Delete] and [UpdateStatus] return a not-found error when the
    ID is absent and do not when it is present ([UpdateStatus] then returns
    what the status machine returns, which is never a not-found error);
    [List] returns copies of exactly the stored jobs that satisfy every
    filter, hence of every stored job when there is no filter. *)
Theorem store_contract (now : Time) (h : heap.Heap) (s : scheduler.MemoryStore) :
  scheduler.wellFormed h s ->
  (forall j jv, heap.structs h !! j = Some jv ->
     (scheduler.jobs s !! job.ID jv <> None ->
      scheduler.Create h s j
      = Some (h, s, Some (job.ValidationError ("job already exists: " ++ job.ID jv))))
     /\ (scheduler.jobs s !! job.ID jv = None ->
         exists h' s',
           scheduler.Create h s j = Some (h', s', None)
           /\ scheduler.storedJob h' s' (job.ID jv) = Some jv))
  /\ (forall jobID,
       (scheduler.jobs s !! jobID = None ->
        scheduler.Get h s jobID = Some (h, None, Some (job.JobNotFoundError jobID)))
       /\ (scheduler.jobs s !! jobID <> None ->
           exists h' q jv,
             scheduler.Get h s jobID = Some (h', Some q, None)
             /\ scheduler.storedJob h s jobID = Some jv
             /\ heap.structs h' !! q = Some jv))
  /\ (forall j jv, heap.structs h !! j = Some jv ->
       (scheduler.jobs s !! job.ID jv = None ->
        scheduler.Update h s j = Some (h, s, Some (job.JobNotFoundError (job.ID jv))))
       /\ (scheduler.jobs s !! job.ID jv <> None ->
           exists h' s',
             scheduler.Update h s j = Some (h', s', None)
             /\ scheduler.storedJob h' s' (job.ID jv) = Some jv))
  /\ (forall jobID,
       (scheduler.jobs s !! jobID = None ->
        scheduler.Delete s jobID = (s, Some (job.JobNotFoundError jobID)))
       /\ (scheduler.jobs s !! jobID <> None ->
           exists s',
             scheduler.Delete s jobID = (s', None)
             /\ scheduler.jobs s' !! jobID = None))
  /\ (forall jobID status,
       (scheduler.jobs s !! jobID = None ->
        scheduler.UpdateStatus now h s jobID status
        = Some (h, Some (job.JobNotFoundError jobID)))
       /\ (scheduler.jobs s !! jobID <> None ->
           exists h' jv,
             scheduler.storedJob h s jobID = Some jv
             /\ scheduler.UpdateStatus now h s jobID status
                = Some (h', (job.UpdateStatus now jv status).2)
             /\ (forall e, (job.UpdateStatus now jv status).2 = Some e ->
                   job.IsJobNotFoundError e = false)))
  /\ (forall filters,
       exists h' result,
         scheduler.List h s filters = Some (h', result, None)
         /\ length result
            = length (scheduler.matchingJobs h (map_to_list (scheduler.jobs s)) filters)
         /\ (forall jv,
               (exists q, q ∈ result /\ heap.structs h' !! q = Some jv) <->
               (exists id, scheduler.storedJob h s id = Some jv)
               /\ (forall f, f ∈ filters -> scheduler.matchesFilter jv f = true))
         /\ (filters = [] ->
             forall id jv, scheduler.storedJob h s id = Some jv ->
               exists q, q ∈ result /\ heap.structs h' !! q = Some jv)).
Proof.
  intros Hwf.
  split; [| split; [| split; [| split; [| split]]]].
  - intros j jv Hj. destruct (Create_spec h s j jv Hwf Hj) as [H1 H2].
    split; [exact H1 |]. intros Hn.
    destruct (H2 Hn) as (h' & s' & ? & ? & _). eauto.
  - intros jobID. destruct (Get_spec h s jobID Hwf) as [H1 H2].
    split; [exact H1 |]. intros Hn.
    destruct (H2 Hn) as (h' & q & jv & ? & ? & ? & _). eauto 6.
  - intros j jv Hj. destruct (Update_spec h s j jv Hwf Hj) as [H1 H2].
    split; [exact H1 |]. intros Hn.
    destruct (H2 Hn) as (h' & s' & ? & ? & _). eauto.
  - intros jobID. destruct (Delete_spec s jobID) as [H1 H2].
    split; [exact H1 |]. intros Hn.
    destruct (H2 Hn) as (s' & ? & ? & _). eauto.
  - intros jobID status.
    destruct (UpdateStatus_store_spec now h s jobID status Hwf) as [H1 H2].
    split; [exact H1 |]. intros Hn.
    destruct (H2 Hn) as (h' & jv & ? & ? & _ & ?). eauto 6.
  - intros filters.
    destruct (List_spec h s filters Hwf) as (h' & result & Hrun & _ & _ & _ & Hall).
    exists h', result. split; [exact Hrun |].
    assert (Hmem : forall jv,
               (exists q, q ∈ result /\ heap.structs h' !! q = Some jv) <->
               (exists id, scheduler.storedJob h s id = Some jv)
               /\ (forall f, f ∈ filters -> scheduler.matchesFilter jv f = true)).
    { intros jv. rewrite <- matchesFilters_conjunction, <- elem_of_matchingJobs.
      split.
      - intros (q & Hq & Hjv). apply list_elem_of_lookup in Hq as [i Hi].
        destruct (Forall2_lookup_l _ _ _ _ _ Hall Hi) as (jv' & Hi' & Hjv').
        assert (jv' = jv) by congruence. subst.
        eapply list_elem_of_lookup_2; exact Hi'.
      - intros Hin. apply list_elem_of_lookup in Hin as [i Hi].
        destruct (Forall2_lookup_r _ _ _ _ _ Hall Hi) as (q & Hq & Hjv).
        exists q. split; [eapply list_elem_of_lookup_2; exact Hq | exact Hjv]. }
    split; [eapply Forall2_length; exact Hall |].
    split; [exact Hmem |].
    intros -> id jv Hst. apply Hmem. split; [eauto |].
    intros f Hf. inversion Hf.
Qed.

Lemma wellFormed_storeWithB :
  scheduler.wellFormed examples.storeHeap examples.storeWithB.
Proof.
  intros id p H. simpl in H. apply lookup_singleton_Some in H as [_ <-].
  exists (examples.queuedJob "b"). reflexivity.
Defined.

(** The contract at a store that holds the job "b": the hypothesis holds,
    creating "a" succeeds, creating "b" again fails, "b" is found and "a" is
    not. *)
Lemma store_contract_witness :
  scheduler.wellFormed examples.storeHeap examples.storeWithB
  /\ (exists h' s',
        scheduler.Create examples.storeHeap examples.storeWithB 1%positive
        = Some (h', s', None))
  /\ scheduler.Create examples.storeHeap examples.storeWithB 5%positive
     = Some (examples.storeHeap, examples.storeWithB,
             Some (job.ValidationError "job already exists: b"))
  /\ (exists h' q,
        scheduler.Get examples.storeHeap examples.storeWithB "b"
        = Some (h', Some q, None))
  /\ scheduler.Get examples.storeHeap examples.storeWithB "a"
     = Some (examples.storeHeap, None, Some (job.JobNotFoundError "a")).
Proof.
  split; [exact wellFormed_storeWithB |].
  destruct (store_contract examples.epoch examples.storeHeap examples.storeWithB
              wellFormed_storeWithB) as (HC & HG & _).
  split; [| split; [| split]].
  - destruct (HC 1%positive (examples.queuedJob "a") eq_refl) as [_ H].
    destruct (H eq_refl) as (h' & s' & Hrun & _). eauto.
  - destruct (HC 5%positive (examples.queuedJob "b") eq_refl) as [H _].
    apply H. discriminate.
  - destruct (HG "b") as [_ H].
    destruct (H ltac:(discriminate)) as (h' & q & jv & Hrun & _). eauto.
  - destruct (HG "a") as [H _]. apply H. reflexivity.
Defined.

(** ** Copies at the store boundary *)

(** The struct itself is copied: a write to a field of the caller's struct
    after [Create] does not reach the stored job. *)
Lemma struct_fields_are_isolated (h : heap.Heap) (s : scheduler.MemoryStore)
    (j : loc) (jv : job.Job) (v : string) :
  scheduler.wellFormed h s ->
  heap.structs h !! j = Some jv ->
  scheduler.jobs s !! job.ID jv = None ->
  exists h1 s1 h2,
    scheduler.Create h s j = Some (h1, s1, None)
    /\ heap.assignWorkerID h1 j v = Some h2
    /\ scheduler.storedJob h2 s1 (job.ID jv) = Some jv.
Proof.
  intros Hwf Hj Hnone. unfold scheduler.Create. rewrite Hj, Hnone.
  pose proof (new_lookup h jv) as Hl. pose proof (new_fresh h jv) as Hf.
  pose proof (new_keeps h jv j jv Hj) as Hk.
  destruct (heap.new h jv) as [q h1]; simpl in *.
  eexists _, _, _. split; [reflexivity |].
  unfold heap.assignWorkerID. rewrite Hk. split; [reflexivity |].
  unfold scheduler.storedJob, heap.write; simpl.
  rewrite lookup_insert_eq, lookup_insert_ne; [exact Hl |].
  intros ->. congruence.
Qed.

(** C2 (the code departs from it): the struct copy made by [Create] and
    [Get] shares the backing array of [Tags] and the map object of
    [Environment] with the caller's job.  After [Create], a write by the
    caller to an environment entry or to a tag shows in the job that a later
    [Get] returns, and so does a write through a copy received from [Get];
    a write to a field of the struct does not. *)
Theorem store_copy_shares_tags_and_environment :
  examples.createGet
  = Some (examples.queuedJob "a", ["nightly"], {[ "MODE" := "fast" ]})
  /\ examples.createWriteEnvironmentGet
     = Some (examples.queuedJob "a", ["nightly"], {[ "MODE" := "slow" ]})
  /\ examples.createWriteTagGet
     = Some (examples.queuedJob "a", ["weekly"], {[ "MODE" := "fast" ]})
  /\ examples.getWriteEnvironmentGet
     = Some (examples.queuedJob "a", ["nightly"], {[ "MODE" := "slow" ]})
  /\ examples.createWriteWorkerIDGet
     = Some (examples.queuedJob "a", ["nightly"], {[ "MODE" := "fast" ]}).
Proof. repeat split; vm_compute; reflexivity. Qed.

(** ** The executor *)

Section Execute_properties.

Variables executeCommand executeScript executeHTTP executeFile
  : job.Job -> string * Z * option job.error.

Local Abbreviation Execute :=
  (worker.Execute executeCommand executeScript executeHTTP executeFile).

Lemma Execute_reports (startTime endTime : Time) (j : job.Job)
    (ran : string * Z * option job.error) (r : job.JobResult) :
  (let '(output, exitCode, err) := ran in
   r = {| job.res_JobID := job.ID j;
          job.res_Status :=
            match err with Some _ => job.JobStatusFailed
                         | None => job.JobStatusCompleted end;
          job.res_Output := output;
          job.res_Error := match err with Some e => job.Error e | None => "" end;
          job.res_ExitCode :=
            match err with
            | Some _ => if (exitCode =? 0)%Z then 1%Z else exitCode
            | None => exitCode
            end;
          job.res_StartedAt := startTime;
          job.res_CompletedAt := endTime;
          job.res_Duration := worker.Sub endTime startTime |}) ->
  design.reportedAs j ran r.
Proof.
  destruct ran as [[output exitCode] [e|]]; intros ->; simpl;
    repeat split; try reflexivity.
  destruct (Z.eqb_spec exitCode 0); [discriminate | assumption].
Qed.

(** C5: for a job of one of the four types, [Execute] returns a result and
    no error, and the result reports what the strategy of that type
    returned: completed with the strategy's exit code when it returned no
    error, failed with its message and a nonzero exit code (the strategy's,
    or 1 for 0) when it did.  [Execute] returns an error exactly when the
    type is none of the four, and then no result. *)
Theorem Execute_spec (startTime endTime : Time) (j : job.Job) :
  (job.Type_ j = job.JobTypeCommand ->
   exists r, Execute startTime endTime j = (Some r, None)
             /\ design.reportedAs j (executeCommand j) r)
  /\ (job.Type_ j = job.JobTypeScript ->
      exists r, Execute startTime endTime j = (Some r, None)
                /\ design.reportedAs j (executeScript j) r)
  /\ (job.Type_ j = job.JobTypeHTTP ->
      exists r, Execute startTime endTime j = (Some r, None)
                /\ design.reportedAs j (executeHTTP j) r)
  /\ (job.Type_ j = job.JobTypeFile ->
      exists r, Execute startTime endTime j = (Some r, None)
                /\ design.reportedAs j (executeFile j) r)
  /\ ((Execute startTime endTime j).2 <> None <-> ~ design.knownType (job.Type_ j))
  /\ ((Execute startTime endTime j).2 <> None -> (Execute startTime endTime j).1 = None).
Proof.
  unfold worker.Execute. unfold_types.
  repeat split.
  - intros ->. simpl.
    pose proof (Execute_reports startTime endTime j (executeCommand j)) as H.
    destruct (executeCommand j) as [[output exitCode] [e|]];
      eexists; (split; [reflexivity | apply H; reflexivity]).
  - intros ->. simpl.
    pose proof (Execute_reports startTime endTime j (executeScript j)) as H.
    destruct (executeScript j) as [[output exitCode] [e|]];
      eexists; (split; [reflexivity | apply H; reflexivity]).
  - intros ->. simpl.
    pose proof (Execute_reports startTime endTime j (executeHTTP j)) as H.
    destruct (executeHTTP j) as [[output exitCode] [e|]];
      eexists; (split; [reflexivity | apply H; reflexivity]).
  - intros ->. simpl.
    pose proof (Execute_reports startTime endTime j (executeFile j)) as H.
    destruct (executeFile j) as [[output exitCode] [e|]];
      eexists; (split; [reflexivity | apply H; reflexivity]).
  - repeat case_eqb; simpl;
      try (destruct (executeCommand j) as [[? ?] [?|]]);
      try (destruct (executeScript j) as [[? ?] [?|]]);
      try (destruct (executeHTTP j) as [[? ?] [?|]]);
      try (destruct (executeFile j) as [[? ?] [?|]]);
      simpl; intuition congruence.
  - repeat case_eqb; simpl;
      try (destruct (executeCommand j) as [[? ?] [?|]]);
      try (destruct (executeScript j) as [[? ?] [?|]]);
      try (destruct (executeHTTP j) as [[? ?] [?|]]);
      try (destruct (executeFile j) as [[? ?] [?|]]);
      simpl; intuition congruence.
  - repeat case_eqb; simpl;
      try (destruct (executeCommand j) as [[? ?] [?|]]);
      try (destruct (executeScript j) as [[? ?] [?|]]);
      try (destruct (executeHTTP j) as [[? ?] [?|]]);
      try (destruct (executeFile j) as [[? ?] [?|]]);
      simpl; intuition congruence.
Qed.

End Execute_properties.

(** A command job whose strategy fails with exit code 0 is reported as
    failed with exit code 1. *)
Lemma Execute_spec_witness :
  exists r,
    worker.Execute examples.failingStrategy examples.failingStrategy
      examples.failingStrategy examples.failingStrategy
      examples.epoch examples.epoch (examples.queuedJob "a") = (Some r, None)
    /\ job.res_Status r = job.JobStatusFailed
    /\ job.res_ExitCode r = 1%Z
    /\ job.res_Error r = "connection refused".
Proof.
  destruct (Execute_spec examples.failingStrategy examples.failingStrategy
              examples.failingStrategy examples.failingStrategy
              examples.epoch examples.epoch (examples.queuedJob "a"))
    as (Hcommand & _).
  destruct (Hcommand eq_refl) as (r & Hr & Hrep).
  exists r. split; [exact Hr |].
  destruct Hrep as (_ & _ & Hst & _ & Hcode & Herr).
  split; [exact Hst |]. split; [exact Hcode | exact Herr].
Defined.

(** ** The worker *)

Lemma CanAcceptJob_spec (w : worker.Worker) :
  worker.CanAcceptJob w = true <->
  worker.IsHealthy w = true /\ (worker.GetCurrentLoad w < worker.GetCapacity w)%Z.
Proof.
  unfold worker.CanAcceptJob. rewrite andb_true_iff, Z.ltb_lt. reflexivity.
Qed.

(** What [ExecuteJob] leaves in the in-flight set once it has accepted a
    job: the set it found, without the job's ID. *)
Lemma ExecuteJob_in_flight (now : Time) (h : heap.Heap) (w : worker.Worker)
    (j : loc) (jv : job.Job) :
  worker.CanAcceptJob w = true ->
  heap.structs h !! j = Some jv ->
  worker.currentJobs (worker.ExecuteJob now h w j).1.1.2
  = delete (job.ID jv) (worker.currentJobs w).
Proof.
  intros Hacc Hj. unfold worker.ExecuteJob. rewrite Hacc, Hj. simpl.
  assert (Hid : forall jv2 err,
            job.UpdateStatus now (job.set_WorkerID (worker.id w) jv)
              job.JobStatusRunning = (jv2, err) -> job.ID jv2 = job.ID jv).
  { intros jv2 err. unfold job.UpdateStatus.
    destruct (job.CanTransitionTo _ _); simpl.
    - destruct (job.StartedAt jv); intros [= <- _]; reflexivity.
    - intros [= <- _]. reflexivity. }
  destruct (job.UpdateStatus now (job.set_WorkerID (worker.id w) jv)
              job.JobStatusRunning) as [jv2 [err|]] eqn:Hup;
    rewrite (Hid _ _ eq_refl).
  - simpl. apply delete_insert_eq.
  - destruct (worker.executor w jv2) as [[r|] [e|]]; simpl; apply delete_insert_eq.
Qed.

(** C7, as the code has it: [CanAcceptJob] is [IsHealthy] and load below
    capacity, [IsHealthy] is the health flag and the running flag; when
    [CanAcceptJob] is false [ExecuteJob] returns an error and leaves the
    worker, the heap and the executor untouched; once a job is accepted, on
    every exit the in-flight set is the one found at the call without the
    job's ID, so the load is the prior one when no job with that ID was in
    flight at the call. *)
Theorem worker_capacity_and_cleanup (now : Time) (h : heap.Heap)
    (w : worker.Worker) (j : loc) :
  (worker.CanAcceptJob w = true <->
   worker.IsHealthy w = true
   /\ (worker.GetCurrentLoad w < worker.GetCapacity w)%Z)
  /\ worker.IsHealthy w = worker.isHealthy w && worker.isRunning w
  /\ (worker.CanAcceptJob w = false ->
      exists msg,
        worker.ExecuteJob now h w j
        = (h, w, [], worker.Returns None (Some (job.errorString msg))))
  /\ (worker.CanAcceptJob w = true ->
      forall jv, heap.structs h !! j = Some jv ->
        let w' := (worker.ExecuteJob now h w j).1.1.2 in
        worker.currentJobs w' = delete (job.ID jv) (worker.currentJobs w)
        /\ worker.currentJobs w' !! job.ID jv = None
        /\ (worker.currentJobs w !! job.ID jv = None ->
            worker.currentJobs w' = worker.currentJobs w
            /\ worker.GetCurrentLoad w' = worker.GetCurrentLoad w)).
Proof.
  split; [apply CanAcceptJob_spec |]. split; [reflexivity |]. split.
  - intros Hacc. unfold worker.ExecuteJob. rewrite Hacc. simpl. eauto.
  - intros Hacc jv Hj. simpl.
    rewrite (ExecuteJob_in_flight now h w j jv Hacc Hj).
    split; [reflexivity |]. split; [apply lookup_delete_eq |].
    intros Hnone. unfold worker.GetCurrentLoad.
    rewrite (ExecuteJob_in_flight now h w j jv Hacc Hj).
    rewrite (delete_id _ _ Hnone). split; reflexivity.
Qed.

(** An idle worker of capacity 2 runs the queued job "a": it accepts it, and
    nothing is in flight after the call. *)
Lemma worker_capacity_and_cleanup_witness :
  worker.CanAcceptJob examples.idleWorker = true
  /\ worker.currentJobs
       (worker.ExecuteJob examples.epoch examples.callerHeap
          examples.idleWorker 1%positive).1.1.2
     = worker.currentJobs examples.idleWorker
  /\ worker.GetCurrentLoad
       (worker.ExecuteJob examples.epoch examples.callerHeap
          examples.idleWorker 1%positive).1.1.2
     = worker.GetCurrentLoad examples.idleWorker.
Proof.
  destruct (worker_capacity_and_cleanup examples.epoch examples.callerHeap
              examples.idleWorker 1%positive) as (_ & _ & _ & Hacc).
  split; [reflexivity |].
  destruct (Hacc eq_refl (examples.queuedJob "a") eq_refl) as (_ & _ & Hsame).
  apply Hsame. reflexivity.
Defined.

(** C7 as stated fails when a job with the same ID is in flight at the call:
    the worker accepts the job, the registration overwrites the entry, and
    the cleanup removes it, so the load after the call is one below the
    load before it. *)
Lemma in_flight_count_counterexample :
  worker.CanAcceptJob examples.busyWorker = true
  /\ heap.structs examples.runningHeap !! 1%positive = Some (examples.runningJob "a")
  /\ worker.GetCurrentLoad examples.busyWorker = 1%Z
  /\ worker.GetCurrentLoad
       (worker.ExecuteJob examples.epoch examples.runningHeap
          examples.busyWorker 1%positive).1.1.2 = 0%Z
  /\ worker.GetCurrentLoad
       (worker.ExecuteJob examples.epoch examples.runningHeap
          examples.busyWorker 1%positive).1.1.2
     <> worker.GetCurrentLoad examples.busyWorker.
Proof. repeat split; try (vm_compute; reflexivity). vm_compute. discriminate. Qed.

(** C10: when the worker accepts a job whose status does not allow the
    transition to running, [ExecuteJob] returns an error, hands nothing to
    the executor, and leaves the job with [WorkerID] set to the worker's ID
    and every other field, the status among them, as it was. *)
Theorem rejected_transition_keeps_WorkerID (now : Time) (h : heap.Heap)
    (w : worker.Worker) (j : loc) (jv : job.Job) :
  worker.CanAcceptJob w = true ->
  heap.structs h !! j = Some jv ->
  job.CanTransitionTo jv job.JobStatusRunning = false ->
  exists h' w' msg,
    worker.ExecuteJob now h w j
    = (h', w', [], worker.Returns None (Some (job.errorString msg)))
    /\ heap.structs h' !! j = Some (job.set_WorkerID (worker.id w) jv)
    /\ job.WorkerID (job.set_WorkerID (worker.id w) jv) = worker.id w
    /\ job.Status (job.set_WorkerID (worker.id w) jv) = job.Status jv.
Proof.
  intros Hacc Hj Hno. unfold worker.ExecuteJob. rewrite Hacc, Hj. simpl.
  unfold job.UpdateStatus.
  replace (job.CanTransitionTo (job.set_WorkerID (worker.id w) jv)
             job.JobStatusRunning) with false by (symmetry; exact Hno).
  simpl. eexists _, _, _. split; [reflexivity |].
  split; [apply lookup_insert_eq |]. split; reflexivity.
Qed.

(** An idle worker is handed a job that has already completed. *)
Lemma rejected_transition_witness :
  worker.CanAcceptJob examples.idleWorker = true
  /\ heap.structs examples.completedHeap !! 1%positive
     = Some (examples.completedJob "a")
  /\ job.CanTransitionTo (examples.completedJob "a") job.JobStatusRunning = false
  /\ exists h' w' msg,
       worker.ExecuteJob examples.epoch examples.completedHeap
         examples.idleWorker 1%positive
       = (h', w', [], worker.Returns None (Some (job.errorString msg)))
       /\ heap.structs h' !! 1%positive
          = Some (job.set_WorkerID "w1" (examples.completedJob "a"))
       /\ job.WorkerID (job.set_WorkerID "w1" (examples.completedJob "a")) = "w1"
       /\ job.Status (job.set_WorkerID "w1" (examples.completedJob "a"))
          = job.Status (examples.completedJob "a").
Proof.
  split; [reflexivity |]. split; [reflexivity |]. split; [reflexivity |].
  apply (rejected_transition_keeps_WorkerID examples.epoch examples.completedHeap
           examples.idleWorker 1%positive (examples.completedJob "a"));
    reflexivity.
Defined.

(** ** The helper predicates of the code agree with the design's terms *)

Lemma IsTerminal_terminalStatus (j : job.Job) :
  job.IsTerminal j = true <-> design.terminalStatus (job.Status j).
Proof.
  unfold job.IsTerminal, design.terminalStatus.
  rewrite !orb_true_iff, !String.eqb_eq. tauto.
Qed.

Lemma CanExecute_knownType (jobType : job.JobType) :
  worker.CanExecute jobType = true <-> design.knownType jobType.
Proof.
  unfold worker.CanExecute, design.knownType.
  rewrite !orb_true_iff, !String.eqb_eq. tauto.
Qed.

(** A terminal job is never handed to the executor. *)
Lemma terminal_cannot_run (jv : job.Job) :
  design.terminalStatus (job.Status jv) ->
  job.CanTransitionTo jv job.JobStatusRunning = false.
Proof.
  intros Ht. destruct (job.CanTransitionTo jv job.JobStatusRunning) eqn:Hc;
    [| reflexivity].
  apply CanTransitionTo_table in Hc.
  exfalso. exact (terminal_no_edge _ _ Ht Hc).
Qed.

(** * Further properties of the code *)

(** ** The life of a job *)

Ltac destruct_job j :=
  destruct j as [? ? ? ? ? ? ? ? ? ? ? ? ? st ? started completed ? ? ?].

(** X1: [UpdateStatus] writes at most the status and the two timestamps; the
    ID, the payload, the worker ID, [CreatedAt] and the result fields of the
    job are as before, whether the call is accepted or not. *)
Theorem UpdateStatus_frame (now : Time) (j : job.Job) (new : job.JobStatus) :
  let j' := (job.UpdateStatus now j new).1 in
  j' = job.set_CompletedAt (job.CompletedAt j')
         (job.set_StartedAt (job.StartedAt j') (job.set_Status (job.Status j') j))
  /\ job.ID j' = job.ID j /\ job.Type_ j' = job.Type_ j
  /\ job.Command j' = job.Command j /\ job.Script j' = job.Script j
  /\ job.URL j' = job.URL j /\ job.Method j' = job.Method j
  /\ job.FilePath j' = job.FilePath j /\ job.Timeout j' = job.Timeout j
  /\ job.Retries j' = job.Retries j /\ job.Priority j' = job.Priority j
  /\ job.Tags j' = job.Tags j /\ job.Environment j' = job.Environment j
  /\ job.WorkerID j' = job.WorkerID j /\ job.CreatedAt j' = job.CreatedAt j
  /\ job.Output j' = job.Output j /\ job.Error_ j' = job.Error_ j
  /\ job.ExitCode j' = job.ExitCode j.
Proof.
  unfold job.UpdateStatus. destruct_job j.
  destruct (job.CanTransitionTo _ new); simpl; [| repeat split; reflexivity].
  repeat case_eqb; simpl; destruct started, completed; simpl;
    repeat split; reflexivity.
Qed.

Lemma lifeInvariant_step (now : Time) (j : job.Job) (new : job.JobStatus) :
  jobclock.lifeInvariant j ->
  jobclock.lifeInvariant (job.UpdateStatus now j new).1.
Proof.
  unfold job.UpdateStatus.
  destruct (job.CanTransitionTo j new) eqn:Hc; simpl; [| auto].
  apply CanTransitionTo_table in Hc. unfold design.transitionTable in Hc.
  rewrite !elem_of_cons, elem_of_nil in Hc.
  unfold jobclock.lifeInvariant. destruct_job j. unfold_statuses. simpl in *.
  intros (_ & Hcm & Hs & Hp).
  repeat (destruct Hc as [Hc | Hc]); try contradiction;
    injection Hc as -> ->; simpl; destruct started, completed; simpl;
    (split; [tauto |]); (split; [| split]);
    try (split; intros; try congruence; tauto);
    try (intros; congruence);
    intuition (try congruence; try discriminate).
Qed.

Lemma lifeInvariant_updateAll (calls : list (Time * job.JobStatus)) (j : job.Job) :
  jobclock.lifeInvariant j -> jobclock.lifeInvariant (jobclock.updateAll calls j).
Proof.
  revert j. induction calls as [| [now status] rest IH]; intros j Hj; simpl.
  - exact Hj.
  - apply IH. apply lifeInvariant_step. exact Hj.
Qed.

(** X2: whatever calls of [UpdateStatus] are made on a job that starts
    pending with no timestamps (as [ToJob] makes it), accepted or rejected,
    the status stays one of the seven, [CompletedAt] is set exactly when the
    status is terminal, [StartedAt] is set whenever the status is running,
    retrying, completed or failed, and is unset while the status is pending. *)
Theorem job_life_invariant (calls : list (Time * job.JobStatus)) (j : job.Job) :
  job.Status j = job.JobStatusPending ->
  job.StartedAt j = None ->
  job.CompletedAt j = None ->
  let j' := jobclock.updateAll calls j in
  job.Status j' ∈ jobclock.statuses
  /\ (job.CompletedAt j' <> None <-> design.terminalStatus (job.Status j'))
  /\ (job.Status j' ∈ [job.JobStatusRunning; job.JobStatusRetrying;
                        job.JobStatusCompleted; job.JobStatusFailed] ->
      job.StartedAt j' <> None)
  /\ (job.Status j' = job.JobStatusPending -> job.StartedAt j' = None).
Proof.
  intros Hst Hs Hc j'.
  assert (Hinv : jobclock.lifeInvariant j').
  { apply lifeInvariant_updateAll. unfold jobclock.lifeInvariant.
    rewrite Hst, Hs, Hc. unfold_statuses.
    repeat split; try tauto; try congruence; intuition congruence. }
  destruct Hinv as (H1 & H2 & H3 & H4).
  unfold jobclock.statuses, design.terminalStatus.
  rewrite !elem_of_cons, !elem_of_nil.
  split; [tauto |]. split; [exact H2 |]. split; [| exact H4].
  intros Hin. apply H3. tauto.
Qed.

(** The job "a" run to completion: completed, with both timestamps set. *)
Lemma job_life_invariant_witness :
  job.Status (examples.pendingJob "a") = job.JobStatusPending
  /\ job.StartedAt (examples.pendingJob "a") = None
  /\ job.CompletedAt (examples.pendingJob "a") = None
  /\ job.Status (jobclock.updateAll examples.runToCompletion (examples.pendingJob "a"))
     = job.JobStatusCompleted
  /\ job.CompletedAt
       (jobclock.updateAll examples.runToCompletion (examples.pendingJob "a")) <> None
  /\ job.StartedAt
       (jobclock.updateAll examples.runToCompletion (examples.pendingJob "a")) <> None.
Proof.
  split; [reflexivity |]. split; [reflexivity |]. split; [reflexivity |].
  destruct (job_life_invariant examples.runToCompletion (examples.pendingJob "a")
              eq_refl eq_refl eq_refl) as (_ & Hc & Hs & _).
  split; [reflexivity |]. split.
  - apply Hc. left. reflexivity.
  - apply Hs. rewrite !elem_of_cons. right. right. left. reflexivity.
Defined.

Lemma UpdateStatus_keeps_set_timestamps (now : Time) (j : job.Job)
    (new : job.JobStatus) :
  (forall s, job.StartedAt j = Some s ->
             job.StartedAt (job.UpdateStatus now j new).1 = Some s)
  /\ (forall c, job.CompletedAt j = Some c ->
                job.CompletedAt (job.UpdateStatus now j new).1 = Some c).
Proof.
  unfold job.UpdateStatus. destruct_job j.
  destruct (job.CanTransitionTo _ new); simpl; [| auto].
  repeat case_eqb; simpl; destruct started, completed; simpl;
    split; intros ? [=]; subst; reflexivity.
Qed.

Lemma UpdateStatus_terminal_unchanged (now : Time) (j : job.Job)
    (new : job.JobStatus) :
  design.terminalStatus (job.Status j) -> (job.UpdateStatus now j new).1 = j.
Proof.
  intros Ht. unfold job.UpdateStatus.
  destruct (job.CanTransitionTo j new) eqn:Hc; [| reflexivity].
  apply CanTransitionTo_table in Hc.
  exfalso. exact (terminal_no_edge _ _ Ht Hc).
Qed.

(** X3: over any sequence of [UpdateStatus] calls, a timestamp that is set
    is never written again, and a job in a terminal status is not changed at
    all. *)
Theorem timestamps_written_once (calls : list (Time * job.JobStatus)) (j : job.Job) :
  (forall s, job.StartedAt j = Some s ->
             job.StartedAt (jobclock.updateAll calls j) = Some s)
  /\ (forall c, job.CompletedAt j = Some c ->
                job.CompletedAt (jobclock.updateAll calls j) = Some c)
  /\ (design.terminalStatus (job.Status j) -> jobclock.updateAll calls j = j).
Proof.
  revert j. induction calls as [| [now status] rest IH]; intros j; simpl.
  - repeat split; auto.
  - destruct (IH (job.UpdateStatus now j status).1) as (IHs & IHc & IHt).
    destruct (UpdateStatus_keeps_set_timestamps now j status) as [Hs Hc].
    split; [| split].
    + intros s H. apply IHs, Hs, H.
    + intros c H. apply IHc, Hc, H.
    + intros Ht. rewrite (UpdateStatus_terminal_unchanged now j status Ht) in *.
      apply IHt, Ht.
Qed.

(** The completed job "a" ignores a late cancellation and restart. *)
Lemma timestamps_written_once_witness :
  jobclock.updateAll
    [ (mkTime 60 0, job.JobStatusCancelled); (mkTime 70 0, job.JobStatusRunning) ]
    (examples.completedJob "a") = examples.completedJob "a".
Proof.
  apply (timestamps_written_once
           [ (mkTime 60 0, job.JobStatusCancelled); (mkTime 70 0, job.JobStatusRunning) ]
           (examples.completedJob "a")).
  left. reflexivity.
Defined.

(** X4: a job in any of the four non-terminal statuses can be cancelled: the
    call is accepted, the job becomes terminal, and [CompletedAt] is set (to
    the time of the call when it was unset). *)
Theorem cancel_from_any_live_status (now : Time) (j : job.Job) :
  job.Status j ∈ [job.JobStatusPending; job.JobStatusQueued;
                  job.JobStatusRunning; job.JobStatusRetrying] ->
  (job.UpdateStatus now j job.JobStatusCancelled).2 = None
  /\ job.Status (job.UpdateStatus now j job.JobStatusCancelled).1
     = job.JobStatusCancelled
  /\ job.IsTerminal (job.UpdateStatus now j job.JobStatusCancelled).1 = true
  /\ job.CompletedAt (job.UpdateStatus now j job.JobStatusCancelled).1
     = Some (default now (job.CompletedAt j)).
Proof.
  rewrite !elem_of_cons, elem_of_nil. unfold_statuses.
  unfold job.UpdateStatus, job.CanTransitionTo, job.IsTerminal. destruct_job j.
  simpl. unfold_statuses.
  intros [-> | [-> | [-> | [-> | []]]]]; simpl; destruct completed; simpl;
    repeat split; reflexivity.
Qed.

Lemma cancel_from_any_live_status_witness :
  job.Status (examples.runningJob "a")
    ∈ [job.JobStatusPending; job.JobStatusQueued;
       job.JobStatusRunning; job.JobStatusRetrying]
  /\ job.Status
       (job.UpdateStatus (mkTime 30 0) (examples.runningJob "a")
          job.JobStatusCancelled).1 = job.JobStatusCancelled
  /\ job.CompletedAt
       (job.UpdateStatus (mkTime 30 0) (examples.runningJob "a")
          job.JobStatusCancelled).1 = Some (mkTime 30 0).
Proof.
  assert (Hin : job.Status (examples.runningJob "a")
                  ∈ [job.JobStatusPending; job.JobStatusQueued;
                     job.JobStatusRunning; job.JobStatusRetrying]).
  { rewrite !elem_of_cons. right. right. left. reflexivity. }
  split; [exact Hin |].
  destruct (cancel_from_any_live_status (mkTime 30 0) (examples.runningJob "a") Hin)
    as (_ & Hst & _ & Hc).
  split; [exact Hst | exact Hc].
Defined.

(** *** Timestamps under a clock that does not go back *)

Lemma Sub_nonneg (t u : Time) :
  (unixNano u <= unixNano t)%Z -> (0 <= worker.Sub t u)%Z.
Proof.
  intros H. unfold worker.Sub, worker.maxDuration, worker.minDuration.
  repeat match goal with |- context [if ?c then _ else _] => destruct c eqn:? end;
    lia.
Qed.

Lemma UpdateStatus_timestamps (now : Time) (j : job.Job) (new : job.JobStatus) :
  (job.StartedAt (job.UpdateStatus now j new).1 = job.StartedAt j
   \/ job.StartedAt (job.UpdateStatus now j new).1 = Some now)
  /\ (job.CompletedAt (job.UpdateStatus now j new).1 = job.CompletedAt j
      \/ job.CompletedAt (job.UpdateStatus now j new).1 = Some now).
Proof.
  unfold job.UpdateStatus. destruct_job j.
  destruct (job.CanTransitionTo _ new); simpl; [| auto].
  repeat case_eqb; simpl; destruct started, completed; simpl; auto.
Qed.

Lemma timesBefore_step (t : Z) (now : Time) (j : job.Job) (new : job.JobStatus) :
  jobclock.lifeInvariant j -> jobclock.timesBefore t j -> (t <= unixNano now)%Z ->
  jobclock.timesBefore (unixNano now) (job.UpdateStatus now j new).1.
Proof.
  intros (_ & Hcm & _ & _) (Hs & Hc & Ho) Ht. unfold jobclock.timesBefore.
  destruct (job.CompletedAt j) as [c|] eqn:Hcj.
  - assert (Hterm : design.terminalStatus (job.Status j)).
    { apply Hcm. discriminate. }
    rewrite (UpdateStatus_terminal_unchanged now j new Hterm), Hcj.
    split; [| split].
    + intros s H. specialize (Hs s H). lia.
    + intros c' [= <-]. specialize (Hc c eq_refl). lia.
    + intros s c' H [= <-]. exact (Ho s c H eq_refl).
  - destruct (UpdateStatus_timestamps now j new) as [HS HC].
    rewrite Hcj in HC.
    split; [| split].
    + intros s H. destruct HS as [HS | HS]; rewrite HS in H.
      * specialize (Hs s H). lia.
      * injection H as <-. lia.
    + intros c H. destruct HC as [HC | HC]; rewrite HC in H; [discriminate |].
      injection H as <-. lia.
    + intros s c H1 H2.
      destruct HC as [HC | HC]; rewrite HC in H2; [discriminate |].
      injection H2 as <-.
      destruct HS as [HS | HS]; rewrite HS in H1.
      * specialize (Hs s H1). lia.
      * injection H1 as <-. lia.
Qed.

Lemma timesBefore_updateAll (calls : list (Time * job.JobStatus)) :
  forall (t : Z) (j : job.Job),
    jobclock.lifeInvariant j -> jobclock.timesBefore t j -> jobclock.clockFrom t calls ->
    jobclock.timesBefore (jobclock.lastReading t calls) (jobclock.updateAll calls j).
Proof.
  induction calls as [| [now status] rest IH]; intros t j Hl Ht Hclock; simpl.
  - exact Ht.
  - destruct Hclock as [Hle Hrest]. apply IH.
    + apply lifeInvariant_step. exact Hl.
    + apply (timesBefore_step t); assumption.
    + exact Hrest.
Qed.

(** X5: when the clock readings of the calls do not go back, a job that
    starts pending with no timestamps never has [CompletedAt] before
    [StartedAt], and [GetDuration], read at or after the last call, is not
    negative; once [CompletedAt] is set, [GetDuration] no longer depends on
    the time it is read at. *)
Theorem duration_is_not_negative (calls : list (Time * job.JobStatus))
    (t : Z) (j : job.Job) :
  job.Status j = job.JobStatusPending ->
  job.StartedAt j = None ->
  job.CompletedAt j = None ->
  jobclock.clockFrom t calls ->
  let j' := jobclock.updateAll calls j in
  (forall s c, job.StartedAt j' = Some s -> job.CompletedAt j' = Some c ->
               (unixNano s <= unixNano c)%Z)
  /\ (forall now, (jobclock.lastReading t calls <= unixNano now)%Z ->
                  (0 <= jobclock.GetDuration now j')%Z)
  /\ (job.CompletedAt j' <> None ->
      forall now now', jobclock.GetDuration now j' = jobclock.GetDuration now' j').
Proof.
  intros Hst Hs Hc Hclock j'.
  assert (Hinv : jobclock.lifeInvariant j).
  { unfold jobclock.lifeInvariant. rewrite Hst, Hs, Hc. unfold_statuses.
    repeat split; try tauto; try congruence; intuition congruence. }
  assert (Htb : jobclock.timesBefore t j).
  { unfold jobclock.timesBefore. rewrite Hs, Hc. repeat split; intros; discriminate. }
  destruct (timesBefore_updateAll calls t j Hinv Htb Hclock) as (Hbs & Hbc & Hord).
  fold j' in Hbs, Hbc, Hord.
  split; [exact Hord |]. split.
  - intros now Hnow. unfold jobclock.GetDuration.
    destruct (job.StartedAt j') as [s|] eqn:Hsj; [| lia].
    apply Sub_nonneg.
    destruct (job.CompletedAt j') as [c|] eqn:Hcj.
    + exact (Hord s c eq_refl eq_refl).
    + specialize (Hbs s eq_refl). lia.
  - intros Hset now now'. unfold jobclock.GetDuration.
    destruct (job.CompletedAt j'); [reflexivity | congruence].
Qed.

(** The job "a" run to completion takes 30, whenever it is asked. *)
Lemma duration_is_not_negative_witness :
  jobclock.clockFrom 0 examples.runToCompletion
  /\ (0 <= jobclock.GetDuration (mkTime 99 0)
             (jobclock.updateAll examples.runToCompletion (examples.pendingJob "a")))%Z
  /\ jobclock.GetDuration (mkTime 99 0)
       (jobclock.updateAll examples.runToCompletion (examples.pendingJob "a")) = 30%Z.
Proof.
  assert (Hclock : jobclock.clockFrom 0 examples.runToCompletion).
  { simpl. lia. }
  split; [exact Hclock |].
  destruct (duration_is_not_negative examples.runToCompletion 0
              (examples.pendingJob "a") eq_refl eq_refl eq_refl Hclock)
    as (_ & Hnn & _).
  split; [apply Hnn; simpl; lia | reflexivity].
Defined.

(** ** Job identifiers *)

(** X6: two calls of [GenerateJobID] return the same ID exactly when they
    read the same second and draw the same four random bytes; every ID has
    at least 14 characters. *)
Theorem GenerateJobID_collisions (timestamp timestamp' : Z)
    (randomBytes randomBytes' : byte * byte * byte * byte) :
  (job.GenerateJobID timestamp randomBytes = job.GenerateJobID timestamp' randomBytes'
   <-> timestamp = timestamp' /\ randomBytes = randomBytes')
  /\ (14 <= String.length (job.GenerateJobID timestamp randomBytes))%nat.
Proof.
  destruct randomBytes as [[[b0 b1] b2] b3], randomBytes' as [[[c0 c1] c2] c3].
  unfold job.GenerateJobID. split.
  - split; [| intros [-> [= -> -> -> ->]]; reflexivity].
    intros H.
    apply (string_app_inj_length "job-" "job-" _ _ eq_refl) in H as [_ H].
    assert (Hlen : String.length (job.formatInt timestamp)
                   = String.length (job.formatInt timestamp')).
    { apply (f_equal String.length) in H.
      rewrite !string_length_app in H. simpl in H. lia. }
    destruct (string_app_inj_length _ _ _ _ Hlen H) as [Hts Hrest].
    apply formatInt_inj in Hts.
    injection Hrest as H0 H0' H1 H1' H2 H2' H3 H3'.
    rewrite (encodeByte_inj b0 c0 H0 H0'), (encodeByte_inj b1 c1 H1 H1'),
      (encodeByte_inj b2 c2 H2 H2'), (encodeByte_inj b3 c3 H3 H3').
    split; [exact Hts | reflexivity].
  - pose proof (formatInt_nonempty timestamp).
    rewrite !string_length_app. simpl. lia.
Qed.

(** ** The store: invariant, round trips and frames *)

Lemma filedUnderOwnID_wellFormed (h : heap.Heap) (s : scheduler.MemoryStore) :
  scheduler.filedUnderOwnID h s -> scheduler.wellFormed h s.
Proof. intros H id p Hp. destruct (H id p Hp) as (jv & Hjv & _). eauto. Qed.

Lemma filedUnderOwnID_extends (h h' : heap.Heap) (s : scheduler.MemoryStore) :
  scheduler.filedUnderOwnID h s -> heap.structs h ⊆ heap.structs h' ->
  scheduler.filedUnderOwnID h' s.
Proof.
  intros H Hsub id p Hp. destruct (H id p Hp) as (jv & Hjv & Hid).
  exists jv. split; [eapply lookup_weaken; eassumption | exact Hid].
Qed.

Lemma filedUnderOwnID_store_copy (h : heap.Heap) (s : scheduler.MemoryStore)
    (jv : job.Job) :
  scheduler.filedUnderOwnID h s ->
  scheduler.filedUnderOwnID (heap.new h jv).2
    (scheduler.mkMemoryStore
       (<[job.ID jv := (heap.new h jv).1]> (scheduler.jobs s))).
Proof.
  intros H id p; simpl. rewrite lookup_insert.
  case_decide as Hid.
  - intros [= <-]. exists jv. split; [apply new_lookup | exact Hid].
  - intros Hp. destruct (H id p Hp) as (x & Hx & Hx').
    exists x. split; [apply new_keeps; exact Hx | exact Hx'].
Qed.

Lemma UpdateStatus_keeps_ID (now : Time) (j : job.Job) (new : job.JobStatus) :
  job.ID (job.UpdateStatus now j new).1 = job.ID j.
Proof.
  unfold job.UpdateStatus. destruct_job j.
  destruct (job.CanTransitionTo _ new); simpl; [| reflexivity].
  repeat case_eqb; simpl; destruct started, completed; reflexivity.
Qed.

(** X7: the store files every job under its own ID, and every method keeps
    it so: after [Create], [Update], [Delete], [UpdateStatus], [Get] or
    [List], each entry of the map still points to a struct whose ID is the
    key; hence the copy that [Get] returns for an ID carries that ID. *)
Theorem store_files_jobs_under_their_ID (now : Time) (h : heap.Heap)
    (s : scheduler.MemoryStore) :
  scheduler.filedUnderOwnID h s ->
  (forall j h' s' err, scheduler.Create h s j = Some (h', s', err) ->
                       scheduler.filedUnderOwnID h' s')
  /\ (forall j h' s' err, scheduler.Update h s j = Some (h', s', err) ->
                          scheduler.filedUnderOwnID h' s')
  /\ (forall jobID, scheduler.filedUnderOwnID h (scheduler.Delete s jobID).1)
  /\ (forall jobID status h' err,
        scheduler.UpdateStatus now h s jobID status = Some (h', err) ->
        scheduler.filedUnderOwnID h' s)
  /\ (forall jobID h' got err,
        scheduler.Get h s jobID = Some (h', got, err) ->
        scheduler.filedUnderOwnID h' s
        /\ (forall q jv, got = Some q -> heap.structs h' !! q = Some jv ->
                         job.ID jv = jobID))
  /\ (forall filters h' result err,
        scheduler.List h s filters = Some (h', result, err) ->
        scheduler.filedUnderOwnID h' s).
Proof.
  intros Hinv. pose proof (filedUnderOwnID_wellFormed h s Hinv) as Hwf.
  split; [| split; [| split; [| split; [| split]]]].
  - intros j h' s' err. unfold scheduler.Create.
    destruct (heap.structs h !! j) as [jv|]; [| discriminate].
    destruct (scheduler.jobs s !! job.ID jv).
    + intros [= <- <- _]. exact Hinv.
    + pose proof (filedUnderOwnID_store_copy h s jv Hinv) as Hc.
      destruct (heap.new h jv) as [q h1]; simpl in Hc.
      intros [= <- <- _]. exact Hc.
  - intros j h' s' err. unfold scheduler.Update.
    destruct (heap.structs h !! j) as [jv|]; [| discriminate].
    destruct (scheduler.jobs s !! job.ID jv).
    + pose proof (filedUnderOwnID_store_copy h s jv Hinv) as Hc.
      destruct (heap.new h jv) as [q h1]; simpl in Hc.
      intros [= <- <- _]. exact Hc.
    + intros [= <- <- _]. exact Hinv.
  - intros jobID. unfold scheduler.Delete.
    destruct (scheduler.jobs s !! jobID); simpl; [| exact Hinv].
    intros id p Hp. simpl in Hp. apply lookup_delete_Some in Hp as [_ Hp].
    exact (Hinv id p Hp).
  - intros jobID status h' err. unfold scheduler.UpdateStatus.
    destruct (scheduler.jobs s !! jobID) as [p|] eqn:Hp;
      [| intros [= <- _]; exact Hinv].
    destruct (Hinv _ _ Hp) as (jv & Hjv & Hid). rewrite Hjv.
    pose proof (UpdateStatus_keeps_ID now jv status) as Hkeep.
    destruct (job.UpdateStatus now jv status) as [jv' [e|]]; simpl in Hkeep;
      intros [= <- _]; intros id q Hq; unfold heap.write; simpl;
      rewrite lookup_insert; case_decide as Hpq;
      try (apply Hinv; exact Hq);
      subst q; exists jv'; (split; [reflexivity |]);
      destruct (Hinv _ _ Hq) as (x & Hx & Hx'); congruence.
  - intros jobID h' got err. unfold scheduler.Get.
    destruct (scheduler.jobs s !! jobID) as [p|] eqn:Hp.
    + destruct (Hinv _ _ Hp) as (jv & Hjv & Hid). rewrite Hjv.
      pose proof (new_lookup h jv) as Hl. pose proof (new_extends h jv) as He.
      destruct (heap.new h jv) as [q h1]; simpl in *.
      intros [= <- <- _]. split.
      * eapply filedUnderOwnID_extends; eassumption.
      * intros q' jv' [= <-] Hq'. congruence.
    + intros [= <- <- _]. split; [exact Hinv |]. intros q jv [=].
  - intros filters h' result err Hrun.
    destruct (List_spec h s filters Hwf) as (h1 & r1 & Hrun1 & Hsub & _).
    rewrite Hrun1 in Hrun. injection Hrun as <- _ _.
    eapply filedUnderOwnID_extends; eassumption.
Qed.

Lemma filedUnderOwnID_storeWithB :
  scheduler.filedUnderOwnID examples.storeHeap examples.storeWithB.
Proof.
  intros id p H. simpl in H. apply lookup_singleton_Some in H as [<- <-].
  exists (examples.queuedJob "b"). split; reflexivity.
Defined.

(** In the store that holds "b", the invariant holds, and it holds again
    after the job "a" is created; the empty store has it too. *)
Lemma store_files_jobs_under_their_ID_witness :
  scheduler.filedUnderOwnID examples.storeHeap examples.storeWithB
  /\ scheduler.filedUnderOwnID examples.storeHeap scheduler.NewMemoryStore
  /\ exists h' s',
       scheduler.Create examples.storeHeap examples.storeWithB 1%positive
       = Some (h', s', None)
       /\ scheduler.filedUnderOwnID h' s'.
Proof.
  split; [exact filedUnderOwnID_storeWithB |]. split.
  - intros id p H. simpl in H. rewrite lookup_empty in H. discriminate.
  - destruct (store_files_jobs_under_their_ID examples.epoch examples.storeHeap
                examples.storeWithB filedUnderOwnID_storeWithB) as (HC & _).
    destruct (scheduler.Create examples.storeHeap examples.storeWithB 1%positive)
      as [[[h' s'] err]|] eqn:Hrun; [| vm_compute in Hrun; discriminate].
    assert (err = None) as ->.
    { vm_compute in Hrun. injection Hrun as _ _ <-. reflexivity. }
    exists h', s'. split; [reflexivity |]. eapply HC. exact Hrun.
Defined.

Lemma Count_insert_new (s : scheduler.MemoryStore) (id : string) (q : loc) :
  scheduler.jobs s !! id = None ->
  scheduler.Count (scheduler.mkMemoryStore (<[id := q]> (scheduler.jobs s)))
  = (scheduler.Count s + 1)%Z.
Proof.
  intros H. unfold scheduler.Count; simpl.
  rewrite (map_size_insert_None _ _ _ H). lia.
Qed.

(** X8: creating a job under a new ID and getting it back returns a copy
    with the same fields at an address that is neither the caller's pointer
    nor the store's; the count goes up by one; and deleting the job gives
    back the store as it was before the [Create]. *)
Theorem Create_Get_Delete_round_trip (h : heap.Heap) (s : scheduler.MemoryStore)
    (j : loc) (jv : job.Job) :
  scheduler.wellFormed h s ->
  heap.structs h !! j = Some jv ->
  scheduler.jobs s !! job.ID jv = None ->
  exists h1 s1 h2 q,
    scheduler.Create h s j = Some (h1, s1, None)
    /\ scheduler.Get h1 s1 (job.ID jv) = Some (h2, Some q, None)
    /\ heap.structs h2 !! q = Some jv
    /\ q <> j
    /\ scheduler.jobs s1 !! job.ID jv <> Some q
    /\ scheduler.Count s1 = (scheduler.Count s + 1)%Z
    /\ scheduler.Delete s1 (job.ID jv) = (s, None).
Proof.
  intros Hwf Hj Hnone.
  destruct (Create_spec h s j jv Hwf Hj) as [_ HC].
  destruct (HC Hnone) as (h1 & s1 & Hrun & Hst & _ & Hwf1).
  assert (Hs1 : exists p, s1 = scheduler.mkMemoryStore (<[job.ID jv := p]> (scheduler.jobs s))
                          /\ heap.structs h1 !! j = Some jv).
  { unfold scheduler.Create in Hrun. rewrite Hj, Hnone in Hrun.
    pose proof (new_keeps h jv j jv Hj) as Hk.
    destruct (heap.new h jv) as [p h1']. injection Hrun as <- <-. eauto. }
  destruct Hs1 as (p & -> & Hj1).
  destruct (Get_spec h1 _ (job.ID jv) Hwf1) as [_ HG].
  destruct HG as (h2 & q & jv' & Hget & Hst' & Hq & Hfresh & _).
  { simpl. rewrite lookup_insert_eq. discriminate. }
  rewrite Hst in Hst'. injection Hst' as <-.
  eexists h1, _, h2, q. split; [exact Hrun |]. split; [exact Hget |].
  split; [exact Hq |]. split; [intros ->; congruence |]. split.
  - simpl. rewrite lookup_insert_eq. intros [= ->].
    unfold scheduler.storedJob in Hst. simpl in Hst.
    rewrite lookup_insert_eq in Hst. congruence.
  - split; [apply Count_insert_new; exact Hnone |].
    unfold scheduler.Delete. simpl. rewrite lookup_insert_eq.
    rewrite (delete_insert_id _ _ _ Hnone). destruct s; reflexivity.
Qed.

Lemma Create_Get_Delete_round_trip_witness :
  scheduler.wellFormed examples.storeHeap examples.storeWithB
  /\ heap.structs examples.storeHeap !! 1%positive = Some (examples.queuedJob "a")
  /\ scheduler.jobs examples.storeWithB !! "a" = None
  /\ exists h1 s1 h2 q,
       scheduler.Create examples.storeHeap examples.storeWithB 1%positive
       = Some (h1, s1, None)
       /\ scheduler.Get h1 s1 "a" = Some (h2, Some q, None)
       /\ heap.structs h2 !! q = Some (examples.queuedJob "a")
       /\ scheduler.Count s1 = 2%Z
       /\ scheduler.Delete s1 "a" = (examples.storeWithB, None).
Proof.
  split; [exact wellFormed_storeWithB |]. split; [reflexivity |].
  split; [reflexivity |].
  destruct (Create_Get_Delete_round_trip examples.storeHeap examples.storeWithB
              1%positive (examples.queuedJob "a") wellFormed_storeWithB
              eq_refl eq_refl)
    as (h1 & s1 & h2 & q & HC & HG & Hq & _ & _ & Hcount & HD).
  exists h1, s1, h2, q. auto 10.
Defined.

(** X9: updating a stored job replaces it: a later [Get] returns a copy of
    the job passed to [Update], the count stays as it was, and the jobs
    under every other ID are untouched. *)
Theorem Update_then_Get (h : heap.Heap) (s : scheduler.MemoryStore)
    (j : loc) (jv : job.Job) :
  scheduler.wellFormed h s ->
  heap.structs h !! j = Some jv ->
  scheduler.jobs s !! job.ID jv <> None ->
  exists h1 s1 h2 q,
    scheduler.Update h s j = Some (h1, s1, None)
    /\ scheduler.Get h1 s1 (job.ID jv) = Some (h2, Some q, None)
    /\ heap.structs h2 !! q = Some jv
    /\ scheduler.Count s1 = scheduler.Count s
    /\ (forall id, id <> job.ID jv ->
          scheduler.storedJob h1 s1 id = scheduler.storedJob h s id).
Proof.
  intros Hwf Hj Hsome.
  destruct (Update_spec h s j jv Hwf Hj) as [_ HU].
  destruct (HU Hsome) as (h1 & s1 & Hrun & Hst & Hframe & Hwf1).
  assert (Hs1 : exists p, s1 = scheduler.mkMemoryStore
                                 (<[job.ID jv := p]> (scheduler.jobs s))).
  { unfold scheduler.Update in Hrun. rewrite Hj in Hrun.
    destruct (scheduler.jobs s !! job.ID jv); [| congruence].
    destruct (heap.new h jv) as [p h1']. injection Hrun as <- <-. eauto. }
  destruct Hs1 as (p & ->).
  destruct (Get_spec h1 _ (job.ID jv) Hwf1) as [_ HG].
  destruct HG as (h2 & q & jv' & Hget & Hst' & Hq & _).
  { simpl. rewrite lookup_insert_eq. discriminate. }
  rewrite Hst in Hst'. injection Hst' as <-.
  eexists h1, _, h2, q. split; [exact Hrun |]. split; [exact Hget |].
  split; [exact Hq |]. split; [| exact Hframe].
  unfold scheduler.Count; simpl.
  destruct (scheduler.jobs s !! job.ID jv) as [p0|] eqn:Hp0; [| congruence].
  rewrite map_size_insert_Some by eauto. reflexivity.
Qed.

(** The stored job "b" is replaced by the caller's running version of it. *)
Lemma Update_then_Get_witness :
  let h := heap.write examples.storeHeap 1%positive (examples.runningJob "b") in
  scheduler.wellFormed h examples.storeWithB
  /\ heap.structs h !! 1%positive = Some (examples.runningJob "b")
  /\ scheduler.jobs examples.storeWithB !! "b" <> None
  /\ exists h1 s1 h2 q,
       scheduler.Update h examples.storeWithB 1%positive = Some (h1, s1, None)
       /\ scheduler.Get h1 s1 "b" = Some (h2, Some q, None)
       /\ heap.structs h2 !! q = Some (examples.runningJob "b")
       /\ scheduler.Count s1 = 1%Z.
Proof.
  intros h.
  assert (Hwf : scheduler.wellFormed h examples.storeWithB).
  { apply wellFormed_write. exact wellFormed_storeWithB. }
  split; [exact Hwf |]. split; [reflexivity |]. split; [discriminate |].
  destruct (Update_then_Get h examples.storeWithB 1%positive
              (examples.runningJob "b") Hwf eq_refl ltac:(discriminate))
    as (h1 & s1 & h2 & q & HU & HG & Hq & Hcount & _).
  exists h1, s1, h2, q. auto.
Defined.

(** X10: [Delete] of a stored ID lowers the count by one, makes the ID
    unknown to [Get] and leaves every other entry of the map as it was; a
    cleared store counts 0, knows no ID, and lists nothing. *)
Theorem Delete_and_Clear (h : heap.Heap) (s : scheduler.MemoryStore) (jobID : string) :
  (scheduler.jobs s !! jobID <> None ->
   scheduler.Count (scheduler.Delete s jobID).1 = (scheduler.Count s - 1)%Z
   /\ scheduler.Get h (scheduler.Delete s jobID).1 jobID
      = Some (h, None, Some (job.JobNotFoundError jobID))
   /\ (forall id, id <> jobID ->
         scheduler.jobs (scheduler.Delete s jobID).1 !! id = scheduler.jobs s !! id))
  /\ scheduler.Count (scheduler.Clear s) = 0%Z
  /\ scheduler.Get h (scheduler.Clear s) jobID
     = Some (h, None, Some (job.JobNotFoundError jobID))
  /\ (forall filters, scheduler.List h (scheduler.Clear s) filters = Some (h, [], None)).
Proof.
  split; [| split; [| split]].
  - intros Hsome. unfold scheduler.Delete.
    destruct (scheduler.jobs s !! jobID) as [p|] eqn:Hp; [| congruence]. simpl.
    split; [| split].
    + unfold scheduler.Count; simpl.
      rewrite map_size_delete_Some by eauto.
      assert (size (scheduler.jobs s) <> 0%nat).
      { intros H0. apply map_size_empty_iff in H0. rewrite H0 in Hp.
        rewrite lookup_empty in Hp. discriminate. }
      lia.
    + unfold scheduler.Get; simpl. rewrite lookup_delete_eq. reflexivity.
    + intros id Hid. apply lookup_delete_ne. congruence.
  - unfold scheduler.Count, scheduler.Clear; simpl. rewrite map_size_empty. reflexivity.
  - unfold scheduler.Get, scheduler.Clear; simpl. rewrite lookup_empty. reflexivity.
  - intros filters. unfold scheduler.List, scheduler.Clear; simpl.
    rewrite map_to_list_empty. reflexivity.
Qed.

Lemma Delete_and_Clear_witness :
  scheduler.jobs examples.storeWithB !! "b" <> None
  /\ scheduler.Count (scheduler.Delete examples.storeWithB "b").1 = 0%Z
  /\ scheduler.Get examples.storeHeap (scheduler.Delete examples.storeWithB "b").1 "b"
     = Some (examples.storeHeap, None, Some (job.JobNotFoundError "b")).
Proof.
  split; [discriminate |].
  destruct (Delete_and_Clear examples.storeHeap examples.storeWithB "b") as (HD & _).
  destruct (HD ltac:(discriminate)) as (Hcount & Hget & _).
  split; [exact Hcount | exact Hget].
Defined.

Lemma write_same (h : heap.Heap) (p : loc) (jv : job.Job) :
  heap.structs h !! p = Some jv -> heap.write h p jv = h.
Proof.
  intros H. unfold heap.write. rewrite (insert_id _ _ _ H). destruct h; reflexivity.
Qed.

Lemma filedUnderOwnID_write (h : heap.Heap) (s : scheduler.MemoryStore)
    (p : loc) (jv jv' : job.Job) :
  scheduler.filedUnderOwnID h s -> heap.structs h !! p = Some jv ->
  job.ID jv' = job.ID jv ->
  scheduler.filedUnderOwnID (heap.write h p jv') s.
Proof.
  intros Hinv Hp Hid id q Hq. unfold heap.write; simpl.
  rewrite lookup_insert. case_decide as Hpq; [| apply Hinv; exact Hq].
  subst q. exists jv'. split; [reflexivity |].
  destruct (Hinv _ _ Hq) as (x & Hx & Hx'). congruence.
Qed.

(** X11: [UpdateStatus] of the store on a stored job: when the status
    machine accepts the transition, no error is returned and the job that a
    later [Get] returns is the stored one after the job's own
    [UpdateStatus]; when it rejects it, the validation error is returned and
    the heap is exactly as before.  The jobs under other IDs are untouched
    in both cases. *)
Theorem store_UpdateStatus_then_Get (now : Time) (h : heap.Heap)
    (s : scheduler.MemoryStore) (jobID : string) (status : job.JobStatus)
    (jv : job.Job) :
  scheduler.filedUnderOwnID h s ->
  scheduler.storedJob h s jobID = Some jv ->
  (job.CanTransitionTo jv status = true ->
   exists h1 h2 q,
     scheduler.UpdateStatus now h s jobID status = Some (h1, None)
     /\ scheduler.Get h1 s jobID = Some (h2, Some q, None)
     /\ heap.structs h2 !! q = Some (job.UpdateStatus now jv status).1
     /\ job.Status (job.UpdateStatus now jv status).1 = status
     /\ (forall id, id <> jobID ->
           scheduler.storedJob h1 s id = scheduler.storedJob h s id))
  /\ (job.CanTransitionTo jv status = false ->
      scheduler.UpdateStatus now h s jobID status
      = Some (h, Some (job.ValidationError
                         ("cannot transition from " ++ job.Status jv ++ " to " ++ status)))).
Proof.
  intros Hinv Hst. unfold scheduler.storedJob in Hst.
  destruct (scheduler.jobs s !! jobID) as [p|] eqn:Hp; [| discriminate].
  split.
  - intros Hcan.
    assert (Hup : (job.UpdateStatus now jv status).2 = None).
    { unfold job.UpdateStatus. rewrite Hcan. reflexivity. }
    assert (Hnew : job.Status (job.UpdateStatus now jv status).1 = status).
    { unfold job.UpdateStatus. rewrite Hcan. simpl. destruct_job jv. simpl.
      repeat case_eqb; simpl; destruct started, completed; reflexivity. }
    set (h1 := heap.write h p (job.UpdateStatus now jv status).1).
    assert (Hrun : scheduler.UpdateStatus now h s jobID status = Some (h1, None)).
    { unfold scheduler.UpdateStatus. rewrite Hp, Hst.
      destruct (job.UpdateStatus now jv status) as [jv' [e|]]; simpl in *;
        [discriminate | reflexivity]. }
    assert (Hinv1 : scheduler.filedUnderOwnID h1 s).
    { apply (filedUnderOwnID_write h s p jv); [exact Hinv | exact Hst |].
      apply UpdateStatus_keeps_ID. }
    destruct (Get_spec h1 s jobID (filedUnderOwnID_wellFormed _ _ Hinv1)) as [_ HG].
    destruct HG as (h2 & q & jv' & Hget & Hst' & Hq & _); [congruence |].
    unfold scheduler.storedJob in Hst'. rewrite Hp in Hst'.
    unfold h1, heap.write in Hst'; simpl in Hst'.
    rewrite lookup_insert_eq in Hst'. injection Hst' as <-.
    exists h1, h2, q. split; [exact Hrun |]. split; [exact Hget |].
    split; [exact Hq |]. split; [exact Hnew |].
    intros id Hid. unfold scheduler.storedJob.
    destruct (scheduler.jobs s !! id) as [p'|] eqn:Hp'; [| reflexivity].
    unfold h1, heap.write; simpl. apply lookup_insert_ne.
    intros <-. destruct (Hinv _ _ Hp) as (x & Hx & Hidx).
    destruct (Hinv _ _ Hp') as (y & Hy & Hidy). congruence.
  - intros Hcan. unfold scheduler.UpdateStatus. rewrite Hp, Hst.
    unfold job.UpdateStatus. rewrite Hcan. simpl.
    rewrite (write_same h p jv Hst). reflexivity.
Qed.

(** The stored queued job "b" is moved to running, and cannot be moved to
    completed from queued. *)
Lemma store_UpdateStatus_then_Get_witness :
  scheduler.filedUnderOwnID examples.storeHeap examples.storeWithB
  /\ scheduler.storedJob examples.storeHeap examples.storeWithB "b"
     = Some (examples.queuedJob "b")
  /\ job.CanTransitionTo (examples.queuedJob "b") job.JobStatusRunning = true
  /\ job.CanTransitionTo (examples.queuedJob "b") job.JobStatusCompleted = false
  /\ (exists h1 h2 q,
        scheduler.UpdateStatus (mkTime 20 0) examples.storeHeap examples.storeWithB
          "b" job.JobStatusRunning = Some (h1, None)
        /\ scheduler.Get h1 examples.storeWithB "b" = Some (h2, Some q, None)
        /\ heap.structs h2 !! q
           = Some (job.UpdateStatus (mkTime 20 0) (examples.queuedJob "b")
                     job.JobStatusRunning).1)
  /\ scheduler.UpdateStatus (mkTime 20 0) examples.storeHeap examples.storeWithB
       "b" job.JobStatusCompleted
     = Some (examples.storeHeap,
             Some (job.ValidationError "cannot transition from queued to completed")).
Proof.
  split; [exact filedUnderOwnID_storeWithB |]. split; [reflexivity |].
  split; [reflexivity |]. split; [reflexivity |].
  split.
  - destruct (store_UpdateStatus_then_Get (mkTime 20 0) examples.storeHeap
                examples.storeWithB "b" job.JobStatusRunning
                (examples.queuedJob "b") filedUnderOwnID_storeWithB eq_refl)
      as [Hacc _].
    destruct (Hacc eq_refl) as (h1 & h2 & q & H1 & H2 & H3 & _).
    exists h1, h2, q. auto.
  - destruct (store_UpdateStatus_then_Get (mkTime 20 0) examples.storeHeap
                examples.storeWithB "b" job.JobStatusCompleted
                (examples.queuedJob "b") filedUnderOwnID_storeWithB eq_refl)
      as [_ Hrej].
    exact (Hrej eq_refl).
Defined.

(** *** Listing *)

Lemma eq_filter_on_status (jv : job.Job) (status : job.JobStatus) :
  scheduler.matchesFilters jv [ job.mkFilter "status" "eq" (VString status) ] = true
  <-> job.Status jv = status.
Proof.
  simpl. unfold scheduler.matchesFilter; simpl.
  destruct (String.eqb_spec (job.Status jv) status); simpl; split; congruence.
Qed.

Lemma eq_filter_on_worker (jv : job.Job) (workerID : string) :
  scheduler.matchesFilters jv [ job.mkFilter "worker_id" "eq" (VString workerID) ] = true
  <-> job.WorkerID jv = workerID.
Proof.
  simpl. unfold scheduler.matchesFilter; simpl.
  destruct (String.eqb_spec (job.WorkerID jv) workerID); simpl; split; congruence.
Qed.

Lemma List_membership (h : heap.Heap) (s : scheduler.MemoryStore)
    (filters : list job.Filter) :
  scheduler.wellFormed h s ->
  exists h' result,
    scheduler.List h s filters = Some (h', result, None)
    /\ forall jv,
         (exists q, q ∈ result /\ heap.structs h' !! q = Some jv) <->
         (exists id, scheduler.storedJob h s id = Some jv)
         /\ scheduler.matchesFilters jv filters = true.
Proof.
  intros Hwf.
  destruct (List_spec h s filters Hwf) as (h' & result & Hrun & _ & _ & _ & Hall).
  exists h', result. split; [exact Hrun |].
  intros jv. rewrite <- elem_of_matchingJobs. split.
  - intros (q & Hq & Hjv). apply list_elem_of_lookup in Hq as [i Hi].
    destruct (Forall2_lookup_l _ _ _ _ _ Hall Hi) as (jv' & Hi' & Hjv').
    assert (jv' = jv) by congruence. subst.
    eapply list_elem_of_lookup_2; exact Hi'.
  - intros Hin. apply list_elem_of_lookup in Hin as [i Hi].
    destruct (Forall2_lookup_r _ _ _ _ _ Hall Hi) as (q & Hq & Hjv).
    exists q. split; [eapply list_elem_of_lookup_2; exact Hq | exact Hjv].
Qed.

(** X12: [GetJobsByStatus] returns copies of exactly the stored jobs whose
    status is the given one, and [GetJobsByWorker] of exactly those whose
    worker ID is the given one; neither returns an error. *)
Theorem GetJobsBy_status_and_worker (h : heap.Heap) (s : scheduler.MemoryStore)
    (key : string) :
  scheduler.wellFormed h s ->
  (exists h' result,
     scheduler.GetJobsByStatus h s key = Some (h', result, None)
     /\ forall jv,
          (exists q, q ∈ result /\ heap.structs h' !! q = Some jv) <->
          (exists id, scheduler.storedJob h s id = Some jv) /\ job.Status jv = key)
  /\ (exists h' result,
        scheduler.GetJobsByWorker h s key = Some (h', result, None)
        /\ forall jv,
             (exists q, q ∈ result /\ heap.structs h' !! q = Some jv) <->
             (exists id, scheduler.storedJob h s id = Some jv)
             /\ job.WorkerID jv = key).
Proof.
  intros Hwf. split.
  - destruct (List_membership h s [ job.mkFilter "status" "eq" (VString key) ] Hwf)
      as (h' & result & Hrun & Hmem).
    exists h', result. split; [exact Hrun |]. intros jv.
    rewrite Hmem, eq_filter_on_status. reflexivity.
  - destruct (List_membership h s [ job.mkFilter "worker_id" "eq" (VString key) ] Hwf)
      as (h' & result & Hrun & Hmem).
    exists h', result. split; [exact Hrun |]. intros jv.
    rewrite Hmem, eq_filter_on_worker. reflexivity.
Qed.

(** In the store that holds the queued job "b": one queued job, no running one. *)
Lemma GetJobsBy_status_and_worker_witness :
  scheduler.wellFormed examples.storeHeap examples.storeWithB
  /\ (exists h' q,
        scheduler.GetJobsByStatus examples.storeHeap examples.storeWithB "queued"
        = Some (h', [q], None)
        /\ heap.structs h' !! q = Some (examples.queuedJob "b"))
  /\ (exists h',
        scheduler.GetJobsByStatus examples.storeHeap examples.storeWithB "running"
        = Some (h', [], None)).
Proof.
  split; [exact wellFormed_storeWithB |].
  destruct (GetJobsBy_status_and_worker examples.storeHeap examples.storeWithB
              "queued" wellFormed_storeWithB) as [(h' & result & Hrun & Hmem) _].
  split.
  - vm_compute in Hrun. injection Hrun as <- <-.
    eexists _, _. split; [vm_compute; reflexivity | vm_compute; reflexivity].
  - eexists. vm_compute. reflexivity.
Defined.

Lemma listLoop_fresh (filters : list job.Filter) (entries : list (string * loc)) :
  forall (h : heap.Heap) (result : list loc),
    Forall (fun e => is_Some (heap.structs h !! e.2)) entries ->
    exists h' new,
      scheduler.listLoop h entries filters result = Some (h', (result ++ new)%list)
      /\ heap.structs h ⊆ heap.structs h'
      /\ NoDup new
      /\ Forall (fun q => heap.structs h !! q = None) new.
Proof.
  induction entries as [| [id p] rest IH]; intros h result Hall.
  - exists h, []. simpl. rewrite app_nil_r.
    repeat split; auto; constructor.
  - inversion Hall as [| ? ? [jv Hjv] Hrest]; subst. simpl in Hjv.
    rewrite (listLoop_cons _ _ _ _ _ _ _ Hjv).
    destruct (scheduler.matchesFilters jv filters).
    + pose proof (new_lookup h jv) as Hl. pose proof (new_extends h jv) as He.
      pose proof (new_fresh h jv) as Hf.
      set (q := (heap.new h jv).1) in *. set (h1 := (heap.new h jv).2) in *.
      assert (Hrest1 : Forall (fun e => is_Some (heap.structs h1 !! e.2)) rest).
      { eapply Forall_impl; [exact Hrest |]. intros e [x Hx]. exists x.
        eapply lookup_weaken; eassumption. }
      destruct (IH h1 (result ++ [q])%list Hrest1)
        as (h' & new & Hrun & Hsub & Hnd & Hnew).
      exists h', (q :: new). rewrite Hrun, <- app_assoc. simpl.
      split; [reflexivity |]. split; [etransitivity; eassumption |]. split.
      * constructor; [| exact Hnd]. intros Hin.
        rewrite Forall_forall in Hnew. specialize (Hnew q Hin). cbv beta in Hnew.
        congruence.
      * constructor; [exact Hf |].
        eapply Forall_impl; [exact Hnew |]. intros x Hx. cbv beta in Hx.
        destruct (heap.structs h !! x) as [y|] eqn:Hy; [| reflexivity].
        pose proof (lookup_weaken _ _ _ _ Hy He). congruence.
    + destruct (IH h result Hrest) as (h' & new & Hrun & Hsub & Hnd & Hnew).
      exists h', new. auto.
Qed.

(** X13: the pointers that [List] returns are new and pairwise distinct:
    none of them was allocated before the call and none is held by the
    store; the structs that existed before the call, the stored ones among
    them, are as they were. *)
Theorem List_returns_fresh_copies (h : heap.Heap) (s : scheduler.MemoryStore)
    (filters : list job.Filter) :
  scheduler.wellFormed h s ->
  exists h' result,
    scheduler.List h s filters = Some (h', result, None)
    /\ NoDup result
    /\ (forall q, q ∈ result ->
          heap.structs h !! q = None
          /\ forall id, scheduler.jobs s !! id <> Some q)
    /\ (forall p jv, heap.structs h !! p = Some jv -> heap.structs h' !! p = Some jv)
    /\ (forall id, scheduler.storedJob h' s id = scheduler.storedJob h s id).
Proof.
  intros Hwf. unfold scheduler.List.
  destruct (listLoop_fresh filters (map_to_list (scheduler.jobs s)) h [])
    as (h' & new & Hrun & Hsub & Hnd & Hnew).
  { apply Forall_forall. intros [id p] Hin.
    apply elem_of_map_to_list in Hin. simpl. eapply Hwf; exact Hin. }
  rewrite Hrun. simpl. exists h', new. split; [reflexivity |].
  split; [exact Hnd |]. rewrite Forall_forall in Hnew. split; [| split].
  - intros q Hq. split; [apply Hnew; exact Hq |].
    intros id Hid. destruct (Hwf _ _ Hid) as [x Hx].
    specialize (Hnew q Hq). congruence.
  - intros p jv Hp. eapply lookup_weaken; eassumption.
  - intros id. apply storedJob_extends; assumption.
Qed.

Lemma List_returns_fresh_copies_witness :
  scheduler.wellFormed examples.storeHeap examples.storeWithB
  /\ exists h' result,
       scheduler.List examples.storeHeap examples.storeWithB [] = Some (h', result, None)
       /\ NoDup result
       /\ scheduler.storedJob h' examples.storeWithB "b" = Some (examples.queuedJob "b").
Proof.
  split; [exact wellFormed_storeWithB |].
  destruct (List_returns_fresh_copies examples.storeHeap examples.storeWithB []
              wellFormed_storeWithB) as (h' & result & Hrun & Hnd & _ & _ & Hst).
  exists h', result. split; [exact Hrun |]. split; [exact Hnd |].
  rewrite Hst. reflexivity.
Defined.

(** ** Filters *)

Lemma fieldValue_is_Some (j : job.Job) (field : string) :
  field ∈ design.knownFields -> exists fv, scheduler.fieldValue j field = Some fv.
Proof.
  unfold design.knownFields, scheduler.fieldValue.
  rewrite !elem_of_cons, elem_of_nil.
  intros [-> | [-> | [-> | [-> | [-> | [-> | [-> | [-> | []]]]]]]]]; simpl;
    try (eexists; reflexivity).
  - destruct (job.StartedAt j); eexists; reflexivity.
  - destruct (job.CompletedAt j); eexists; reflexivity.
Qed.

Lemma unknown_operator_never_matches (j : job.Job) (filter : job.Filter) :
  job.Operator filter ∉ design.knownOperators -> scheduler.matchesFilter j filter = false.
Proof.
  unfold design.knownOperators. rewrite !elem_of_cons, elem_of_nil. intros H.
  unfold scheduler.matchesFilter.
  destruct (scheduler.fieldValue j (job.Field filter)); [| reflexivity].
  repeat case_eqb; try reflexivity; exfalso; apply H; tauto.
Qed.

Lemma listLoop_no_match (filters : list job.Filter) (entries : list (string * loc)) :
  (forall jv, scheduler.matchesFilters jv filters = false) ->
  forall (h : heap.Heap) (result : list loc),
    Forall (fun e => is_Some (heap.structs h !! e.2)) entries ->
    scheduler.listLoop h entries filters result = Some (h, result).
Proof.
  intros Hno. induction entries as [| [id p] rest IH]; intros h result Hall.
  - reflexivity.
  - inversion Hall as [| ? ? [jv Hjv] Hrest]; subst. simpl in Hjv.
    rewrite (listLoop_cons _ _ _ _ _ _ _ Hjv), Hno. apply IH. exact Hrest.
Qed.

(** X14: a filter that names a field outside the eight, or an operator
    outside the eight, matches no job, whatever its value (so ne on an
    unknown field is false as well); a [List] query that carries such a
    filter returns an empty list and no error, and allocates nothing. *)
Theorem unknown_field_or_operator (h : heap.Heap) (s : scheduler.MemoryStore)
    (filter : job.Filter) :
  job.Field filter ∉ design.knownFields
  \/ job.Operator filter ∉ design.knownOperators ->
  (forall j, scheduler.matchesFilter j filter = false)
  /\ (scheduler.wellFormed h s ->
      forall filters, filter ∈ filters ->
        scheduler.List h s filters = Some (h, [], None)).
Proof.
  intros Hbad.
  assert (Hno : forall j, scheduler.matchesFilter j filter = false).
  { intros j. destruct Hbad as [Hf | Ho];
      [apply unknown_field_never_matches | apply unknown_operator_never_matches];
      assumption. }
  split; [exact Hno |].
  intros Hwf filters Hin. unfold scheduler.List.
  assert (Hnone : forall jv, scheduler.matchesFilters jv filters = false).
  { intros jv. destruct (scheduler.matchesFilters jv filters) eqn:Hm; [| reflexivity].
    rewrite matchesFilters_conjunction in Hm. rewrite <- (Hno jv).
    symmetry. apply Hm. exact Hin. }
  assert (Hall : Forall (fun e => is_Some (heap.structs h !! e.2))
                   (map_to_list (scheduler.jobs s))).
  { apply Forall_forall. intros [id p] Hp.
    apply elem_of_map_to_list in Hp. simpl. eapply Hwf; exact Hp. }
  rewrite (listLoop_no_match filters _ Hnone h [] Hall). reflexivity.
Qed.

(** A filter on the field "owner", and one with the operator "like". *)
Lemma unknown_field_or_operator_witness :
  (job.Field (job.mkFilter "owner" "ne" (VString "x")) ∉ design.knownFields
   \/ job.Operator (job.mkFilter "owner" "ne" (VString "x")) ∉ design.knownOperators)
  /\ scheduler.matchesFilter (examples.queuedJob "b")
       (job.mkFilter "owner" "ne" (VString "x")) = false
  /\ scheduler.List examples.storeHeap examples.storeWithB
       [ job.mkFilter "status" "eq" (VString "queued");
         job.mkFilter "owner" "ne" (VString "x") ]
     = Some (examples.storeHeap, [], None).
Proof.
  assert (Hbad : job.Field (job.mkFilter "owner" "ne" (VString "x")) ∉ design.knownFields
                 \/ job.Operator (job.mkFilter "owner" "ne" (VString "x"))
                    ∉ design.knownOperators).
  { left. unfold design.knownFields. simpl.
    rewrite !elem_of_cons, elem_of_nil. intros H.
    repeat destruct H as [H | H]; try discriminate; contradiction. }
  split; [exact Hbad |].
  destruct (unknown_field_or_operator examples.storeHeap examples.storeWithB
              _ Hbad) as [Hno HL].
  split; [apply Hno |].
  apply (HL wellFormed_storeWithB). rewrite !elem_of_cons. right. left. reflexivity.
Defined.

(** X15: on a known field, gte matches exactly when lt does not and lte
    exactly when gt does not, and gt and lt never both match; when the field
    value and the filter value are not comparably typed, gt and lt do not
    match and gte and lte both do. *)
Theorem order_operators_complement (j : job.Job) (field : string) (v : value) :
  field ∈ design.knownFields ->
  let matches op := scheduler.matchesFilter j (job.mkFilter field op v) in
  matches "gte" = negb (matches "lt")
  /\ matches "lte" = negb (matches "gt")
  /\ matches "gt" && matches "lt" = false
  /\ (forall fv, scheduler.fieldValue j field = Some fv ->
        ~ design.comparablyTyped fv v ->
        matches "gt" = false /\ matches "lt" = false
        /\ matches "gte" = true /\ matches "lte" = true).
Proof.
  intros Hf matches. destruct (fieldValue_is_Some j field Hf) as [fv Hfv].
  unfold matches, scheduler.matchesFilter; simpl. rewrite Hfv.
  split; [| split; [| split]].
  - destruct (Z.leb_spec 0 (scheduler.compareValues fv v)),
      (Z.ltb_spec (scheduler.compareValues fv v) 0); simpl; try reflexivity; lia.
  - destruct (Z.leb_spec (scheduler.compareValues fv v) 0),
      (Z.ltb_spec 0 (scheduler.compareValues fv v)); simpl; try reflexivity; lia.
  - destruct (Z.ltb_spec 0 (scheduler.compareValues fv v)),
      (Z.ltb_spec (scheduler.compareValues fv v) 0); simpl; try reflexivity; lia.
  - intros fv' [= <-] Hnc.
    assert (Hzero : scheduler.compareValues fv v = 0%Z).
    { destruct fv, v; simpl in *; try reflexivity; exfalso; apply Hnc; exact I. }
    rewrite Hzero. repeat split; reflexivity.
Qed.

Lemma order_operators_complement_witness :
  "priority" ∈ design.knownFields
  /\ scheduler.matchesFilter (examples.queuedJob "a")
       (job.mkFilter "priority" "gte" (VInt 5)) = true
  /\ scheduler.matchesFilter (examples.queuedJob "a")
       (job.mkFilter "priority" "lt" (VInt 5)) = false
  /\ scheduler.matchesFilter (examples.queuedJob "a")
       (job.mkFilter "priority" "lte" (VOther "float64")) = true.
Proof.
  assert (Hin : "priority" ∈ design.knownFields).
  { unfold design.knownFields. rewrite !elem_of_cons. do 4 right. left. reflexivity. }
  split; [exact Hin |].
  destruct (order_operators_complement (examples.queuedJob "a") "priority" (VInt 5) Hin)
    as (Hgte & _).
  destruct (order_operators_complement (examples.queuedJob "a") "priority"
              (VOther "float64") Hin) as (_ & _ & _ & Hinc).
  split; [rewrite Hgte; reflexivity |]. split; [reflexivity |].
  apply (Hinc (VInt 5) eq_refl). intros H. exact H.
Defined.

Lemma string_ltb_asym (x y : string) : String.ltb x y = true -> String.ltb y x = false.
Proof.
  unfold String.ltb. rewrite (String.compare_antisym x y).
  destruct (String.compare y x); simpl; congruence.
Qed.

(** X16: gt and lt match exactly when the field is known, the field value
    and the filter value are comparably typed, and the field value is above,
    respectively below, the filter value. *)
Theorem strict_order_operators (j : job.Job) (field : string) (v : value) :
  (scheduler.matchesFilter j (job.mkFilter field "gt" v) = true <->
   exists fv, scheduler.fieldValue j field = Some fv
     /\ design.comparablyTyped fv v /\ design.ordered "gt" fv v)
  /\ (scheduler.matchesFilter j (job.mkFilter field "lt" v) = true <->
      exists fv, scheduler.fieldValue j field = Some fv
        /\ design.comparablyTyped fv v /\ design.ordered "lt" fv v).
Proof.
  split; (split; [apply strict_order_filters_sound; auto |]);
    intros (fv & Hfv & Hc & Ho); unfold scheduler.matchesFilter; simpl;
    rewrite Hfv; destruct fv, v; simpl in Hc; try contradiction; simpl in Ho;
    destruct Ho as [[Hop Ho] | [[Hop Ho] | [[Hop Ho] | [Hop Ho]]]];
    try discriminate Hop; simpl; unfold Before, After.
  - destruct (Z.ltb_spec n n0); [lia |]. destruct (Z.ltb_spec n0 n); [reflexivity | lia].
  - rewrite (string_ltb_asym _ _ Ho), Ho. reflexivity.
  - destruct (Z.ltb_spec (unixNano t) (unixNano t0)); [lia |].
    destruct (Z.ltb_spec (unixNano t0) (unixNano t)); [reflexivity | lia].
  - destruct (Z.ltb_spec n n0); [reflexivity | lia].
  - rewrite Ho. reflexivity.
  - destruct (Z.ltb_spec (unixNano t) (unixNano t0)); [reflexivity | lia].
Qed.

(** X19: on a known field ne is the negation of eq; in, given a value of
    type [[]interface{}], matches exactly when eq matches for one of its
    elements, and does not match when its value is of any other type, a
    slice of another element type such as [[]string] included. *)
Theorem equality_operators (j : job.Job) (field : string) :
  (field ∈ design.knownFields ->
   forall v, scheduler.matchesFilter j (job.mkFilter field "ne" v)
             = negb (scheduler.matchesFilter j (job.mkFilter field "eq" v)))
  /\ (forall vs,
        scheduler.matchesFilter j (job.mkFilter field "in" (VSlice vs)) = true <->
        exists v, v ∈ vs
                  /\ scheduler.matchesFilter j (job.mkFilter field "eq" v) = true)
  /\ (forall v, (forall vs, v <> VSlice vs) ->
        scheduler.matchesFilter j (job.mkFilter field "in" v) = false).
Proof.
  unfold scheduler.matchesFilter; simpl. split; [| split].
  - intros Hf v. destruct (fieldValue_is_Some j field Hf) as [fv ->]. reflexivity.
  - intros vs. destruct (scheduler.fieldValue j field) as [fv|].
    + rewrite existsb_exists. split.
      * intros (v & Hin & Hv). exists v. split; [apply list_elem_of_In; exact Hin | exact Hv].
      * intros (v & Hin & Hv). exists v. split; [apply list_elem_of_In; exact Hin | exact Hv].
    + split; [discriminate | intros (v & _ & [=])].
  - intros v Hv. destruct (scheduler.fieldValue j field) as [fv|]; [| reflexivity].
    destruct v; try reflexivity. exfalso. eapply Hv. reflexivity.
Qed.

Lemma equality_operators_witness :
  "status" ∈ design.knownFields
  /\ scheduler.matchesFilter (examples.queuedJob "a")
       (job.mkFilter "status" "ne" (VString "running")) = true
  /\ scheduler.matchesFilter (examples.queuedJob "a")
       (job.mkFilter "status" "in" (VSlice [VString "running"; VString "queued"])) = true
  /\ scheduler.matchesFilter (examples.queuedJob "a")
       (job.mkFilter "status" "in" (VOther "[]string")) = false.
Proof.
  assert (Hin : "status" ∈ design.knownFields).
  { unfold design.knownFields. rewrite !elem_of_cons. do 2 right. left. reflexivity. }
  split; [exact Hin |].
  destruct (equality_operators (examples.queuedJob "a") "status") as (Hne & Hmem & Hno).
  split; [| split].
  - rewrite (Hne Hin). reflexivity.
  - apply Hmem. exists (VString "queued"). split; [| reflexivity].
    rewrite !elem_of_cons. right. left. reflexivity.
  - apply Hno. intros vs. discriminate.
Defined.

(** *** The contains operator and the case of letters *)

Lemma length_foldCase (s : string) : String.length (design.foldCase s) = String.length s.
Proof. induction s as [| c s IH]; simpl; [reflexivity | now rewrite IH]. Qed.

Lemma foldCase_substring (i n : nat) (s : string) :
  design.foldCase (String.substring i n s) = String.substring i n (design.foldCase s).
Proof.
  revert i n. induction s as [| c s IH]; intros i n; simpl.
  - destruct i, n; reflexivity.
  - destruct i as [| i].
    + destruct n as [| n]; simpl; [reflexivity | now rewrite IH].
    + apply IH.
Qed.

Lemma occursIgnoringCase_foldCase (substr substr' str str' : string) :
  design.foldCase str = design.foldCase str' ->
  design.foldCase substr = design.foldCase substr' ->
  design.occursIgnoringCase substr str -> design.occursIgnoringCase substr' str'.
Proof.
  intros Hs Hsub (i & Hle & Heq).
  assert (Hl1 : String.length str = String.length str').
  { rewrite <- (length_foldCase str), Hs. apply length_foldCase. }
  assert (Hl2 : String.length substr = String.length substr').
  { rewrite <- (length_foldCase substr), Hsub. apply length_foldCase. }
  exists i. split; [lia |].
  rewrite <- Hl2, <- Hsub, <- Heq, !foldCase_substring, Hs. reflexivity.
Qed.

(** X18: [contains] looks at its two arguments only up to the case of ASCII
    letters: strings that are equal after folding give the same answer; in
    particular a string contains every string that equals it up to case. *)
Theorem contains_ignores_case (str str' substr substr' : string) :
  design.foldCase str = design.foldCase str' ->
  design.foldCase substr = design.foldCase substr' ->
  scheduler.contains str substr = scheduler.contains str' substr'
  /\ (design.foldCase str = design.foldCase substr ->
      scheduler.contains str substr = true).
Proof.
  intros Hs Hsub.
  assert (Hempty : forall a b, design.foldCase a = design.foldCase b -> a = "" -> b = "").
  { intros a b H ->. destruct b; [reflexivity | discriminate]. }
  assert (Hiff : scheduler.contains str substr = true
                 <-> scheduler.contains str' substr' = true).
  { rewrite !contains_spec. split.
    - intros [[H1 H2] | [H1 H2]].
      + left. split; eapply Hempty; eauto.
      + right. split.
        * intros H. apply H1. eapply Hempty; [symmetry |]; eauto.
        * eapply occursIgnoringCase_foldCase; eauto.
    - intros [[H1 H2] | [H1 H2]].
      + left. split; eapply Hempty; [symmetry | | symmetry |]; eauto.
      + right. split.
        * intros H. apply H1. eapply Hempty; eauto.
        * eapply occursIgnoringCase_foldCase; [symmetry | symmetry |]; eauto. }
  split.
  - destruct (scheduler.contains str substr), (scheduler.contains str' substr');
      try reflexivity; [symmetry |]; apply Hiff; reflexivity.
  - intros Heq. apply contains_spec.
    destruct substr as [| c sub].
    + left. split; [reflexivity |]. eapply Hempty; [symmetry; exact Heq | reflexivity].
    + right. split; [discriminate |]. exists 0%nat.
      assert (Hl : String.length str = String.length (String c sub)).
      { rewrite <- (length_foldCase str), Heq. apply length_foldCase. }
      split; [lia |]. rewrite <- Hl, substring_full. exact Heq.
Qed.

Lemma contains_ignores_case_witness :
  design.foldCase "Job-17-AB" = design.foldCase "job-17-ab"
  /\ design.foldCase "B-17" = design.foldCase "b-17"
  /\ scheduler.contains "Job-17-AB" "B-17" = scheduler.contains "job-17-ab" "b-17"
  /\ scheduler.contains "job-17-ab" "b-17" = true.
Proof.
  split; [reflexivity |]. split; [reflexivity |].
  destruct (contains_ignores_case "Job-17-AB" "job-17-ab" "B-17" "b-17"
              eq_refl eq_refl) as [H _].
  split; [exact H | reflexivity].
Defined.

(** ** The worker: starting, stopping and running a job *)

Lemma load_not_negative (w : worker.Worker) : (0 <= worker.GetCurrentLoad w)%Z.
Proof. unfold worker.GetCurrentLoad. lia. Qed.

(** X20: a worker made by [NewWorker] accepts no job before [Start]; after
    [Start] it accepts one exactly when its capacity is positive, and that
    also when [Start] failed to create the working directory and returned
    an error; [Start] returns no error when the working directory is the
    empty string, whatever the file system answers. *)
Theorem new_worker_accepts_after_Start (now : Time) (cfg : worker.WorkerConfig)
    (executor : job.Job -> option job.JobResult * option job.error)
    (Clean : string -> string) (Stat MkdirAll : string -> option job.error) :
  let w0 := worker.NewWorker now cfg executor in
  let started := worker.Start Clean Stat MkdirAll w0 in
  worker.CanAcceptJob w0 = false
  /\ (worker.CanAcceptJob started.1 = true <-> (0 < worker.MaxConcurrentJobs cfg)%Z)
  /\ (started.2 <> None <->
      worker.WorkingDirectory cfg <> ""
      /\ Stat (Clean (worker.WorkingDirectory cfg)) <> None
      /\ MkdirAll (Clean (worker.WorkingDirectory cfg)) <> None)
  /\ worker.currentJobs started.1 = ∅.
Proof.
  simpl. split; [reflexivity |]. split; [| split].
  - assert (Hacc : worker.CanAcceptJob
                     (worker.set_isRunning true (worker.NewWorker now cfg executor)) = true
                   <-> (0 < worker.MaxConcurrentJobs cfg)%Z).
    { unfold worker.CanAcceptJob, worker.IsHealthy, worker.GetCurrentLoad,
        worker.GetCapacity; simpl. rewrite map_size_empty. simpl.
      apply Z.ltb_lt. }
    unfold worker.Start.
    destruct (worker.ensureDirectory Clean Stat MkdirAll _); simpl; exact Hacc.
  - unfold worker.Start, worker.ensureDirectory; simpl.
    destruct (String.eqb_spec (worker.WorkingDirectory cfg) "") as [He | He]; simpl.
    + split; [congruence | intros (H & _); congruence].
    + destruct (Stat (Clean (worker.WorkingDirectory cfg))) as [e|]; simpl.
      * destruct (MkdirAll (Clean (worker.WorkingDirectory cfg))) as [e'|]; simpl.
        -- split; [intros _; repeat split; congruence | discriminate].
        -- split; [congruence | intros (_ & _ & H); congruence].
      * split; [congruence | intros (_ & H & _); congruence].
  - unfold worker.Start.
    destruct (worker.ensureDirectory Clean Stat MkdirAll _); reflexivity.
Qed.

(** X21: [Stop] marks the worker as not running before it waits, so the
    worker accepts no job afterwards and [ExecuteJob] returns its
    cannot-accept error; [Stop] removes nothing from the in-flight set; it
    returns an error only when the context was cancelled, and returns nil at
    the timeout, also while jobs are still in flight. *)
Theorem Stop_closes_the_worker (events : list worker.stopEvent) (w : worker.Worker) :
  let stopped := worker.Stop events w in
  worker.CanAcceptJob stopped.1 = false
  /\ worker.IsHealthy stopped.1 = false
  /\ worker.currentJobs stopped.1 = worker.currentJobs w
  /\ (forall now h j,
        exists msg,
          worker.ExecuteJob now h stopped.1 j
          = (h, stopped.1, [], worker.Returns None (Some (job.errorString msg))))
  /\ (forall err, stopped.2 = Some (Some err) -> worker.StopDone err ∈ events)
  /\ (forall rest, events = worker.StopTimeout :: rest -> stopped.2 = Some None)
  /\ (stopped.2 = None ->
      forall e, e ∈ events -> exists load, e = worker.StopTick load /\ load <> 0%Z).
Proof.
  simpl.
  assert (Hno : worker.CanAcceptJob (worker.set_isRunning false w) = false).
  { unfold worker.CanAcceptJob, worker.IsHealthy; simpl.
    rewrite andb_false_r. reflexivity. }
  split; [exact Hno |]. split.
  { unfold worker.IsHealthy; simpl. apply andb_false_r. }
  split; [reflexivity |]. split.
  { intros now h j. unfold worker.ExecuteJob. rewrite Hno. simpl. eauto. }
  split; [| split].
  - induction events as [| [| load | e] rest IH]; simpl; intros err H.
    + discriminate.
    + discriminate.
    + destruct (load =? 0)%Z; [discriminate |].
      apply elem_of_cons. right. apply IH. exact H.
    + injection H as ->. apply elem_of_cons. left. reflexivity.
  - intros rest ->. reflexivity.
  - induction events as [| [| load | e] rest IH]; simpl; intros H x Hx.
    + inversion Hx.
    + discriminate.
    + destruct (Z.eqb_spec load 0) as [| Hne]; [discriminate |].
      apply elem_of_cons in Hx as [-> | Hx]; [eauto | apply IH; assumption].
    + discriminate.
Qed.

(** X22: when the worker accepts a queued job, the executor is handed the
    job once, with status running, the worker's ID, and [StartedAt] set (to
    the time of the call if it was unset); [ExecuteJob] returns what the
    executor returned, and leaves the job in that state: it never writes the
    result, a terminal status or [CompletedAt] into the job. *)
Theorem ExecuteJob_runs_a_queued_job (now : Time) (h : heap.Heap)
    (w : worker.Worker) (j : loc) (jv : job.Job) :
  worker.CanAcceptJob w = true ->
  heap.structs h !! j = Some jv ->
  job.Status jv = job.JobStatusQueued ->
  exists jv',
    heap.structs (worker.ExecuteJob now h w j).1.1.1 !! j = Some jv'
    /\ (worker.ExecuteJob now h w j).1.2 = [jv']
    /\ job.Status jv' = job.JobStatusRunning
    /\ job.WorkerID jv' = worker.id w
    /\ job.StartedAt jv' = Some (default now (job.StartedAt jv))
    /\ job.CompletedAt jv' = job.CompletedAt jv
    /\ job.Output jv' = job.Output jv /\ job.Error_ jv' = job.Error_ jv
    /\ job.ExitCode jv' = job.ExitCode jv
    /\ (worker.ExecuteJob now h w j).2
       = match worker.executor w jv' with
         | (None, None) => worker.Panics
         | (result, err) => worker.Returns result err
         end.
Proof.
  intros Hacc Hj Hq. unfold worker.ExecuteJob. rewrite Hacc, Hj. simpl.
  assert (Hup : job.UpdateStatus now (job.set_WorkerID (worker.id w) jv)
                  job.JobStatusRunning
                = (job.set_StartedAt (Some (default now (job.StartedAt jv)))
                     (job.set_Status job.JobStatusRunning
                        (job.set_WorkerID (worker.id w) jv)), None)).
  { unfold job.UpdateStatus, job.CanTransitionTo. simpl. rewrite Hq. simpl.
    destruct_job jv; simpl. destruct started; reflexivity. }
  rewrite Hup.
  set (jv' := job.set_StartedAt _ _).
  exists jv'.
  destruct (worker.executor w jv') as [[r|] [e|]]; simpl;
    (split; [apply lookup_insert_eq |]); repeat split; reflexivity.
Qed.

(** The idle worker runs the queued job "a" with the executor that prints
    "hi": the result is completed, the job is left running. *)
Lemma ExecuteJob_runs_a_queued_job_witness :
  worker.CanAcceptJob examples.idleWorker = true
  /\ heap.structs examples.callerHeap !! 1%positive = Some (examples.queuedJob "a")
  /\ job.Status (examples.queuedJob "a") = job.JobStatusQueued
  /\ exists jv',
       heap.structs
         (worker.ExecuteJob (mkTime 20 0) examples.callerHeap
            examples.idleWorker 1%positive).1.1.1 !! 1%positive = Some jv'
       /\ job.Status jv' = job.JobStatusRunning
       /\ job.CompletedAt jv' = None.
Proof.
  split; [reflexivity |]. split; [reflexivity |]. split; [reflexivity |].
  destruct (ExecuteJob_runs_a_queued_job (mkTime 20 0) examples.callerHeap
              examples.idleWorker 1%positive (examples.queuedJob "a")
              eq_refl eq_refl eq_refl)
    as (jv' & Hjv & _ & Hst & _ & _ & Hc & _).
  exists jv'. split; [exact Hjv |]. split; [exact Hst | exact Hc].
Defined.

Lemma ToJob_is_pending (ParseDuration : string -> option Duration) (timestamp : Z)
    (randomBytes : byte * byte * byte * byte) (now : Time)
    (jr : job.JobRequest) (jv : job.Job) :
  (job.ToJob ParseDuration timestamp randomBytes now jr).2 = inl jv ->
  job.Status jv = job.JobStatusPending
  /\ job.StartedAt jv = None /\ job.CompletedAt jv = None /\ job.WorkerID jv = "".
Proof.
  unfold job.ToJob.
  destruct (job.Validate jr) as [jr1 [e|]]; simpl; [discriminate |].
  destruct (negb _); simpl.
  - destruct (ParseDuration _); simpl; [| discriminate].
    destruct (_ =? 0)%Z; intros [= <-]; repeat split; reflexivity.
  - destruct (_ =? 0)%Z; intros [= <-]; repeat split; reflexivity.
Qed.

(** X23: a job as [ToJob] returns it is not yet runnable: it is pending, so
    a worker that accepts it returns the error of the rejected transition
    from pending to running without calling the executor; the job can be
    queued, and no sequence of [UpdateStatus] calls brings its status back
    to pending once it has left it. *)
Theorem job_from_ToJob_must_be_queued (ParseDuration : string -> option Duration)
    (timestamp : Z) (randomBytes : byte * byte * byte * byte) (created : Time)
    (jr : job.JobRequest) (jv : job.Job) :
  (job.ToJob ParseDuration timestamp randomBytes created jr).2 = inl jv ->
  (forall now h w j,
     worker.CanAcceptJob w = true -> heap.structs h !! j = Some jv ->
     (worker.ExecuteJob now h w j).2
     = worker.Returns None
         (Some (job.errorString
                  "failed to update job status: cannot transition from pending to running"))
     /\ (worker.ExecuteJob now h w j).1.2 = [])
  /\ (forall now, (job.UpdateStatus now jv job.JobStatusQueued).2 = None)
  /\ (forall now status j',
        job.Status j' <> job.JobStatusPending ->
        job.Status (job.UpdateStatus now j' status).1 <> job.JobStatusPending).
Proof.
  intros Hjob. destruct (ToJob_is_pending _ _ _ _ _ _ Hjob) as (Hst & _).
  split; [| split].
  - intros now h w j Hacc Hj. unfold worker.ExecuteJob. rewrite Hacc, Hj. simpl.
    unfold job.UpdateStatus, job.CanTransitionTo. simpl. rewrite Hst. simpl.
    split; reflexivity.
  - intros now. unfold job.UpdateStatus, job.CanTransitionTo. rewrite Hst. reflexivity.
  - intros now status j' Hne. unfold job.UpdateStatus.
    destruct (job.CanTransitionTo j' status) eqn:Hc; simpl; [| exact Hne].
    apply CanTransitionTo_table in Hc. unfold design.transitionTable in Hc.
    rewrite !elem_of_cons, elem_of_nil in Hc.
    destruct_job j'. simpl in *. unfold_statuses.
    repeat (destruct Hc as [Hc | Hc]); try contradiction;
      injection Hc as -> ->; simpl; destruct started, completed; simpl; discriminate.
Qed.

Lemma job_from_ToJob_must_be_queued_witness :
  exists jv,
    (job.ToJob (fun _ => None) 1700000000 (x00, x01, x02, x03)%byte examples.epoch
       examples.httpRequest).2 = inl jv
    /\ (worker.ExecuteJob (mkTime 20 0)
          (heap.mkHeap {[ 1%positive := jv ]} ∅ ∅) examples.idleWorker 1%positive).1.2
       = [].
Proof.
  eexists. split; [reflexivity |].
  refine (proj2 (proj1 (job_from_ToJob_must_be_queued (fun _ => None) 1700000000
                          (x00, x01, x02, x03)%byte examples.epoch
                          examples.httpRequest _ eq_refl)
                   (mkTime 20 0) _ examples.idleWorker 1%positive eq_refl _)).
  apply lookup_singleton_eq.
Defined.

(** ** The executor, continued *)

(** X24: [Execute] returns an error exactly for the job types that
    [CanExecute] rejects, with the message naming the type; a result, when
    there is one, carries the job's ID and the two clock readings, its
    status is completed or failed, and its duration is not negative when
    the clock did not go back between the readings. *)
Theorem Execute_and_CanExecute
    (executeCommand executeScript executeHTTP executeFile
       : job.Job -> string * Z * option job.error)
    (startTime endTime : Time) (j : job.Job) :
  let ran := worker.Execute executeCommand executeScript executeHTTP executeFile
               startTime endTime j in
  (worker.CanExecute (job.Type_ j) = false ->
   ran = (None, Some (job.errorString ("unsupported job type: " ++ job.Type_ j))))
  /\ (worker.CanExecute (job.Type_ j) = true ->
      exists r, ran = (Some r, None)
        /\ job.res_JobID r = job.ID j
        /\ job.res_StartedAt r = startTime /\ job.res_CompletedAt r = endTime
        /\ (job.res_Status r = job.JobStatusCompleted
            \/ job.res_Status r = job.JobStatusFailed)
        /\ ((unixNano startTime <= unixNano endTime)%Z ->
            (0 <= job.res_Duration r)%Z)).
Proof.
  simpl. unfold worker.Execute, worker.CanExecute.
  assert (Hfin : forall out : string * Z * option job.error,
            exists r,
              (let '(output, exitCode, err) := out in
               let '(status, errorMessage, exitCode0) :=
                 match err with
                 | Some e => (job.JobStatusFailed, job.Error e,
                              if (exitCode =? 0)%Z then 1%Z else exitCode)
                 | None => (job.JobStatusCompleted, "", exitCode)
                 end in
               (Some {| job.res_JobID := job.ID j; job.res_Status := status;
                        job.res_Output := output; job.res_Error := errorMessage;
                        job.res_ExitCode := exitCode0;
                        job.res_StartedAt := startTime;
                        job.res_CompletedAt := endTime;
                        job.res_Duration := worker.Sub endTime startTime |},
                @None job.error)) = (Some r, None)
              /\ job.res_JobID r = job.ID j
              /\ job.res_StartedAt r = startTime /\ job.res_CompletedAt r = endTime
              /\ (job.res_Status r = job.JobStatusCompleted
                  \/ job.res_Status r = job.JobStatusFailed)
              /\ ((unixNano startTime <= unixNano endTime)%Z ->
                  (0 <= job.res_Duration r)%Z)).
  { intros [[output exitCode] [e|]]; eexists; (split; [reflexivity |]); simpl;
      repeat split; auto using Sub_nonneg. }
  repeat case_eqb; simpl; split; intros H; try discriminate; try reflexivity;
    apply Hfin.
Qed.

(** A job of type "docker" is refused; the http job is executed. *)
Lemma Execute_and_CanExecute_witness :
  worker.CanExecute "docker" = false
  /\ worker.Execute examples.failingStrategy examples.failingStrategy
       examples.failingStrategy examples.failingStrategy
       examples.epoch examples.epoch
       (job.mkJob "x" "docker" "" "" "" "" "" 0%Z 0%Z 0%Z (mkSlice None 0) None ""
          "queued" examples.epoch None None "" "" 0%Z)
     = (None, Some (job.errorString "unsupported job type: docker")).
Proof.
  split; [reflexivity |].
  apply (Execute_and_CanExecute examples.failingStrategy examples.failingStrategy
           examples.failingStrategy examples.failingStrategy
           examples.epoch examples.epoch).
  reflexivity.
Defined.

Lemma string_app_assoc (a b c : string) : (a ++ b) ++ c = a ++ b ++ c.
Proof.
  induction a as [| x a IH]; [reflexivity |].
  change (String x ((a ++ b) ++ c) = String x (a ++ b ++ c)).
  f_equal. exact IH.
Qed.

(** *** File jobs *)

Section Strategy_properties.

Variable workingDir : string.
Variable Fields : string -> list string.
Variable IsAbs : string -> bool.
Variable Join : string -> string -> string.
Variable Environ : list string.
Variable Run : string -> list string -> string -> list string
               -> string * string * option worker.runError.
Variable WriteFile : string -> string -> option job.error.
Variable ReadFile : string -> string + job.error.
Variables statFile listDirectory : string -> string * Z * option job.error.
Variables executeHTTP : job.Job -> string * Z * option job.error.

Local Abbreviation executeFile :=
  (worker.executeFile workingDir IsAbs Join ReadFile statFile listDirectory).
Local Abbreviation executeCommand :=
  (worker.executeCommand workingDir Fields Environ Run).
Local Abbreviation executeScript :=
  (worker.executeScript workingDir Join Environ Run WriteFile).
Local Abbreviation JobExecutor_Execute h :=
  (worker.Execute (executeCommand h) (executeScript h) executeHTTP (executeFile h)).

(** X25: a file job whose environment sets FILE_OPERATION to anything but
    read, stat or list (the empty string included) is not run against the
    file system: the strategy returns exit code 1 with the error
    "unsupported file operation", and [Execute] reports a failed result with
    exit code 1 and that message; when the variable is not set (or the
    environment is nil) the file is read, at the path joined to the working
    directory unless the path is absolute. *)
Theorem file_operation_dispatch (h : heap.Heap) (j : job.Job)
    (startTime endTime : Time) :
  (forall op,
     heap.environmentOf h j !! "FILE_OPERATION" = Some op ->
     op <> "read" -> op <> "stat" -> op <> "list" ->
     executeFile h j
     = ("", 1%Z, Some (job.errorString ("unsupported file operation: " ++ op)))
     /\ (job.Type_ j = job.JobTypeFile ->
         exists r,
           JobExecutor_Execute h startTime endTime j = (Some r, None)
           /\ job.res_Status r = job.JobStatusFailed
           /\ job.res_ExitCode r = 1%Z
           /\ job.res_Error r = "unsupported file operation: " ++ op
           /\ job.res_Output r = ""))
  /\ (heap.environmentOf h j !! "FILE_OPERATION" = None ->
      executeFile h j
      = worker.readFile ReadFile
          (if IsAbs (job.FilePath j) then job.FilePath j
           else Join workingDir (job.FilePath j))).
Proof.
  split.
  - intros op Hop Hr Hs Hl.
    assert (Hrun : executeFile h j
                   = ("", 1%Z,
                      Some (job.errorString ("unsupported file operation: " ++ op)))).
    { unfold worker.executeFile. rewrite Hop.
      destruct (String.eqb_spec op "read"); [congruence |].
      destruct (String.eqb_spec op "stat"); [congruence |].
      destruct (String.eqb_spec op "list"); [congruence |]. reflexivity. }
    split; [exact Hrun |].
    intros Hty. unfold worker.Execute. rewrite Hty. simpl. rewrite Hrun.
    eexists. split; [reflexivity |]. simpl. repeat split; reflexivity.
  - intros Hnone. unfold worker.executeFile. rewrite Hnone. simpl.
    destruct (IsAbs (job.FilePath j)); reflexivity.
Qed.

(** X26: what a command or script job returns after the process has run:
    the output is stdout alone when stderr is empty, stderr alone when
    stdout is empty, and otherwise stdout, a line "---STDERR---" and stderr;
    the exit code is 0 without an error, the code of the process when it
    exited with one, and 1 for any other failure.  A command that splits
    into no words is not run and gives exit code 1 with the error "empty
    command", and a script whose file cannot be written is not run
    either. *)
Theorem process_output_and_exit_code (h : heap.Heap) (j : job.Job) :
  let combined (stdout stderr : string) :=
    if String.eqb stderr "" then stdout
    else if String.eqb stdout "" then stderr
    else stdout ++ worker.LF ++ "---STDERR---" ++ worker.LF ++ stderr in
  let code (err : option worker.runError) :=
    match err with
    | None => 0%Z
    | Some (worker.ExitError c _) => c
    | Some (worker.RunFailure _) => 1%Z
    end in
  (Fields (job.Command j) = [] ->
   executeCommand h j = ("", 1%Z, Some (job.errorString "empty command")))
  /\ (forall name args stdout stderr err,
        Fields (job.Command j) = name :: args ->
        Run name args workingDir (Environ ++ worker.jobEnv h j)%list
        = (stdout, stderr, err) ->
        executeCommand h j
        = (combined stdout stderr, code err, worker.runErrorValue <$> err))
  /\ (forall e,
        WriteFile (Join workingDir ("script_" ++ job.ID j ++ ".sh")) (job.Script j)
        = Some e ->
        executeScript h j
        = ("", 1%Z,
           Some (job.errorString ("failed to write script file: " ++ job.Error e))))
  /\ (forall stdout stderr err,
        WriteFile (Join workingDir ("script_" ++ job.ID j ++ ".sh")) (job.Script j)
        = None ->
        Run "/bin/bash" [Join workingDir ("script_" ++ job.ID j ++ ".sh")] workingDir
            (Environ ++ worker.jobEnv h j)%list
        = (stdout, stderr, err) ->
        executeScript h j
        = (combined stdout stderr, code err, worker.runErrorValue <$> err)).
Proof.
  assert (Hcomb : forall stdout stderr : string,
            (if (0 <? String.length stderr)%nat
             then (if negb (String.eqb stdout "")
                   then stdout ++ worker.LF ++ "---STDERR---" ++ worker.LF
                   else stdout) ++ stderr
             else stdout)
            = (if String.eqb stderr "" then stdout
               else if String.eqb stdout "" then stderr
               else stdout ++ worker.LF ++ "---STDERR---" ++ worker.LF ++ stderr)).
  { intros stdout stderr. destruct stderr as [| c s]; [reflexivity |].
    destruct stdout as [| c' s']; [reflexivity |].
    cbn [Nat.ltb Nat.leb String.length String.eqb negb].
    rewrite !string_app_assoc. reflexivity. }
  simpl. split; [| split; [| split]].
  - intros Hf. unfold worker.executeCommand. rewrite Hf. reflexivity.
  - intros name args stdout stderr err Hf Hrun.
    unfold worker.executeCommand. rewrite Hf, Hrun, Hcomb.
    destruct err as [[c m | m]|]; reflexivity.
  - intros e Hw. unfold worker.executeScript. rewrite Hw. reflexivity.
  - intros stdout stderr err Hw Hrun.
    unfold worker.executeScript. rewrite Hw, Hrun, Hcomb.
    destruct err as [[c m | m]|]; reflexivity.
Qed.

End Strategy_properties.

(** The file job with FILE_OPERATION set to "delete", and to the empty
    string: both are refused without a look at the file system. *)
Lemma file_operation_dispatch_witness :
  (exists r,
     worker.Execute
       (worker.executeCommand "/work" (fun _ => []) [] examples.exitsWith3
          (examples.heapWithOperation (Some "delete")))
       (worker.executeScript "/work" String.append [] examples.exitsWith3
          (fun _ _ => None) (examples.heapWithOperation (Some "delete")))
       examples.failingStrategy
       (worker.executeFile "/work" (fun _ => false) String.append examples.noSuchFile
          examples.noSuchPath examples.noSuchPath
          (examples.heapWithOperation (Some "delete")))
       examples.epoch examples.epoch examples.fileJob = (Some r, None)
     /\ job.res_Status r = job.JobStatusFailed
     /\ job.res_Error r = "unsupported file operation: delete")
  /\ worker.executeFile "/work" (fun _ => false) String.append examples.noSuchFile
       examples.noSuchPath examples.noSuchPath
       (examples.heapWithOperation (Some "")) examples.fileJob
     = ("", 1%Z, Some (job.errorString "unsupported file operation: ")).
Proof.
  split.
  - destruct (file_operation_dispatch "/work" (fun _ => []) (fun _ => false)
                String.append [] examples.exitsWith3 (fun _ _ => None)
                examples.noSuchFile examples.noSuchPath examples.noSuchPath
                examples.failingStrategy (examples.heapWithOperation (Some "delete"))
                examples.fileJob examples.epoch examples.epoch) as [H _].
    destruct (H "delete" eq_refl ltac:(discriminate) ltac:(discriminate)
                ltac:(discriminate)) as [_ HE].
    destruct (HE eq_refl) as (r & Hr & Hst & _ & Herr & _).
    exists r. split; [exact Hr |]. split; [exact Hst | exact Herr].
  - destruct (file_operation_dispatch "/work" (fun _ => []) (fun _ => false)
                String.append [] examples.exitsWith3 (fun _ _ => None)
                examples.noSuchFile examples.noSuchPath examples.noSuchPath
                examples.failingStrategy (examples.heapWithOperation (Some ""))
                examples.fileJob examples.epoch examples.epoch) as [H _].
    destruct (H "" eq_refl ltac:(discriminate) ltac:(discriminate)
                ltac:(discriminate)) as [HF _].
    exact HF.
Defined.

(** A command that prints to both streams and exits with code 3. *)
Lemma process_output_and_exit_code_witness :
  worker.executeCommand "/work" (fun _ => ["make"; "test"]) [] examples.exitsWith3
    (examples.heapWithOperation None) (examples.queuedJob "a")
  = ("out" ++ worker.LF ++ "---STDERR---" ++ worker.LF ++ "err", 3%Z,
     Some (job.libraryError "exit status 3")).
Proof.
  destruct (process_output_and_exit_code "/work" (fun _ => ["make"; "test"])
              String.append [] examples.exitsWith3 (fun _ _ => None)
              (examples.heapWithOperation None) (examples.queuedJob "a"))
    as (_ & H & _).
  exact (H "make" ["test"] "out" "err" (Some (worker.ExitError 3 "exit status 3"))
           eq_refl eq_refl).
Defined.

(** ** Configuration *)

Section Config_properties.

Variable Getenv : string -> string.
Variable Atoi : string -> option Z.
Variable ParseDuration : string -> option Duration.
Variable Hostname : option string.
Variable unix : Z.

Local Abbreviation getEnvString := (config.getEnvString Getenv).
Local Abbreviation getEnvInt := (config.getEnvInt Getenv Atoi).
Local Abbreviation LoadConfig :=
  (config.LoadConfig Getenv Atoi ParseDuration Hostname unix).

Lemma getEnvString_nonempty (key defaultValue : string) :
  defaultValue <> "" -> getEnvString key defaultValue <> "".
Proof.
  intros Hd. unfold config.getEnvString.
  destruct (String.eqb_spec (Getenv key) ""); simpl; assumption.
Qed.

Lemma getEnvInt_default (key : string) (defaultValue : Z) :
  Getenv key = "" \/ Atoi (Getenv key) = None ->
  getEnvInt key defaultValue = defaultValue.
Proof.
  intros [H | H]; unfold config.getEnvInt; rewrite H; [reflexivity |].
  destruct (negb _); reflexivity.
Qed.

Lemma getEnvInt_parsed (key : string) (defaultValue i : Z) :
  Getenv key <> "" -> Atoi (Getenv key) = Some i ->
  getEnvInt key defaultValue = i.
Proof.
  intros Hne H. unfold config.getEnvInt. rewrite H.
  destruct (String.eqb_spec (Getenv key) ""); [contradiction | reflexivity].
Qed.

Lemma Validate_None (c : config.Config) :
  config.Validate c = None <->
  (0 < config.Port (config.Scheduler c) <= 65535)%Z
  /\ config.RedisURL (config.Scheduler c) <> ""
  /\ worker.SchedulerURL (config.Worker c) <> ""
  /\ (0 < worker.MaxConcurrentJobs (config.Worker c))%Z
  /\ (0 < config.MaxConcurrentJobs (config.Scheduler c))%Z.
Proof.
  unfold config.Validate.
  destruct (Z.leb_spec (config.Port (config.Scheduler c)) 0);
    [simpl; split; [discriminate | lia] |].
  destruct (Z.ltb_spec 65535 (config.Port (config.Scheduler c)));
    [simpl; split; [discriminate | lia] |]. simpl.
  destruct (String.eqb_spec (config.RedisURL (config.Scheduler c)) "");
    [split; [discriminate | tauto] |].
  destruct (String.eqb_spec (worker.SchedulerURL (config.Worker c)) "");
    [split; [discriminate | tauto] |].
  destruct (Z.leb_spec (worker.MaxConcurrentJobs (config.Worker c)) 0);
    [split; [discriminate | lia] |].
  destruct (Z.leb_spec (config.MaxConcurrentJobs (config.Scheduler c)) 0);
    [split; [discriminate | lia] |].
  split; [intros _; repeat split; auto; lia | reflexivity].
Qed.

Lemma loaded_URLs :
  config.RedisURL (config.Scheduler LoadConfig) <> ""
  /\ worker.SchedulerURL (config.Worker LoadConfig) <> "".
Proof. split; apply getEnvString_nonempty; discriminate. Qed.

Lemma loaded_Validate_None :
  config.Validate LoadConfig = None <->
  (0 < getEnvInt "SCHEDULER_PORT" 8080 <= 65535)%Z
  /\ (0 < getEnvInt "WORKER_MAX_CONCURRENT_JOBS" 5)%Z
  /\ (0 < getEnvInt "SCHEDULER_MAX_CONCURRENT_JOBS" 100)%Z.
Proof.
  rewrite Validate_None. destruct loaded_URLs as [Hr Hs]. simpl in *. tauto.
Qed.

(** X27: whatever the environment holds, the configuration that
    [LoadConfig] builds has a redis URL, a scheduler URL and a worker ID that
    are not empty, and the same redis URL in its scheduler and redis parts;
    so [Validate] never reports an empty URL for it, and accepts it exactly
    when the port and the two job limits read from the environment are in
    range. *)
Theorem loaded_config_has_its_URLs :
  let c := LoadConfig in
  config.RedisURL (config.Scheduler c) <> ""
  /\ worker.SchedulerURL (config.Worker c) <> ""
  /\ worker.cfg_ID (config.Worker c) <> ""
  /\ config.URL (config.Redis c) = config.RedisURL (config.Scheduler c)
  /\ config.Validate c <> Some (job.errorString "redis URL cannot be empty")
  /\ config.Validate c <> Some (job.errorString "scheduler URL cannot be empty")
  /\ (config.Validate c = None <->
      (0 < getEnvInt "SCHEDULER_PORT" 8080 <= 65535)%Z
      /\ (0 < getEnvInt "WORKER_MAX_CONCURRENT_JOBS" 5)%Z
      /\ (0 < getEnvInt "SCHEDULER_MAX_CONCURRENT_JOBS" 100)%Z).
Proof.
  intros c. destruct loaded_URLs as [Hr Hs]. fold c in Hr, Hs.
  split; [exact Hr |]. split; [exact Hs |].
  split; [apply getEnvString_nonempty; unfold config.generateWorkerID; discriminate |].
  split; [reflexivity |].
  assert (Hv : forall m,
            ~ (exists n, m = "invalid scheduler port: " ++ n) ->
            m <> "worker max concurrent jobs must be positive" ->
            m <> "scheduler max concurrent jobs must be positive" ->
            config.Validate c <> Some (job.errorString m)).
  { intros m Hp Hw Hsm. unfold config.Validate.
    destruct (_ || _); [intros [= E]; apply Hp; eexists; symmetry; exact E |].
    destruct (String.eqb_spec (config.RedisURL (config.Scheduler c)) "");
      [contradiction |].
    destruct (String.eqb_spec (worker.SchedulerURL (config.Worker c)) "");
      [contradiction |].
    destruct (_ <=? _)%Z; [congruence |].
    destruct (_ <=? _)%Z; [congruence | discriminate]. }
  split; [apply Hv; try discriminate; intros [n Hn]; discriminate Hn |].
  split; [apply Hv; try discriminate; intros [n Hn]; discriminate Hn |].
  apply loaded_Validate_None.
Qed.

(** X28: an integer setting whose variable is not set, or holds text that
    does not parse, takes its default: when that is so for the port and the
    two job limits, the loaded configuration validates and the scheduler
    address ends in ":8080".  A variable that does parse is taken as it
    is, in range or not: a port of 0 or less, or above 65535, makes
    [Validate] fail with "invalid scheduler port" and that number, and a
    job limit of 0 or less makes it fail as well. *)
Theorem integers_from_the_environment :
  ((forall key,
      key ∈ ["SCHEDULER_PORT"; "WORKER_MAX_CONCURRENT_JOBS";
             "SCHEDULER_MAX_CONCURRENT_JOBS"] ->
      Getenv key = "" \/ Atoi (Getenv key) = None) ->
   config.Validate LoadConfig = None
   /\ config.GetSchedulerAddress LoadConfig
      = getEnvString "SCHEDULER_HOST" "0.0.0.0" ++ ":8080")
  /\ (forall port,
        Getenv "SCHEDULER_PORT" <> "" ->
        Atoi (Getenv "SCHEDULER_PORT") = Some port ->
        (port <= 0 \/ 65535 < port)%Z ->
        config.Validate LoadConfig
        = Some (job.errorString ("invalid scheduler port: " ++ job.formatInt port)))
  /\ (forall key n,
        key ∈ ["WORKER_MAX_CONCURRENT_JOBS"; "SCHEDULER_MAX_CONCURRENT_JOBS"] ->
        Getenv key <> "" -> Atoi (Getenv key) = Some n -> (n <= 0)%Z ->
        config.Validate LoadConfig <> None).
Proof.
  split; [| split].
  - intros Hunset.
    assert (Hp : getEnvInt "SCHEDULER_PORT" 8080 = 8080%Z)
      by (apply getEnvInt_default, Hunset; set_solver).
    assert (Hw : getEnvInt "WORKER_MAX_CONCURRENT_JOBS" 5 = 5%Z)
      by (apply getEnvInt_default, Hunset; set_solver).
    assert (Hs : getEnvInt "SCHEDULER_MAX_CONCURRENT_JOBS" 100 = 100%Z)
      by (apply getEnvInt_default, Hunset; set_solver).
    split.
    + apply loaded_Validate_None. rewrite Hp, Hw, Hs. lia.
    + unfold config.GetSchedulerAddress. simpl. rewrite Hp. reflexivity.
  - intros port Hne Hport Hout.
    pose proof (getEnvInt_parsed "SCHEDULER_PORT" 8080 port Hne Hport) as Hp.
    unfold config.Validate. simpl. rewrite Hp.
    destruct (Z.leb_spec port 0); [reflexivity |].
    destruct (Z.ltb_spec 65535 port); [reflexivity | lia].
  - intros key n Hkey Hne Hn Hle. rewrite loaded_Validate_None.
    rewrite !elem_of_cons, elem_of_nil in Hkey.
    destruct Hkey as [-> | [-> | []]].
    + rewrite (getEnvInt_parsed "WORKER_MAX_CONCURRENT_JOBS" 5 n Hne Hn). lia.
    + rewrite (getEnvInt_parsed "SCHEDULER_MAX_CONCURRENT_JOBS" 100 n Hne Hn). lia.
Qed.

End Config_properties.

(** With SCHEDULER_PORT set to "0" the loaded configuration is refused. *)
Lemma integers_from_the_environment_witness :
  config.Validate
    (config.LoadConfig examples.portZero examples.atoiZero (fun _ => None) None 0)
  = Some (job.errorString "invalid scheduler port: 0").
Proof.
  destruct (integers_from_the_environment examples.portZero examples.atoiZero
              (fun _ => None) None 0%Z) as (_ & H & _).
  apply (H 0%Z); [discriminate | reflexivity | lia].
Defined.

(** ** The handlers that list and count jobs *)

Lemma listLimit_positive (query : string -> string) (Atoi : string -> option Z) :
  (1 <= api.listLimit query Atoi)%Z.
Proof.
  unfold api.listLimit. destruct (negb _); [| lia].
  destruct (Atoi _) as [parsed |]; [| lia].
  destruct (Z.ltb_spec 0 parsed); lia.
Qed.

(** X29: when the manager returns a list, [handleListJobs] answers with
    status 200, the first [limit] jobs of that list in its order, and their
    number, the smaller of [limit] and the length.  The limit is never below
    1: a limit parameter that is absent, does not parse, or is 0 or negative
    is not refused but read as 100.  The filters it hands to the manager
    select, by the store's matching, the jobs whose status and worker are
    those of the query, a parameter that is absent selecting all. *)
Theorem handleListJobs_limit (query : string -> string) (Atoi : string -> option Z)
    (ListJobs : list job.Filter -> list loc * option job.error) (jobs : list loc) :
  ListJobs (api.listFilters query) = (jobs, None) ->
  let limit := api.listLimit query Atoi in
  (1 <= limit)%Z
  /\ (query "limit" = "" \/ Atoi (query "limit") = None
      \/ (exists parsed, Atoi (query "limit") = Some parsed /\ (parsed <= 0)%Z) ->
      limit = 100%Z)
  /\ api.handleListJobs query Atoi ListJobs
     = api.writeJSON 200 (take (Z.to_nat limit) jobs)
         (Z.min limit (Z.of_nat (length jobs)))
  /\ (forall jv,
        scheduler.matchesFilters jv (api.listFilters query) = true <->
        (query "status" = "" \/ job.Status jv = query "status")
        /\ (query "worker_id" = "" \/ job.WorkerID jv = query "worker_id")).
Proof.
  intros Hlist limit. pose proof (listLimit_positive query Atoi) as Hpos.
  fold limit in Hpos. split; [exact Hpos |]. split; [| split].
  - subst limit. unfold api.listLimit.
    intros [H | [H | (parsed & H & Hle)]]; rewrite H; [reflexivity | |].
    + destruct (negb _); reflexivity.
    + destruct (negb _); [| reflexivity].
      destruct (Z.ltb_spec 0 parsed); [lia | reflexivity].
  - unfold api.handleListJobs. rewrite Hlist. fold limit.
    destruct (Z.ltb_spec limit (Z.of_nat (length jobs))) as [Hlt | Hge].
    + rewrite length_take. f_equal. lia.
    + rewrite take_ge by lia. f_equal. lia.
  - intros jv. unfold api.listFilters.
    destruct (String.eqb_spec (query "status") "") as [Hs | Hs];
      destruct (String.eqb_spec (query "worker_id") "") as [Hw | Hw];
      cbn [negb app scheduler.matchesFilters];
      unfold scheduler.matchesFilter; cbn.
    + tauto.
    + destruct (String.eqb_spec (job.WorkerID jv) (query "worker_id")); simpl;
        intuition congruence.
    + destruct (String.eqb_spec (job.Status jv) (query "status")); simpl;
        intuition congruence.
    + destruct (String.eqb_spec (job.Status jv) (query "status"));
        destruct (String.eqb_spec (job.WorkerID jv) (query "worker_id")); simpl;
        intuition congruence.
Qed.

(** A limit of "0" on a list of three jobs: all three are returned. *)
Lemma handleListJobs_limit_witness :
  api.handleListJobs examples.queuedLimitZero examples.atoiZero examples.threeJobs
  = api.writeJSON 200 [7%positive; 8%positive; 9%positive] 3.
Proof.
  destruct (handleListJobs_limit examples.queuedLimitZero examples.atoiZero
              examples.threeJobs [7%positive; 8%positive; 9%positive] eq_refl)
    as (_ & _ & H & _).
  exact H.
Defined.

Lemma status_filter_is_eqb (jv : job.Job) (status : job.JobStatus) :
  scheduler.matchesFilters jv [ job.mkFilter "status" "eq" (VString status) ]
  = String.eqb (job.Status jv) status.
Proof.
  simpl. unfold scheduler.matchesFilter; simpl.
  destruct (String.eqb (job.Status jv) status); reflexivity.
Qed.

Lemma List_by_status_length (h : heap.Heap) (s : scheduler.MemoryStore)
    (status : job.JobStatus) :
  scheduler.wellFormed h s ->
  exists h' result,
    scheduler.List h s [ job.mkFilter "status" "eq" (VString status) ]
    = Some (h', result, None)
    /\ heap.structs h ⊆ heap.structs h'
    /\ Z.of_nat (length result)
       = api.stored h s (fun jv => String.eqb (job.Status jv) status).
Proof.
  intros Hwf.
  destruct (List_spec h s [ job.mkFilter "status" "eq" (VString status) ] Hwf)
    as (h' & result & Hrun & Hsub & _ & _ & Hall).
  exists h', result. split; [exact Hrun |]. split; [exact Hsub |].
  apply Forall2_length in Hall. rewrite Hall.
  unfold api.stored, scheduler.matchingJobs. f_equal. f_equal.
  apply filter_ext. intros jv. apply status_filter_is_eqb.
Qed.

Lemma stored_extends (h h' : heap.Heap) (s : scheduler.MemoryStore)
    (p : job.Job -> bool) :
  scheduler.wellFormed h s -> heap.structs h ⊆ heap.structs h' ->
  api.stored h' s p = api.stored h s p.
Proof.
  intros Hwf Hsub. unfold api.stored.
  rewrite (structsOf_extends h h'); [reflexivity | | exact Hsub].
  apply Forall_forall. intros [id q] Hin.
  apply elem_of_map_to_list in Hin. simpl. eapply Hwf; exact Hin.
Qed.

Lemma countLoop_spec (s : scheduler.MemoryStore) (cnt : string -> Z)
    (statuses : list job.JobStatus) :
  forall (h : heap.Heap) (jobCounts : gmap string Z) (totalJobs : Z),
    scheduler.wellFormed h s ->
    (forall st, api.stored h s (fun jv => String.eqb (job.Status jv) st) = cnt st) ->
    exists h',
      api.countLoop h s statuses jobCounts totalJobs
      = Some (h',
              foldl (fun m st => <[ st := cnt st ]> m) jobCounts statuses,
              foldl (fun t st => t + cnt st)%Z totalJobs statuses)
      /\ heap.structs h ⊆ heap.structs h'.
Proof.
  induction statuses as [| st rest IH]; intros h jobCounts totalJobs Hwf Hcnt.
  - exists h. split; reflexivity.
  - destruct (List_by_status_length h s st Hwf) as (h1 & result & Hrun & Hsub & Hlen).
    assert (Hwf1 : scheduler.wellFormed h1 s)
      by (eapply wellFormed_extends; eassumption).
    rewrite Hcnt in Hlen.
    destruct (IH h1 (<[ st := cnt st ]> jobCounts) (totalJobs + cnt st)%Z Hwf1)
      as (h' & Hrest & Hsub').
    { intros st'. rewrite (stored_extends h h1) by assumption. apply Hcnt. }
    exists h'. split; [| etransitivity; eassumption].
    change (api.countLoop h s (st :: rest) jobCounts totalJobs)
      with (match scheduler.List h s [ job.mkFilter "status" "eq" (VString st) ] with
            | None => None
            | Some (h1, jobs, None) =>
                api.countLoop h1 s rest (<[ st := Z.of_nat (length jobs) ]> jobCounts)
                  (totalJobs + Z.of_nat (length jobs))%Z
            | Some (h1, _, Some _) => api.countLoop h1 s rest jobCounts totalJobs
            end).
    rewrite Hrun, Hlen. exact Hrest.
Qed.

(** Each job is counted under at most one of the six statuses. *)
Lemma six_counts_sum (l : list job.Job) :
  (foldl (fun t st =>
            t + Z.of_nat (length (List.filter
                                    (fun jv => String.eqb (job.Status jv) st) l)))
         0 api.statuses
   = Z.of_nat (length (List.filter
                         (fun jv => existsb (String.eqb (job.Status jv)) api.statuses)
                         l)))%Z.
Proof.
  unfold api.statuses. cbn [foldl].
  induction l as [| jv l IH]; [reflexivity |].
  cbn [List.filter existsb].
  unfold job.JobStatusPending, job.JobStatusQueued, job.JobStatusRunning,
    job.JobStatusCompleted, job.JobStatusFailed, job.JobStatusCancelled in *.
  cbn [existsb] in IH.
  destruct (String.eqb_spec (job.Status jv) "pending") as [E | _];
    [try rewrite E; cbn [String.eqb Ascii.eqb Bool.eqb orb length]; lia |].
  destruct (String.eqb_spec (job.Status jv) "queued") as [E | _];
    [try rewrite E; cbn [String.eqb Ascii.eqb Bool.eqb orb length]; lia |].
  destruct (String.eqb_spec (job.Status jv) "running") as [E | _];
    [try rewrite E; cbn [String.eqb Ascii.eqb Bool.eqb orb length]; lia |].
  destruct (String.eqb_spec (job.Status jv) "completed") as [E | _];
    [try rewrite E; cbn [String.eqb Ascii.eqb Bool.eqb orb length]; lia |].
  destruct (String.eqb_spec (job.Status jv) "failed") as [E | _];
    [try rewrite E; cbn [String.eqb Ascii.eqb Bool.eqb orb length]; lia |].
  destruct (String.eqb_spec (job.Status jv) "cancelled") as [E | _];
    [try rewrite E; cbn [String.eqb Ascii.eqb Bool.eqb orb length]; lia |].
  cbn [orb]. exact IH.
Qed.

Lemma length_structsOf (h : heap.Heap) (s : scheduler.MemoryStore) :
  scheduler.wellFormed h s ->
  Z.of_nat (length (scheduler.structsOf h (map_to_list (scheduler.jobs s))))
  = scheduler.Count s.
Proof.
  intros Hwf. unfold scheduler.Count. rewrite <- length_map_to_list. f_equal.
  assert (Hall : Forall (fun e : string * loc => is_Some (heap.structs h !! e.2))
                   (map_to_list (scheduler.jobs s))).
  { apply Forall_forall. intros [id q] Hin.
    apply elem_of_map_to_list in Hin. simpl. eapply Hwf; exact Hin. }
  unfold scheduler.structsOf.
  induction Hall as [| e es [x Hx] _ IH]; [reflexivity |].
  simpl. rewrite Hx. simpl. f_equal. exact IH.
Qed.

Lemma stored_split (h : heap.Heap) (s : scheduler.MemoryStore) (p : job.Job -> bool) :
  scheduler.wellFormed h s ->
  (api.stored h s p + api.stored h s (fun jv => negb (p jv)) = scheduler.Count s)%Z.
Proof.
  intros Hwf. rewrite <- (length_structsOf h s Hwf). unfold api.stored.
  rewrite <- Nat2Z.inj_add. f_equal. apply List.filter_length.
Qed.

Lemma stored_positive (h : heap.Heap) (s : scheduler.MemoryStore) (p : job.Job -> bool)
    (id : string) (jv : job.Job) :
  scheduler.storedJob h s id = Some jv -> p jv = true ->
  (0 < api.stored h s p)%Z.
Proof.
  intros Hid Hp. unfold api.stored.
  assert (Hin : In jv (List.filter p
                         (scheduler.structsOf h (map_to_list (scheduler.jobs s))))).
  { apply filter_In. split; [| exact Hp].
    apply list_elem_of_In. unfold scheduler.structsOf.
    apply list_elem_of_omap. unfold scheduler.storedJob in Hid.
    destruct (scheduler.jobs s !! id) as [q|] eqn:Hq; [| discriminate].
    exists (id, q). split; [apply elem_of_map_to_list; exact Hq | exact Hid]. }
  destruct (List.filter p _); [destruct Hin | simpl; lia].
Qed.

(** X30: [handleMetrics], over a memory store whose pointers are valid,
    queries the store once for each of six statuses: [jobCounts] holds, for
    each of the six and for no other key, the number of stored jobs with that
    status, and [totalJobs] is the number of stored jobs less those whose
    status is none of the six.  A stored job that waits for a retry is in
    neither, so the total is then below the store's [Count].  The queries
    leave the stored jobs as they were. *)
Theorem metrics_count_six_statuses (h : heap.Heap) (s : scheduler.MemoryStore) :
  scheduler.wellFormed h s ->
  exists h' jobCounts totalJobs,
    api.jobMetrics h s = Some (h', jobCounts, totalJobs)
    /\ (forall st,
          jobCounts !! st
          = if existsb (String.eqb st) api.statuses
            then Some (api.stored h s (fun jv => String.eqb (job.Status jv) st))
            else None)
    /\ (totalJobs
        + api.stored h s
            (fun jv => negb (existsb (String.eqb (job.Status jv)) api.statuses))
        = scheduler.Count s)%Z
    /\ (forall id jv,
          scheduler.storedJob h s id = Some jv ->
          job.Status jv = job.JobStatusRetrying ->
          (totalJobs < scheduler.Count s)%Z)
    /\ (forall id, scheduler.storedJob h' s id = scheduler.storedJob h s id).
Proof.
  intros Hwf. unfold api.jobMetrics.
  destruct (countLoop_spec s
              (fun st => api.stored h s (fun jv => String.eqb (job.Status jv) st))
              api.statuses h ∅ 0%Z Hwf (fun _ => eq_refl)) as (h' & Hrun & Hsub).
  eexists h', _, _. split; [exact Hrun |].
  assert (Htotal :
    (foldl (fun t st => t + api.stored h s (fun jv => String.eqb (job.Status jv) st))
       0 api.statuses
     + api.stored h s
         (fun jv => negb (existsb (String.eqb (job.Status jv)) api.statuses))
     = scheduler.Count s)%Z).
  { rewrite <- (stored_split h s
                  (fun jv => existsb (String.eqb (job.Status jv)) api.statuses) Hwf).
    f_equal. apply six_counts_sum. }
  split; [| split; [exact Htotal | split]].
  - intros st. unfold api.statuses. cbn [foldl existsb].
    unfold job.JobStatusPending, job.JobStatusQueued, job.JobStatusRunning,
      job.JobStatusCompleted, job.JobStatusFailed, job.JobStatusCancelled.
    destruct (String.eqb_spec st "pending") as [-> | N1];
      [rewrite !lookup_insert_ne by discriminate; rewrite lookup_insert_eq; reflexivity |].
    destruct (String.eqb_spec st "queued") as [-> | N2];
      [rewrite !lookup_insert_ne by discriminate; rewrite lookup_insert_eq; reflexivity |].
    destruct (String.eqb_spec st "running") as [-> | N3];
      [rewrite !lookup_insert_ne by discriminate; rewrite lookup_insert_eq; reflexivity |].
    destruct (String.eqb_spec st "completed") as [-> | N4];
      [rewrite !lookup_insert_ne by discriminate; rewrite lookup_insert_eq; reflexivity |].
    destruct (String.eqb_spec st "failed") as [-> | N5];
      [rewrite !lookup_insert_ne by discriminate; rewrite lookup_insert_eq; reflexivity |].
    destruct (String.eqb_spec st "cancelled") as [-> | N6];
      [rewrite lookup_insert_eq; reflexivity |].
    rewrite !lookup_insert_ne by congruence. apply lookup_empty.
  - intros id jv Hid Hst.
    pose proof (stored_positive h s
                  (fun jv => negb (existsb (String.eqb (job.Status jv)) api.statuses))
                  id jv Hid) as Hpos.
    cbv beta in Hpos. rewrite Hst in Hpos. specialize (Hpos eq_refl). lia.
  - intros id. apply storedJob_extends; assumption.
Qed.

(** A store with a queued job and a job that waits for a retry: the total
    is below the two jobs the store counts. *)
Lemma metrics_count_six_statuses_witness :
  scheduler.wellFormed examples.retryHeap examples.storeWithRetry
  /\ scheduler.Count examples.storeWithRetry = 2%Z
  /\ exists h' jobCounts totalJobs,
       api.jobMetrics examples.retryHeap examples.storeWithRetry
       = Some (h', jobCounts, totalJobs)
       /\ (totalJobs < 2)%Z.
Proof.
  assert (Hwf : scheduler.wellFormed examples.retryHeap examples.storeWithRetry).
  { intros id p H. simpl in H. rewrite lookup_insert in H.
    case_decide; [injection H as <-; eexists; reflexivity |].
    apply lookup_singleton_Some in H as [_ <-]. eexists; reflexivity. }
  split; [exact Hwf |]. split; [reflexivity |].
  destruct (metrics_count_six_statuses examples.retryHeap examples.storeWithRetry Hwf)
    as (h' & jobCounts & totalJobs & Hrun & _ & _ & Hretry & _).
  exists h', jobCounts, totalJobs. split; [exact Hrun |].
  apply (Hretry "r" (examples.retryingJob "r")); reflexivity.
Defined.
